(** * discordgo: the structures of [structs.go]

    A shallow embedding of the parts of [structs.go] that compute: the
    permission and intent bit tables, the mention formatters of [Channel],
    [Role] and [Member], the names of an [Emoji] with [EmojiRegex], the
    sorting interface of [Roles], and the three custom JSON decoders
    ([TimeStamps.UnmarshalJSON], [TooManyRequests.UnmarshalJSON] and
    [Activity.UnmarshalJSON]).

    Conventions.  Go's untyped integer constants are arbitrary-precision
    integers, so they are [Z].  [int64] values are [Z] in the range of
    [Int64.in_range], and every [int64] operation wraps as Go defines it.
    [float64] values are IEEE 754 binary64 numbers, taken from the Standard
    Library's [SpecFloat] (precision 53, maximal exponent 1024).  Go strings
    are byte sequences: [string] here, whose characters are 8-bit. *)

From Stdlib Require Import ZArith List String Ascii Strings.Byte Bool Lia.
From Stdlib Require Import Sorting.Permutation.
From Stdlib Require Import QArith Qabs.
From Stdlib Require Import Floats.SpecFloat.
Import ListNotations.

Local Open Scope Z_scope.

(** Go's [|], [&] and [<<] on integers, with Go's precedences. *)
Infix ".|" := Z.lor (at level 50, left associativity) : Z_scope.
Infix ".&" := Z.land (at level 40, left associativity) : Z_scope.
Infix "<<" := Z.shiftl (at level 40, left associativity) : Z_scope.

(** ** Permission bits *)

Module Permission.

(** Constants for the different bit offsets of text channel permissions *)
Definition PermissionReadMessages       := 0x0000000000000400.
Definition PermissionSendMessages       := 0x0000000000000800.
Definition PermissionSendTTSMessages    := 0x0000000000001000.
Definition PermissionManageMessages     := 0x0000000000002000.
Definition PermissionEmbedLinks         := 0x0000000000004000.
Definition PermissionAttachFiles        := 0x0000000000008000.
Definition PermissionReadMessageHistory := 0x0000000000010000.
Definition PermissionMentionEveryone    := 0x0000000000020000.
Definition PermissionUseExternalEmojis  := 0x0000000000040000.
Definition PermissionUseSlashCommands   := 0x0000000080000000.

(** Constants for the different bit offsets of voice permissions *)
Definition PermissionVoicePrioritySpeaker := 0x0000000000000100.
Definition PermissionVoiceStreamVideo     := 0x0000000000000200.
Definition PermissionVoiceConnect         := 0x0000000000100000.
Definition PermissionVoiceSpeak           := 0x0000000000200000.
Definition PermissionVoiceMuteMembers     := 0x0000000000400000.
Definition PermissionVoiceDeafenMembers   := 0x0000000000800000.
Definition PermissionVoiceMoveMembers     := 0x0000000001000000.
Definition PermissionVoiceUseVAD          := 0x0000000002000000.
Definition PermissionVoiceRequestToSpeak  := 0x0000000100000000.

(** Constants for general management. *)
Definition PermissionChangeNickname  := 0x0000000004000000.
Definition PermissionManageNicknames := 0x0000000008000000.
Definition PermissionManageRoles     := 0x0000000010000000.
Definition PermissionManageWebhooks  := 0x0000000020000000.
Definition PermissionManageEmojis    := 0x0000000040000000.

(** Constants for the different bit offsets of general permissions *)
Definition PermissionCreateInstantInvite := 0x0000000000000001.
Definition PermissionKickMembers         := 0x0000000000000002.
Definition PermissionBanMembers          := 0x0000000000000004.
Definition PermissionAdministrator       := 0x0000000000000008.
Definition PermissionManageChannels      := 0x0000000000000010.
Definition PermissionManageServer        := 0x0000000000000020.
Definition PermissionAddReactions        := 0x0000000000000040.
Definition PermissionViewAuditLogs       := 0x0000000000000080.
Definition PermissionViewChannel         := 0x0000000000000400.
Definition PermissionViewGuildInsights   := 0x0000000000080000.

Definition PermissionAllText :=
  PermissionViewChannel .|
  PermissionSendMessages .|
  PermissionSendTTSMessages .|
  PermissionManageMessages .|
  PermissionEmbedLinks .|
  PermissionAttachFiles .|
  PermissionReadMessageHistory .|
  PermissionMentionEveryone.

Definition PermissionAllVoice :=
  PermissionViewChannel .|
  PermissionVoiceConnect .|
  PermissionVoiceSpeak .|
  PermissionVoiceMuteMembers .|
  PermissionVoiceDeafenMembers .|
  PermissionVoiceMoveMembers .|
  PermissionVoiceUseVAD .|
  PermissionVoicePrioritySpeaker.

Definition PermissionAllChannel :=
  PermissionAllText .|
  PermissionAllVoice .|
  PermissionCreateInstantInvite .|
  PermissionManageRoles .|
  PermissionManageChannels .|
  PermissionAddReactions .|
  PermissionViewAuditLogs.

Definition PermissionAll :=
  PermissionAllChannel .|
  PermissionKickMembers .|
  PermissionBanMembers .|
  PermissionManageServer .|
  PermissionAdministrator .|
  PermissionManageWebhooks .|
  PermissionManageEmojis.

(** The union of a list of masks: what the specification calls
    [compose(bits...)]. *)
Definition compose (bits : list Z) : Z := fold_right Z.lor 0 bits.

(** The documented members of each composite, in the order the specification
    lists them. *)
Definition AllText_members : list Z :=
  [ PermissionViewChannel; PermissionSendMessages; PermissionSendTTSMessages;
    PermissionManageMessages; PermissionEmbedLinks; PermissionAttachFiles;
    PermissionReadMessageHistory; PermissionMentionEveryone ].

Definition AllVoice_members : list Z :=
  [ PermissionViewChannel; PermissionVoiceConnect; PermissionVoiceSpeak;
    PermissionVoiceMuteMembers; PermissionVoiceDeafenMembers;
    PermissionVoiceMoveMembers; PermissionVoiceUseVAD;
    PermissionVoicePrioritySpeaker ].

Definition AllChannel_members : list Z :=
  [ PermissionAllText; PermissionAllVoice; PermissionCreateInstantInvite;
    PermissionManageRoles; PermissionManageChannels; PermissionAddReactions;
    PermissionViewAuditLogs ].

Definition All_members : list Z :=
  [ PermissionAllChannel; PermissionKickMembers; PermissionBanMembers;
    PermissionManageServer; PermissionAdministrator; PermissionManageWebhooks;
    PermissionManageEmojis ].

(** [covered ms i]: bit [i] is set in one of the masks [ms]. *)
Definition covered (ms : list Z) (i : Z) : bool :=
  existsb (fun m => Z.testbit m i) ms.

(** [bits_of z ps]: the bits set in [z] are those of the positions [ps]. *)
Definition bits_of (z : Z) (ps : list Z) : Prop :=
  forall i : Z, Z.testbit z i = existsb (Z.eqb i) ps.

(** The positions below [n], and a decision procedure for [bits_of] on the
    masks below [2^n]. *)
Definition positions (n : nat) : list Z := map Z.of_nat (seq 0 n).

Definition bits_ofb (n : nat) (z : Z) (ps : list Z) : bool :=
  (0 <=? z) && (z <? 2 ^ Z.of_nat n) &&
  forallb (fun p => (0 <=? p) && (p <? Z.of_nat n)) ps &&
  forallb (fun k => Bool.eqb (Z.testbit z k) (existsb (Z.eqb k) ps))
          (positions n).

End Permission.

(** ** Gateway intents *)

Module Intents.

(** Intent is the type of a Gateway Intent: a Go [int]. *)
Definition Intent := Z.

Definition IntentsGuilds                 : Intent := 1 << 0.
Definition IntentsGuildMembers           : Intent := 1 << 1.
Definition IntentsGuildBans              : Intent := 1 << 2.
Definition IntentsGuildEmojis            : Intent := 1 << 3.
Definition IntentsGuildIntegrations      : Intent := 1 << 4.
Definition IntentsGuildWebhooks          : Intent := 1 << 5.
Definition IntentsGuildInvites           : Intent := 1 << 6.
Definition IntentsGuildVoiceStates       : Intent := 1 << 7.
Definition IntentsGuildPresences         : Intent := 1 << 8.
Definition IntentsGuildMessages          : Intent := 1 << 9.
Definition IntentsGuildMessageReactions  : Intent := 1 << 10.
Definition IntentsGuildMessageTyping     : Intent := 1 << 11.
Definition IntentsDirectMessages         : Intent := 1 << 12.
Definition IntentsDirectMessageReactions : Intent := 1 << 13.
Definition IntentsDirectMessageTyping    : Intent := 1 << 14.
Definition IntentsGuildScheduledEvents   : Intent := 1 << 16.

Definition IntentsAllWithoutPrivileged : Intent :=
  IntentsGuilds .|
  IntentsGuildBans .|
  IntentsGuildEmojis .|
  IntentsGuildIntegrations .|
  IntentsGuildWebhooks .|
  IntentsGuildInvites .|
  IntentsGuildVoiceStates .|
  IntentsGuildMessages .|
  IntentsGuildMessageReactions .|
  IntentsGuildMessageTyping .|
  IntentsDirectMessages .|
  IntentsDirectMessageReactions .|
  IntentsDirectMessageTyping .|
  IntentsGuildScheduledEvents.

Definition IntentsAll : Intent :=
  IntentsAllWithoutPrivileged .|
  IntentsGuildMembers .|
  IntentsGuildPresences.

Definition IntentsNone : Intent := 0.

(** MakeIntent is now a no-op. *)
Definition MakeIntent (intents : Intent) : Intent := intents.

End Intents.

(** ** Go's [int64]

    A value of type [int64] is an integer of [in_range]; arithmetic wraps
    around in two's complement, as the Go specification defines for signed
    integers. *)

Module Int64.

Definition min_int : Z := - 2 ^ 63.
Definition max_int : Z := 2 ^ 63 - 1.

Definition in_range (z : Z) : Prop := min_int <= z <= max_int.
Definition in_rangeb (z : Z) : bool := (min_int <=? z) && (z <=? max_int).

(** The [int64] that the mathematical integer [z] wraps to. *)
Definition wrap (z : Z) : Z := (z + 2 ^ 63) mod 2 ^ 64 - 2 ^ 63.

Definition add (a b : Z) : Z := wrap (a + b).
Definition sub (a b : Z) : Z := wrap (a - b).
Definition mul (a b : Z) : Z := wrap (a * b).

(** Go's [/] truncates toward zero. *)
Definition quot (a b : Z) : Z := wrap (Z.quot a b).

End Int64.

(** ** Go's [float64]

    IEEE 754 binary64 numbers.  Arithmetic is the Standard Library's
    specification of it, rounding to nearest, ties to even. *)

Module Float64.

Definition prec : Z := 53.
Definition emax : Z := 1024.

Definition float64 : Type := spec_float.

(** The canonical representations: the values a [float64] can take. *)
Definition valid (x : float64) : bool := valid_binary prec emax x.

Definition zero : float64 := S754_zero false.

Definition mul (x y : float64) : float64 := SFmul prec emax x y.

(** The [float64] nearest to [(-1)^s * m * 2^e], for [0 <= m]. *)
Definition normalize (s : bool) (m e : Z) : float64 :=
  binary_normalize prec emax (cond_Zopp s m) e s.

(** The [float64] an integer constant converts to. *)
Definition of_Z (z : Z) : float64 := binary_normalize prec emax z 0 false.

(** The [float64] nearest to the decimal [(-1)^neg * n * 10^k], for [0 <= n]:
    the value [strconv.ParseFloat] gives the literal, or an infinity when it
    is out of range. *)
Definition of_decimal (neg : bool) (n k : Z) : float64 :=
  if n <=? 0 then S754_zero neg
  else if 0 <=? k then normalize neg (n * 10 ^ k) 0
  else
    let '(q, e, l) := SFdiv_core_binary prec emax n 0 (10 ^ (- k)) 0 in
    binary_round_aux prec emax neg q e l.

Definition is_finite (x : float64) : bool :=
  match x with
  | S754_zero _ | S754_finite _ _ _ => true
  | _ => false
  end.

(** What [k] right shifts of the mantissa [M] leave: the quotient, and a
    round or sticky bit exactly when the part shifted out is not zero. *)
Definition shifted (M k : Z) (mrs : shr_record) : Prop :=
  0 <= k /\ shr_m mrs = M / 2 ^ k /\
  (shr_r mrs || shr_s mrs = false <-> M mod 2 ^ k = 0).

(** The number of right shifts that bring [m * 2^e] to the format. *)
Definition shift_of (m e : Z) : Z :=
  Z.max 0 (fexp prec emax (Zdigits2 m + e) - e).

(** The rational [(-1)^s * a * 2^e], as a fraction. *)
Definition value (s : bool) (a e : Z) : Q :=
  if 0 <=? e then inject_Z (cond_Zopp s (a * 2 ^ e))
  else cond_Zopp s a # Z.to_pos (2 ^ (- e)).

(** The number a finite [float64] stands for, [(-1)^s * m * 2^e] (0 for
    the infinities and NaN). *)
Definition to_Q (x : float64) : Q :=
  match x with
  | S754_finite s m e => value s (Zpos m) e
  | _ => 0%Q
  end.

(** [y] is [(-1)^s * a * 2^e] exactly: the zero of sign [s] when [a] is
    zero, and otherwise a number of the format whose mantissa is [a] shifted
    to a lower exponent. *)
Definition represents (y : float64) (s : bool) (a e : Z) : Prop :=
  (a = 0 /\ y = S754_zero s) \/
  (exists (m' : positive) (e' : Z),
     y = S754_finite s m' e' /\ e' <= e /\
     Zpos m' = a * 2 ^ (e - e') /\ valid y = true).

(** The integer part of a finite [float64], toward zero. *)
Definition trunc (x : float64) : option Z :=
  match x with
  | S754_zero _ => Some 0
  | S754_finite s m e => Some (cond_Zopp s (Z.shiftl (Zpos m) e))
  | _ => None
  end.

(** [math.Modf]: "Modf returns integer and fractional floating-point numbers
    that sum to f.  Both values have the same sign as f."  Special cases:
    [Modf(+-Inf) = +-Inf, NaN] and [Modf(NaN) = NaN, NaN]. *)
Definition Modf (f : float64) : float64 * float64 :=
  match f with
  | S754_finite s m e =>
      if 0 <=? e then (f, S754_zero s)
      else (normalize s (Z.shiftr (Zpos m) (- e)) 0,
            normalize s (Z.land (Zpos m) (Z.ones (- e))) e)
  | S754_zero _ => (f, f)
  | S754_infinity _ => (f, S754_nan)
  | S754_nan => (S754_nan, S754_nan)
  end.

Section Conversion.

(** The Go specification leaves the result of converting a floating-point
    value that [int64] cannot represent to the implementation:
    [unrepresentable] is that result. *)
Variable unrepresentable : float64 -> Z.

(** The conversion [int64(x)]: the fraction is discarded. *)
Definition to_int64 (x : float64) : Z :=
  match trunc x with
  | Some z => if Int64.in_rangeb z then z else unrepresentable x
  | None => unrepresentable x
  end.

End Conversion.

(** What amd64 gives for the values [int64] cannot represent. *)
Definition amd64_unrepresentable (_ : float64) : Z := Int64.min_int.

(** [z] is the rational [q] with its fraction discarded. *)
Definition is_truncation (q : Q) (z : Z) : Prop :=
  ((0 <= q)%Q -> (inject_Z z <= q)%Q /\ (q < inject_Z z + 1)%Q) /\
  ((q <= 0)%Q -> (inject_Z z - 1 < q)%Q /\ (q <= inject_Z z)%Q).

End Float64.

(** ** Package [time] *)

Module GoTime.

(** A Duration is an [int64] count of nanoseconds. *)
Definition Duration : Type := Z.

Definition Nanosecond  : Duration := 1.
Definition Microsecond : Duration := 1000 * Nanosecond.
Definition Millisecond : Duration := 1000 * Microsecond.
Definition Second      : Duration := 1000 * Millisecond.

(** The duration in seconds, exactly. *)
Definition seconds (d : Duration) : Q := d # 1000000000.

Arguments seconds d%_Z.

(** An instant: seconds since January 1, 1970 UTC and the nanoseconds
    within the second. *)
Record Time : Type := { unix_sec : Z; unix_nsec : Z }.

(** [time.Unix]: "Unix returns the local Time corresponding to the given
    Unix time, sec seconds and nsec nanoseconds since January 1, 1970 UTC.
    It is valid to pass nsec outside the range [0, 999999999]." *)
Definition Unix (sec nsec : Z) : Time :=
  if (nsec <? 0) || (1000000000 <=? nsec) then
    let n := Int64.quot nsec 1000000000 in
    let sec := Int64.add sec n in
    let nsec := Int64.sub nsec (Int64.mul n 1000000000) in
    if nsec <? 0
    then {| unix_sec := Int64.sub sec 1; unix_nsec := Int64.add nsec 1000000000 |}
    else {| unix_sec := sec; unix_nsec := nsec |}
  else {| unix_sec := sec; unix_nsec := nsec |}.

(** The nanoseconds from the epoch to an instant, as a mathematical
    integer. *)
Definition since_epoch (t : Time) : Z := unix_sec t * 1000000000 + unix_nsec t.

End GoTime.

(** ** Go's run-time panics and pointers *)

Inductive panic : Type :=
| NilPointerDereference.

(** What a call comes to: it returns a value, or the goroutine panics. *)
Inductive outcome (A : Type) : Type :=
| Returns (a : A)
| Panics (p : panic).

Arguments Returns {A} a.
Arguments Panics {A} p.

Definition bind {A B : Type} (o : outcome A) (k : A -> outcome B) : outcome B :=
  match o with
  | Returns a => k a
  | Panics p => Panics p
  end.

(** A pointer [*T] is [nil] ([None]) or points to a [T]; [deref] is the
    indirection [p.f] makes through [p]. *)
Definition deref {A : Type} (p : option A) : outcome A :=
  match p with
  | Some a => Returns a
  | None => Panics NilPointerDereference
  end.

(** ** Package [fmt] *)

Module Fmt.

Local Open Scope string_scope.

(** [fmt.Sprintf] on a format and string operands.  The verbs given their
    meaning are those this file's formats use: [%s] (and [%v], which prints
    a string the same way) writes the next operand as it is, [%%] writes a
    percent sign.  A verb with no operand left writes [%!s(MISSING)], a
    lone [%] at the end [%!(NOVERB)], and operands left over are reported
    after the text, as [fmt] does.  Any other verb is written as [fmt]
    writes a verb its operand does not support. *)
Fixpoint format (f : string) (args : list string) : string * list string :=
  match f with
  | EmptyString => (EmptyString, args)
  | String "%" EmptyString => ("%!(NOVERB)", args)
  | String "%" (String "%" rest) =>
      let '(out, unused) := format rest args in (String "%" out, unused)
  | String "%" (String v rest) =>
      match args with
      | [] =>
          let '(out, unused) := format rest [] in
          ("%!" ++ String v "(MISSING)" ++ out, unused)
      | a :: args' =>
          let '(out, unused) := format rest args' in
          if (Ascii.eqb v "s" || Ascii.eqb v "v")%bool
          then (a ++ out, unused)
          else ("%!" ++ String v "(string=" ++ a ++ ")" ++ out, unused)
      end
  | String c rest =>
      let '(out, unused) := format rest args in (String c out, unused)
  end.

Fixpoint extra (args : list string) : string :=
  match args with
  | [] => EmptyString
  | [a] => "string=" ++ a
  | a :: rest => "string=" ++ a ++ ", " ++ extra rest
  end.

Definition Sprintf (f : string) (args : list string) : string :=
  let '(out, unused) := format f args in
  match unused with
  | [] => out
  | _ => out ++ "%!(EXTRA " ++ extra unused ++ ")"
  end.

End Fmt.

(** ** Channels, roles and members *)

Module Structs.

Local Open Scope string_scope.

Section Entities.

(** Types of the package that other files declare.  Of [User], only the
    field [ID] is read here. *)
Variables Timestamp User Message : Type.
Variable User_ID : User -> string.

Definition ChannelType : Type := Z.
Definition PermissionOverwriteType : Type := Z.

(** A PermissionOverwrite holds permission overwrite data for a Channel *)
Record PermissionOverwrite : Type := {
  PermissionOverwrite_ID    : string;
  PermissionOverwrite_Type  : PermissionOverwriteType;
  PermissionOverwrite_Deny  : Z;
  PermissionOverwrite_Allow : Z
}.

(** A Channel holds all data related to an individual Discord channel. *)
Record Channel : Type := {
  Channel_ID                   : string;
  Channel_GuildID              : string;
  Channel_Name                 : string;
  Channel_Topic                : string;
  Channel_Type                 : ChannelType;
  Channel_LastMessageID        : string;
  Channel_LastPinTimestamp     : Timestamp;
  Channel_NSFW                 : bool;
  Channel_Icon                 : string;
  Channel_Position             : Z;
  Channel_Bitrate              : Z;
  Channel_Recipients           : list (option User);
  Channel_Messages             : list (option Message);
  Channel_PermissionOverwrites : list (option PermissionOverwrite);
  Channel_UserLimit            : Z;
  Channel_ParentID             : string;
  Channel_RateLimitPerUser     : Z;
  Channel_OwnerID              : string;
  Channel_ApplicationID        : string
}.

(** Mention returns a string which mentions the channel *)
Definition Channel_Mention (c : option Channel) : outcome string :=
  bind (deref c) (fun c =>
  Returns (Fmt.Sprintf "<#%s>" [Channel_ID c])).

(** A Role stores information about Discord guild member roles. *)
Record Role : Type := {
  Role_ID          : string;
  Role_Name        : string;
  Role_Managed     : bool;
  Role_Mentionable : bool;
  Role_Hoist       : bool;
  Role_Color       : Z;
  Role_Position    : Z;
  Role_Permissions : Z
}.

(** Mention returns a string which mentions the role *)
Definition Role_Mention (r : option Role) : outcome string :=
  bind (deref r) (fun r =>
  Returns (Fmt.Sprintf "<@&%s>" [Role_ID r])).

(** A Member stores user information for Guild members. *)
Record Member : Type := {
  Member_GuildID      : string;
  Member_JoinedAt     : Timestamp;
  Member_Nick         : string;
  Member_Deaf         : bool;
  Member_Mute         : bool;
  Member_User         : option User;
  Member_Roles        : list string;
  Member_PremiumSince : Timestamp;
  Member_Pending      : bool;
  Member_Permissions  : Z
}.

(** Mention creates a member mention *)
Definition Member_Mention (m : option Member) : outcome string :=
  bind (deref m) (fun m =>
  bind (deref (Member_User m)) (fun u =>
  Returns ("<@!" ++ User_ID u ++ ">"))).

End Entities.

Arguments Channel_ID {Timestamp User Message} c.
Arguments Channel_Mention {Timestamp User Message} c.
Arguments Member_User {Timestamp User} m.
Arguments Member_Mention {Timestamp User} User_ID m.

End Structs.

(** ** The custom JSON decoders

    Each [UnmarshalJSON] decodes into a shadow structure of the wire's shape
    with [json.Unmarshal], and then converts.  [json.Unmarshal] belongs to
    Go's library: it is a parameter here, a function from the input and the
    structure it is given to the structure it leaves and the error it
    returns ([None] is a nil error).  The receiver is a pointer to a
    structure: a method takes the structure it points to and returns the
    structure left there. *)

Module TimeStamps.

Import Float64.

(** A TimeStamps struct contains start and end times used in the rich
    presence "playing .." Game *)
Record TimeStamps : Type := {
  EndTimestamp   : Z;
  StartTimestamp : Z
}.

(** The shadow structure [temp]. *)
Record temp : Type := {
  temp_End   : float64;
  temp_Start : float64
}.

Definition temp_zero : temp := {| temp_End := zero; temp_Start := zero |}.

Section Decoder.

Variable error : Type.
Variable json_Unmarshal : list byte -> temp -> temp * option error.
Variable unrepresentable : float64 -> Z.

(** UnmarshalJSON unmarshals JSON into TimeStamps struct *)
Definition UnmarshalJSON (t : TimeStamps) (b : list byte)
  : TimeStamps * option error :=
  let temp := temp_zero in
  let '(temp, err) := json_Unmarshal b temp in
  match err with
  | Some e => (t, Some e)
  | None =>
      let t := {| EndTimestamp := to_int64 unrepresentable (temp_End temp);
                  StartTimestamp := StartTimestamp t |} in
      let t := {| EndTimestamp := EndTimestamp t;
                  StartTimestamp := to_int64 unrepresentable (temp_Start temp) |} in
      (t, None)
  end.

End Decoder.

Arguments UnmarshalJSON {error} json_Unmarshal unrepresentable t b.

End TimeStamps.

Module TooManyRequests.

Import Float64 GoTime.

(** A TooManyRequests struct holds information received from Discord
    when receiving a HTTP 429 response. *)
Record TooManyRequests : Type := {
  Bucket     : string;
  Message    : string;
  RetryAfter : Duration
}.

(** The shadow structure [u]. *)
Record u : Type := {
  u_Bucket     : string;
  u_Message    : string;
  u_RetryAfter : float64
}.

Definition u_zero : u :=
  {| u_Bucket := EmptyString; u_Message := EmptyString; u_RetryAfter := zero |}.

Section Decoder.

Variable error : Type.
Variable json_Unmarshal : list byte -> u -> u * option error.
Variable unrepresentable : float64 -> Z.

(** The duration the decoder makes of the wire's [retry_after]:
    [time.Duration(whole)*time.Second +
     time.Duration(frac*1000)*time.Millisecond]
    for [whole, frac := math.Modf(retry_after)]. *)
Definition retry_after_duration (retry_after : float64) : Duration :=
  let '(whole, frac) := Modf retry_after in
  Int64.add
    (Int64.mul (to_int64 unrepresentable whole) Second)
    (Int64.mul (to_int64 unrepresentable (mul frac (of_Z 1000))) Millisecond).

(** UnmarshalJSON helps support translation of a milliseconds-based float
    into a time.Duration on TooManyRequests. *)
Definition UnmarshalJSON (t : TooManyRequests) (b : list byte)
  : TooManyRequests * option error :=
  let '(u, err) := json_Unmarshal b u_zero in
  match err with
  | Some e => (t, Some e)
  | None =>
      let t := {| Bucket := u_Bucket u; Message := Message t;
                  RetryAfter := RetryAfter t |} in
      let t := {| Bucket := Bucket t; Message := u_Message u;
                  RetryAfter := RetryAfter t |} in
      let t := {| Bucket := Bucket t; Message := Message t;
                  RetryAfter := retry_after_duration (u_RetryAfter u) |} in
      (t, None)
  end.

(** The decoded duration of a [retry_after] of [N / D] seconds is
    [N / D] whole seconds and [t] milliseconds, where [t] is the integer
    part of the thousandths of the rest, or the next integer when these are
    not an integer. *)
Definition splits (x : float64) (N : Z) (D : positive) : Prop :=
  exists t : Z,
    retry_after_duration x = N / Zpos D * 1000000000 + t * 1000000 /\
    1000 * (N mod Zpos D) / Zpos D <= t
      <= 1000 * (N mod Zpos D) / Zpos D + 1 /\
    (t = 1000 * (N mod Zpos D) / Zpos D + 1 ->
     (1000 * (N mod Zpos D)) mod Zpos D <> 0).

End Decoder.

Arguments UnmarshalJSON {error} json_Unmarshal unrepresentable t b.

End TooManyRequests.

Module Activity.

Import GoTime.

Section Decoder.

(** [User] is declared in another file of the package. *)
Variable User : Type.

(** Emoji struct holds data related to Emoji's *)
Record Emoji : Type := {
  Emoji_ID            : string;
  Emoji_Name          : string;
  Emoji_Roles         : list string;
  Emoji_User          : option User;
  Emoji_RequireColons : bool;
  Emoji_Managed       : bool;
  Emoji_Animated      : bool;
  Emoji_Available     : bool
}.

(** An Assets struct contains assets and labels used in the rich presence
    "playing .." Game *)
Record Assets : Type := {
  LargeImageID : string;
  SmallImageID : string;
  LargeText    : string;
  SmallText    : string
}.

(** Party defines the Party field in the Activity struct *)
Record Party : Type := {
  Party_ID   : string;
  Party_Size : list Z
}.

(** Secrets defines the Secrets field for the Activity struct *)
Record Secrets : Type := {
  Join     : string;
  Spectate : string;
  Match_   : string
}.

(** ActivityType is the type of Activity *)
Definition ActivityType : Type := Z.

(** Activity defines the Activity sent with GatewayStatusUpdate *)
Record Activity : Type := {
  Name          : string;
  Type_         : ActivityType;
  URL           : string;
  CreatedAt     : Time;
  ApplicationID : string;
  State         : string;
  Details       : string;
  Timestamps    : TimeStamps.TimeStamps;
  Emoji_        : Emoji;
  Party_        : Party;
  Assets_       : Assets;
  Secrets_      : Secrets;
  Instance_     : bool;
  Flags         : Z
}.

(** The shadow structure [temp]: an [Activity] whose [CreatedAt] is an
    [int64]. *)
Record temp : Type := {
  temp_Name          : string;
  temp_Type          : ActivityType;
  temp_URL           : string;
  temp_CreatedAt     : Z;
  temp_ApplicationID : string;
  temp_State         : string;
  temp_Details       : string;
  temp_Timestamps    : TimeStamps.TimeStamps;
  temp_Emoji         : Emoji;
  temp_Party         : Party;
  temp_Assets        : Assets;
  temp_Secrets       : Secrets;
  temp_Instance      : bool;
  temp_Flags         : Z
}.

Definition temp_zero : temp :=
  {| temp_Name := EmptyString;
     temp_Type := 0;
     temp_URL := EmptyString;
     temp_CreatedAt := 0;
     temp_ApplicationID := EmptyString;
     temp_State := EmptyString;
     temp_Details := EmptyString;
     temp_Timestamps :=
       {| TimeStamps.EndTimestamp := 0; TimeStamps.StartTimestamp := 0 |};
     temp_Emoji :=
       {| Emoji_ID := EmptyString; Emoji_Name := EmptyString;
          Emoji_Roles := []; Emoji_User := None;
          Emoji_RequireColons := false; Emoji_Managed := false;
          Emoji_Animated := false; Emoji_Available := false |};
     temp_Party := {| Party_ID := EmptyString; Party_Size := [] |};
     temp_Assets :=
       {| LargeImageID := EmptyString; SmallImageID := EmptyString;
          LargeText := EmptyString; SmallText := EmptyString |};
     temp_Secrets :=
       {| Join := EmptyString; Spectate := EmptyString;
          Match_ := EmptyString |};
     temp_Instance := false;
     temp_Flags := 0 |}.

Variable error : Type.
Variable json_Unmarshal : list byte -> temp -> temp * option error.

(** UnmarshalJSON is a custom unmarshaljson to make CreatedAt a time.Time
    instead of an int *)
Definition UnmarshalJSON (activity : Activity) (b : list byte)
  : Activity * option error :=
  let '(temp, err) := json_Unmarshal b temp_zero in
  match err with
  | Some e => (activity, Some e)
  | None =>
      ({| CreatedAt := Unix 0 (Int64.mul (temp_CreatedAt temp) 1000000);
          ApplicationID := temp_ApplicationID temp;
          Assets_ := temp_Assets temp;
          Details := temp_Details temp;
          Emoji_ := temp_Emoji temp;
          Flags := temp_Flags temp;
          Instance_ := temp_Instance temp;
          Name := temp_Name temp;
          Party_ := temp_Party temp;
          Secrets_ := temp_Secrets temp;
          State := temp_State temp;
          Timestamps := temp_Timestamps temp;
          Type_ := temp_Type temp;
          URL := temp_URL temp |}, None)
  end.

End Decoder.

Arguments Name {User} a.
Arguments Type_ {User} a.
Arguments URL {User} a.
Arguments CreatedAt {User} a.
Arguments ApplicationID {User} a.
Arguments State {User} a.
Arguments Details {User} a.
Arguments Timestamps {User} a.
Arguments Emoji_ {User} a.
Arguments Party_ {User} a.
Arguments Assets_ {User} a.
Arguments Secrets_ {User} a.
Arguments Instance_ {User} a.
Arguments Flags {User} a.
Arguments temp_Name {User} t.
Arguments temp_Type {User} t.
Arguments temp_URL {User} t.
Arguments temp_CreatedAt {User} t.
Arguments temp_ApplicationID {User} t.
Arguments temp_State {User} t.
Arguments temp_Details {User} t.
Arguments temp_Timestamps {User} t.
Arguments temp_Emoji {User} t.
Arguments temp_Party {User} t.
Arguments temp_Assets {User} t.
Arguments temp_Secrets {User} t.
Arguments temp_Instance {User} t.
Arguments temp_Flags {User} t.
Arguments Emoji_ID {User} e.
Arguments Emoji_Name {User} e.
Arguments Emoji_Roles {User} e.
Arguments Emoji_User {User} e.
Arguments Emoji_RequireColons {User} e.
Arguments Emoji_Managed {User} e.
Arguments Emoji_Animated {User} e.
Arguments Emoji_Available {User} e.
Arguments UnmarshalJSON {User error} json_Unmarshal activity b.

End Activity.

(** ** Checking a permission *)

Module PermissionCheck.

(** Modelled from the spec: [hasPermission], which [structs.go] does not
    define.  The specification gives it as "[hasPermission(mask, bit)]
    returns true iff [(mask & bit) == bit]", and the comment on
    [Role.Permissions] describes the same check ("the presence of a certain
    permission can be checked by performing a bitwise AND between this int
    and the permission"). *)
Definition hasPermission (mask bit : Z) : bool := (mask .& bit) =? bit.

(** Every bit of [bit] is a bit of [mask]. *)
Definition every_bit_set (mask bit : Z) : Prop :=
  forall i : Z, Z.testbit bit i = true -> Z.testbit mask i = true.

End PermissionCheck.

(** ** A decoder for [json.Unmarshal]

    An instance of the parameter [json_Unmarshal] of the decoders above,
    which the examples run on: package [encoding/json] on the grammar of
    RFC 8259, for the field types of the three shadow structures.  The
    input is checked whole before anything is decoded; a key names the
    field of that name, or else the first one that differs from it by the
    case of ASCII letters; [null] leaves a field as it is; a value of the
    wrong kind is a type error, after which the decoding goes on, to return
    the first such error at its end; a failing [UnmarshalJSON] method ends
    the decoding with its error.

    What the instance leaves out of [encoding/json]: bytes that are not
    UTF-8 are kept as they are; the two letters outside ASCII that fold to
    [s] and [k] do not match them in a key; an array is decoded into fresh
    elements; nesting has no limit.  The conversions of the [float64]
    values that [int64] cannot represent are those of amd64.  The theorems
    on the decoders are stated for every [json_Unmarshal]; the instance
    runs them on inputs. *)

Module Json.

Import Float64.
Local Open Scope string_scope.
Local Open Scope Z_scope.

(** The errors of package [encoding/json]. *)
Inductive error : Type :=
| SyntaxError
| UnmarshalTypeError.

Definition code (c : ascii) : Z := Z.of_N (N_of_ascii c).
Definition char_of (z : Z) : ascii := ascii_of_N (Z.to_N z).

Definition quote : ascii := char_of 34.
Definition backslash : ascii := char_of 92.

Definition is_space (c : ascii) : bool :=
  let n := code c in (n =? 32) || (n =? 9) || (n =? 10) || (n =? 13).

Fixpoint skip_space (s : string) : string :=
  match s with
  | String c r => if is_space c then skip_space r else s
  | EmptyString => s
  end.

Definition digit (c : ascii) : option Z :=
  let n := code c in
  if (48 <=? n) && (n <=? 57) then Some (n - 48) else None.

Definition hex (c : ascii) : option Z :=
  let n := code c in
  if (48 <=? n) && (n <=? 57) then Some (n - 48)
  else if (97 <=? n) && (n <=? 102) then Some (n - 87)
  else if (65 <=? n) && (n <=? 70) then Some (n - 55)
  else None.

(** The digits at the head of [s]: their value after [acc], how many they
    are, and what follows them. *)
Fixpoint digits (s : string) (acc count : Z) : Z * Z * string :=
  match s with
  | String c r =>
      match digit c with
      | Some d => digits r (10 * acc + d) (count + 1)
      | None => (acc, count, s)
      end
  | EmptyString => (acc, count, s)
  end.

(** A number literal: [(-1)^neg * mantissa * 10^exp10]; [integral] when it
    is written with neither fraction nor exponent. *)
Record number : Type := {
  neg      : bool;
  mantissa : Z;
  exp10    : Z;
  integral : bool
}.

Definition scan_sign (s : string) : bool * string :=
  match s with
  | String c r => if code c =? 45 then (true, r) else (false, s)
  | EmptyString => (false, s)
  end.

Definition scan_int (s : string) : option (Z * string) :=
  match s with
  | String c r =>
      match digit c with
      | Some 0 => Some (0, r)
      | Some d => let '(n, _, r') := digits r d 1 in Some (n, r')
      | None => None
      end
  | EmptyString => None
  end.

Definition scan_frac (n : Z) (s : string) : option (Z * Z * string) :=
  match s with
  | String c r =>
      if code c =? 46 then
        let '(n', count, r') := digits r n 0 in
        if count =? 0 then None else Some (n', count, r')
      else Some (n, 0, s)
  | EmptyString => Some (n, 0, s)
  end.

Definition scan_exp (s : string) : option (option Z * string) :=
  match s with
  | String c r =>
      if (code c =? 101) || (code c =? 69) then
        let '(minus, r1) :=
          match r with
          | String c' r' =>
              if code c' =? 45 then (true, r')
              else if code c' =? 43 then (false, r')
              else (false, r)
          | EmptyString => (false, r)
          end in
        let '(e, count, r2) := digits r1 0 0 in
        if count =? 0 then None
        else Some (Some (if minus then - e else e), r2)
      else Some (None, s)
  | EmptyString => Some (None, s)
  end.

(** The number literal at the head of [s], by the grammar of RFC 8259. *)
Definition scan_number (s : string) : option (number * string) :=
  let '(sg, s0) := scan_sign s in
  match scan_int s0 with
  | None => None
  | Some (n, s1) =>
      match scan_frac n s1 with
      | None => None
      | Some (n', fr, s2) =>
          match scan_exp s2 with
          | None => None
          | Some (ex, s3) =>
              Some ({| neg := sg; mantissa := n';
                       exp10 := match ex with Some e => e | None => 0 end - fr;
                       integral := (fr =? 0) && match ex with Some _ => false | None => true end |},
                    s3)
          end
      end
  end.

(** The UTF-8 encoding of a code point. *)
Definition utf8 (cp : Z) : string :=
  if cp <? 128 then String (char_of cp) EmptyString
  else if cp <? 2048 then
    String (char_of (192 + cp / 64))
      (String (char_of (128 + cp mod 64)) EmptyString)
  else if cp <? 65536 then
    String (char_of (224 + cp / 4096))
      (String (char_of (128 + cp / 64 mod 64))
         (String (char_of (128 + cp mod 64)) EmptyString))
  else
    String (char_of (240 + cp / 262144))
      (String (char_of (128 + cp / 4096 mod 64))
         (String (char_of (128 + cp / 64 mod 64))
            (String (char_of (128 + cp mod 64)) EmptyString))).

Definition hex4 (a b c d : ascii) : option Z :=
  match hex a, hex b, hex c, hex d with
  | Some x, Some y, Some z, Some w => Some (4096 * x + 256 * y + 16 * z + w)
  | _, _, _, _ => None
  end.

(** The character an escape letter stands for. *)
Definition escape (c : ascii) : option ascii :=
  let n := code c in
  if n =? 34 then Some quote
  else if n =? 92 then Some backslash
  else if n =? 47 then Some (char_of 47)
  else if n =? 98 then Some (char_of 8)
  else if n =? 102 then Some (char_of 12)
  else if n =? 110 then Some (char_of 10)
  else if n =? 114 then Some (char_of 13)
  else if n =? 116 then Some (char_of 9)
  else None.

(** The low half of a surrogate pair at the head of [s], written [\uXXXX]. *)
Definition low_surrogate (s : string) : option (Z * string) :=
  match s with
  | String b (String u (String h1 (String h2 (String h3 (String h4 r))))) =>
      if (code b =? 92) && (code u =? 117) then
        match hex4 h1 h2 h3 h4 with
        | Some lo => if (56320 <=? lo) && (lo <? 57344) then Some (lo, r) else None
        | None => None
        end
      else None
  | _ => None
  end.

(** The string literal whose opening quote has been read: its contents,
    unquoted, and what follows its closing quote. *)
Fixpoint scan_string (fuel : nat) (s : string) : option (string * string) :=
  match fuel with
  | O => None
  | S fuel =>
      match s with
      | EmptyString => None
      | String c r =>
          if code c =? 34 then Some (EmptyString, r)
          else if code c =? 92 then
            match r with
            | EmptyString => None
            | String e r1 =>
                if code e =? 117 then
                  match r1 with
                  | String h1 (String h2 (String h3 (String h4 r2))) =>
                      match hex4 h1 h2 h3 h4 with
                      | None => None
                      | Some cp =>
                          let '(cp', r3) :=
                            if (55296 <=? cp) && (cp <? 56320) then
                              match low_surrogate r2 with
                              | Some (lo, r') =>
                                  (65536 + (cp - 55296) * 1024 + (lo - 56320), r')
                              | None => (65533, r2)
                              end
                            else if (56320 <=? cp) && (cp <? 57344) then (65533, r2)
                            else (cp, r2) in
                          match scan_string fuel r3 with
                          | Some (str, rest) => Some ((utf8 cp' ++ str)%string, rest)
                          | None => None
                          end
                      end
                  | _ => None
                  end
                else
                  match escape e with
                  | None => None
                  | Some x =>
                      match scan_string fuel r1 with
                      | Some (str, rest) => Some (String x str, rest)
                      | None => None
                      end
                  end
            end
          else if code c <? 32 then None
          else
            match scan_string fuel r with
            | Some (str, rest) => Some (String c str, rest)
            | None => None
            end
      end
  end.

(** [s] begins with the word [w]: what follows it. *)
Fixpoint scan_word (w s : string) : option string :=
  match w, s with
  | EmptyString, _ => Some s
  | String a w', String b s' => if Ascii.eqb a b then scan_word w' s' else None
  | String _ _, EmptyString => None
  end.

(** The JSON value at the head of [s]: what follows it, or [None] when
    [s] does not begin with a value. *)
Fixpoint scan_value (fuel : nat) (s : string) : option string :=
  match fuel with
  | O => None
  | S fuel =>
      match s with
      | EmptyString => None
      | String c r =>
          let n := code c in
          if n =? 123 then
            match skip_space r with
            | String c' r' =>
                if code c' =? 125 then Some r' else scan_members fuel (String c' r')
            | EmptyString => None
            end
          else if n =? 91 then
            match skip_space r with
            | String c' r' =>
                if code c' =? 93 then Some r' else scan_elements fuel (String c' r')
            | EmptyString => None
            end
          else if n =? 34 then option_map snd (scan_string (String.length r + 1) r)
          else if n =? 116 then scan_word "rue"%string r
          else if n =? 102 then scan_word "alse"%string r
          else if n =? 110 then scan_word "ull"%string r
          else option_map snd (scan_number s)
      end
  end
with scan_members (fuel : nat) (s : string) : option string :=
  match fuel with
  | O => None
  | S fuel =>
      match s with
      | String q r =>
          if code q =? 34 then
            match scan_string (String.length r + 1) r with
            | Some (_, r1) =>
                match skip_space r1 with
                | String colon r2 =>
                    if code colon =? 58 then
                      match scan_value fuel (skip_space r2) with
                      | Some r3 =>
                          match skip_space r3 with
                          | String sep r4 =>
                              if code sep =? 44 then scan_members fuel (skip_space r4)
                              else if code sep =? 125 then Some r4
                              else None
                          | EmptyString => None
                          end
                      | None => None
                      end
                    else None
                | EmptyString => None
                end
            | None => None
            end
          else None
      | EmptyString => None
      end
  end
with scan_elements (fuel : nat) (s : string) : option string :=
  match fuel with
  | O => None
  | S fuel =>
      match scan_value fuel s with
      | Some r =>
          match skip_space r with
          | String sep r' =>
              if code sep =? 44 then scan_elements fuel (skip_space r')
              else if code sep =? 93 then Some r'
              else None
          | EmptyString => None
          end
      | None => None
      end
  end.


Definition fuel_for (s : string) : nat := S (String.length s).

(** [checkValid]: the input is one JSON value between spaces. *)
Definition checkValid (s : string) : bool :=
  match scan_value (fuel_for s) (skip_space s) with
  | Some r => match skip_space r with EmptyString => true | _ => false end
  | None => false
  end.

Fixpoint take (n : nat) (s : string) : string :=
  match n, s with
  | S n', String c r => String c (take n' r)
  | _, _ => EmptyString
  end.

(** The text of the value at the head of [s], and what follows it. *)
Definition raw_value (s : string) : option (string * string) :=
  match scan_value (fuel_for s) s with
  | Some r => Some (take (String.length s - String.length r) s, r)
  | None => None
  end.

(** The members of an object, read after its brace: each key, unquoted,
    with the text of its value. *)
Fixpoint members (fuel : nat) (s : string) : list (string * string) :=
  match fuel with
  | O => []
  | S fuel =>
      match skip_space s with
      | String q r =>
          if code q =? 34 then
            match scan_string (fuel_for r) r with
            | Some (key, r1) =>
                match skip_space r1 with
                | String _ r2 =>
                    match raw_value (skip_space r2) with
                    | Some (raw, r3) =>
                        (key, raw) ::
                        match skip_space r3 with
                        | String sep r4 =>
                            if code sep =? 44 then members fuel r4 else []
                        | EmptyString => []
                        end
                    | None => []
                    end
                | EmptyString => []
                end
            | None => []
            end
          else []
      | EmptyString => []
      end
  end.

(** The elements of an array, read after its bracket. *)
Fixpoint elements (fuel : nat) (s : string) : list string :=
  match fuel with
  | O => []
  | S fuel =>
      match raw_value (skip_space s) with
      | Some (raw, r) =>
          raw ::
          match skip_space r with
          | String sep r' => if code sep =? 44 then elements fuel r' else []
          | EmptyString => []
          end
      | None => []
      end
  end.

(** What kind of value a text is. *)
Inductive kind : Type :=
| KNull
| KBool (b : bool)
| KNumber (n : number)
| KString (s : string)
| KArray (items : list string)
| KObject (fields : list (string * string))
| KInvalid.

Definition kind_of (raw : string) : kind :=
  match raw with
  | EmptyString => KInvalid
  | String c r =>
      let n := code c in
      if n =? 123 then KObject (members (fuel_for r) r)
      else if n =? 91 then KArray (elements (fuel_for r) r)
      else if n =? 34 then
        match scan_string (fuel_for r) r with
        | Some (str, _) => KString str
        | None => KInvalid
        end
      else if n =? 116 then KBool true
      else if n =? 102 then KBool false
      else if n =? 110 then KNull
      else
        match scan_number raw with
        | Some (num, _) => KNumber num
        | None => KInvalid
        end
  end.

(** What decoding one value into a variable comes to: the variable's new
    contents; the first type error met, which [Unmarshal] returns once it
    has decoded the rest; and whether an [UnmarshalJSON] method failed,
    which stops the decoding at once with that method's error. *)
Record res (T : Type) : Type := {
  val     : T;
  err     : option error;
  aborted : bool
}.

Arguments val {T} r.
Arguments err {T} r.
Arguments aborted {T} r.

Definition ok {T : Type} (v : T) : res T :=
  {| val := v; err := None; aborted := false |}.

Definition type_error {T : Type} (v : T) : res T :=
  {| val := v; err := Some UnmarshalTypeError; aborted := false |}.

Definition first_error (a b : option error) : option error :=
  match a with Some _ => a | None => b end.

Definition decoder (T : Type) : Type := string -> T -> res T.

Definition dec_string : decoder string := fun raw v =>
  match kind_of raw with
  | KNull => ok v
  | KString s => ok s
  | _ => type_error v
  end.

Definition dec_bool : decoder bool := fun raw v =>
  match kind_of raw with
  | KNull => ok v
  | KBool b => ok b
  | _ => type_error v
  end.

(** A number into a [float64]: [strconv.ParseFloat], whose range error is
    a type error of the decoder. *)
Definition dec_float64 : decoder float64 := fun raw v =>
  match kind_of raw with
  | KNull => ok v
  | KNumber n =>
      let f := of_decimal (neg n) (mantissa n) (exp10 n) in
      if is_finite f then ok f else type_error v
  | _ => type_error v
  end.

(** A number into an [int64] (or an [int], of the same size):
    [strconv.ParseInt], which takes digits only. *)
Definition dec_int64 : decoder Z := fun raw v =>
  match kind_of raw with
  | KNull => ok v
  | KNumber n =>
      let z := if neg n then - mantissa n else mantissa n in
      if integral n && Int64.in_rangeb z then ok z else type_error v
  | _ => type_error v
  end.

(** The elements of an array, each decoded into a zero value. *)
Fixpoint dec_items {T : Type} (zero : T) (d : decoder T) (items : list string)
  : res (list T) :=
  match items with
  | [] => ok []
  | raw :: rest =>
      let r := d raw zero in
      if aborted r then {| val := []; err := err r; aborted := true |}
      else
        let rs := dec_items zero d rest in
        {| val := val r :: val rs;
           err := if aborted rs then err rs else first_error (err r) (err rs);
           aborted := aborted rs |}
  end.

Definition dec_slice {T : Type} (zero : T) (d : decoder T) : decoder (list T) :=
  fun raw v =>
    match kind_of raw with
    | KNull => ok []
    | KArray items => dec_items zero d items
    | _ => type_error v
    end.

Definition dec_pointer {T : Type} (zero : T) (d : decoder T)
  : decoder (option T) :=
  fun raw v =>
    match kind_of raw with
    | KNull => ok None
    | _ =>
        let r := d raw (match v with Some x => x | None => zero end) in
        {| val := Some (val r); err := err r; aborted := aborted r |}
    end.

(** A field of a structure: its JSON name, and the decoding of a value
    into it. *)
Definition field (T : Type) : Type := string * (string -> T -> res T).

Definition at_field {T F : Type} (name : string) (get : T -> F)
  (set : F -> T -> T) (d : decoder F) : field T :=
  (name, fun raw v =>
           let r := d raw (get v) in
           {| val := set (val r) v; err := err r; aborted := aborted r |}).

Definition lower (c : ascii) : ascii :=
  let n := code c in
  if (65 <=? n) && (n <=? 90) then char_of (n + 32) else c.

Fixpoint fold_eqb (a b : string) : bool :=
  match a, b with
  | EmptyString, EmptyString => true
  | String x a', String y b' => Ascii.eqb (lower x) (lower y) && fold_eqb a' b'
  | _, _ => false
  end.

(** The field a key names: the one of that name, or else the first whose
    name differs from the key by case only. *)
Definition lookup {T : Type} (key : string) (fields : list (field T))
  : option (string -> T -> res T) :=
  match find (fun f => String.eqb key (fst f)) fields with
  | Some f => Some (snd f)
  | None => option_map snd (find (fun f => fold_eqb key (fst f)) fields)
  end.

Fixpoint dec_members {T : Type} (fields : list (field T))
  (ms : list (string * string)) (v : T) (saved : option error) : res T :=
  match ms with
  | [] => {| val := v; err := saved; aborted := false |}
  | (key, raw) :: rest =>
      match lookup key fields with
      | None => dec_members fields rest v saved
      | Some d =>
          let r := d raw v in
          if aborted r then r
          else dec_members fields rest (val r) (first_error saved (err r))
      end
  end.

Definition dec_struct {T : Type} (fields : list (field T)) : decoder T :=
  fun raw v =>
    match kind_of raw with
    | KNull => ok v
    | KObject ms => dec_members fields ms v None
    | _ => type_error v
    end.

(** A variable whose type has an [UnmarshalJSON] method: the method is
    given the text of the value. *)
Definition dec_unmarshaler {T : Type}
  (UnmarshalJSON : T -> list byte -> T * option error) : decoder T :=
  fun raw v =>
    let '(v', e) := UnmarshalJSON v (list_byte_of_string raw) in
    match e with
    | None => ok v'
    | Some _ => {| val := v'; err := e; aborted := true |}
    end.

(** [json.Unmarshal] into a variable decoded by [d]. *)
Definition Unmarshal {T : Type} (d : decoder T) (b : list byte) (v : T)
  : T * option error :=
  let s := string_of_list_byte b in
  if checkValid s then
    match raw_value (skip_space s) with
    | Some (raw, _) => let r := d raw v in (val r, err r)
    | None => (v, Some SyntaxError)
    end
  else (v, Some SyntaxError).

(** The shadow structure of [TimeStamps.UnmarshalJSON]. *)
Definition TimeStamps_temp : decoder TimeStamps.temp :=
  dec_struct
    [ at_field "end" TimeStamps.temp_End
        (fun x t => {| TimeStamps.temp_End := x;
                       TimeStamps.temp_Start := TimeStamps.temp_Start t |})
        dec_float64;
      at_field "start" TimeStamps.temp_Start
        (fun x t => {| TimeStamps.temp_End := TimeStamps.temp_End t;
                       TimeStamps.temp_Start := x |})
        dec_float64 ].

(** The shadow structure of [TooManyRequests.UnmarshalJSON]. *)
Definition TooManyRequests_u : decoder TooManyRequests.u :=
  dec_struct
    [ at_field "bucket" TooManyRequests.u_Bucket
        (fun x t => {| TooManyRequests.u_Bucket := x;
                       TooManyRequests.u_Message := TooManyRequests.u_Message t;
                       TooManyRequests.u_RetryAfter := TooManyRequests.u_RetryAfter t |})
        dec_string;
      at_field "message" TooManyRequests.u_Message
        (fun x t => {| TooManyRequests.u_Bucket := TooManyRequests.u_Bucket t;
                       TooManyRequests.u_Message := x;
                       TooManyRequests.u_RetryAfter := TooManyRequests.u_RetryAfter t |})
        dec_string;
      at_field "retry_after" TooManyRequests.u_RetryAfter
        (fun x t => {| TooManyRequests.u_Bucket := TooManyRequests.u_Bucket t;
                       TooManyRequests.u_Message := TooManyRequests.u_Message t;
                       TooManyRequests.u_RetryAfter := x |})
        dec_float64 ].

Section ActivityDecoder.

(** [User] is declared in another file: its type, zero value and decoding
    are parameters. *)
Variable User : Type.
Variable User_zero : User.
Variable dec_User : decoder User.

Definition Emoji : decoder (Activity.Emoji User) :=
  dec_struct
    [ at_field "id" Activity.Emoji_ID
        (fun x t => Activity.Build_Emoji User x (Activity.Emoji_Name t)
           (Activity.Emoji_Roles t) (Activity.Emoji_User t)
           (Activity.Emoji_RequireColons t) (Activity.Emoji_Managed t)
           (Activity.Emoji_Animated t) (Activity.Emoji_Available t))
        dec_string;
      at_field "name" Activity.Emoji_Name
        (fun x t => Activity.Build_Emoji User (Activity.Emoji_ID t) x
           (Activity.Emoji_Roles t) (Activity.Emoji_User t)
           (Activity.Emoji_RequireColons t) (Activity.Emoji_Managed t)
           (Activity.Emoji_Animated t) (Activity.Emoji_Available t))
        dec_string;
      at_field "roles" Activity.Emoji_Roles
        (fun x t => Activity.Build_Emoji User (Activity.Emoji_ID t)
           (Activity.Emoji_Name t) x (Activity.Emoji_User t)
           (Activity.Emoji_RequireColons t) (Activity.Emoji_Managed t)
           (Activity.Emoji_Animated t) (Activity.Emoji_Available t))
        (dec_slice EmptyString dec_string);
      at_field "user" Activity.Emoji_User
        (fun x t => Activity.Build_Emoji User (Activity.Emoji_ID t)
           (Activity.Emoji_Name t) (Activity.Emoji_Roles t) x
           (Activity.Emoji_RequireColons t) (Activity.Emoji_Managed t)
           (Activity.Emoji_Animated t) (Activity.Emoji_Available t))
        (dec_pointer User_zero dec_User);
      at_field "require_colons" Activity.Emoji_RequireColons
        (fun x t => Activity.Build_Emoji User (Activity.Emoji_ID t)
           (Activity.Emoji_Name t) (Activity.Emoji_Roles t)
           (Activity.Emoji_User t) x (Activity.Emoji_Managed t)
           (Activity.Emoji_Animated t) (Activity.Emoji_Available t))
        dec_bool;
      at_field "managed" Activity.Emoji_Managed
        (fun x t => Activity.Build_Emoji User (Activity.Emoji_ID t)
           (Activity.Emoji_Name t) (Activity.Emoji_Roles t)
           (Activity.Emoji_User t) (Activity.Emoji_RequireColons t) x
           (Activity.Emoji_Animated t) (Activity.Emoji_Available t))
        dec_bool;
      at_field "animated" Activity.Emoji_Animated
        (fun x t => Activity.Build_Emoji User (Activity.Emoji_ID t)
           (Activity.Emoji_Name t) (Activity.Emoji_Roles t)
           (Activity.Emoji_User t) (Activity.Emoji_RequireColons t)
           (Activity.Emoji_Managed t) x (Activity.Emoji_Available t))
        dec_bool;
      at_field "available" Activity.Emoji_Available
        (fun x t => Activity.Build_Emoji User (Activity.Emoji_ID t)
           (Activity.Emoji_Name t) (Activity.Emoji_Roles t)
           (Activity.Emoji_User t) (Activity.Emoji_RequireColons t)
           (Activity.Emoji_Managed t) (Activity.Emoji_Animated t) x)
        dec_bool ].

Definition Party : decoder Activity.Party :=
  dec_struct
    [ at_field "id" Activity.Party_ID
        (fun x t => Activity.Build_Party x (Activity.Party_Size t))
        dec_string;
      at_field "size" Activity.Party_Size
        (fun x t => Activity.Build_Party (Activity.Party_ID t) x)
        (dec_slice 0 dec_int64) ].

Definition Assets : decoder Activity.Assets :=
  dec_struct
    [ at_field "large_image" Activity.LargeImageID
        (fun x t => Activity.Build_Assets x (Activity.SmallImageID t)
           (Activity.LargeText t) (Activity.SmallText t))
        dec_string;
      at_field "small_image" Activity.SmallImageID
        (fun x t => Activity.Build_Assets (Activity.LargeImageID t) x
           (Activity.LargeText t) (Activity.SmallText t))
        dec_string;
      at_field "large_text" Activity.LargeText
        (fun x t => Activity.Build_Assets (Activity.LargeImageID t)
           (Activity.SmallImageID t) x (Activity.SmallText t))
        dec_string;
      at_field "small_text" Activity.SmallText
        (fun x t => Activity.Build_Assets (Activity.LargeImageID t)
           (Activity.SmallImageID t) (Activity.LargeText t) x)
        dec_string ].

Definition Secrets : decoder Activity.Secrets :=
  dec_struct
    [ at_field "join" Activity.Join
        (fun x t => Activity.Build_Secrets x (Activity.Spectate t)
           (Activity.Match_ t))
        dec_string;
      at_field "spectate" Activity.Spectate
        (fun x t => Activity.Build_Secrets (Activity.Join t) x
           (Activity.Match_ t))
        dec_string;
      at_field "match" Activity.Match_
        (fun x t => Activity.Build_Secrets (Activity.Join t)
           (Activity.Spectate t) x)
        dec_string ].

(** A [TimeStamps] field is decoded by its method. *)
Definition TimeStamps_field : decoder TimeStamps.TimeStamps :=
  dec_unmarshaler
    (TimeStamps.UnmarshalJSON (Unmarshal TimeStamps_temp)
       amd64_unrepresentable).

(** The shadow structure of [Activity.UnmarshalJSON]. *)
Definition Activity_temp : decoder (Activity.temp User) :=
  dec_struct
    [ at_field "name" Activity.temp_Name
        (fun x t => Activity.Build_temp User x (Activity.temp_Type t)
           (Activity.temp_URL t) (Activity.temp_CreatedAt t)
           (Activity.temp_ApplicationID t) (Activity.temp_State t)
           (Activity.temp_Details t) (Activity.temp_Timestamps t)
           (Activity.temp_Emoji t) (Activity.temp_Party t)
           (Activity.temp_Assets t) (Activity.temp_Secrets t)
           (Activity.temp_Instance t) (Activity.temp_Flags t))
        dec_string;
      at_field "type" Activity.temp_Type
        (fun x t => Activity.Build_temp User (Activity.temp_Name t) x
           (Activity.temp_URL t) (Activity.temp_CreatedAt t)
           (Activity.temp_ApplicationID t) (Activity.temp_State t)
           (Activity.temp_Details t) (Activity.temp_Timestamps t)
           (Activity.temp_Emoji t) (Activity.temp_Party t)
           (Activity.temp_Assets t) (Activity.temp_Secrets t)
           (Activity.temp_Instance t) (Activity.temp_Flags t))
        dec_int64;
      at_field "url" Activity.temp_URL
        (fun x t => Activity.Build_temp User (Activity.temp_Name t)
           (Activity.temp_Type t) x (Activity.temp_CreatedAt t)
           (Activity.temp_ApplicationID t) (Activity.temp_State t)
           (Activity.temp_Details t) (Activity.temp_Timestamps t)
           (Activity.temp_Emoji t) (Activity.temp_Party t)
           (Activity.temp_Assets t) (Activity.temp_Secrets t)
           (Activity.temp_Instance t) (Activity.temp_Flags t))
        dec_string;
      at_field "created_at" Activity.temp_CreatedAt
        (fun x t => Activity.Build_temp User (Activity.temp_Name t)
           (Activity.temp_Type t) (Activity.temp_URL t) x
           (Activity.temp_ApplicationID t) (Activity.temp_State t)
           (Activity.temp_Details t) (Activity.temp_Timestamps t)
           (Activity.temp_Emoji t) (Activity.temp_Party t)
           (Activity.temp_Assets t) (Activity.temp_Secrets t)
           (Activity.temp_Instance t) (Activity.temp_Flags t))
        dec_int64;
      at_field "application_id" Activity.temp_ApplicationID
        (fun x t => Activity.Build_temp User (Activity.temp_Name t)
           (Activity.temp_Type t) (Activity.temp_URL t)
           (Activity.temp_CreatedAt t) x (Activity.temp_State t)
           (Activity.temp_Details t) (Activity.temp_Timestamps t)
           (Activity.temp_Emoji t) (Activity.temp_Party t)
           (Activity.temp_Assets t) (Activity.temp_Secrets t)
           (Activity.temp_Instance t) (Activity.temp_Flags t))
        dec_string;
      at_field "state" Activity.temp_State
        (fun x t => Activity.Build_temp User (Activity.temp_Name t)
           (Activity.temp_Type t) (Activity.temp_URL t)
           (Activity.temp_CreatedAt t) (Activity.temp_ApplicationID t) x
           (Activity.temp_Details t) (Activity.temp_Timestamps t)
           (Activity.temp_Emoji t) (Activity.temp_Party t)
           (Activity.temp_Assets t) (Activity.temp_Secrets t)
           (Activity.temp_Instance t) (Activity.temp_Flags t))
        dec_string;
      at_field "details" Activity.temp_Details
        (fun x t => Activity.Build_temp User (Activity.temp_Name t)
           (Activity.temp_Type t) (Activity.temp_URL t)
           (Activity.temp_CreatedAt t) (Activity.temp_ApplicationID t)
           (Activity.temp_State t) x (Activity.temp_Timestamps t)
           (Activity.temp_Emoji t) (Activity.temp_Party t)
           (Activity.temp_Assets t) (Activity.temp_Secrets t)
           (Activity.temp_Instance t) (Activity.temp_Flags t))
        dec_string;
      at_field "timestamps" Activity.temp_Timestamps
        (fun x t => Activity.Build_temp User (Activity.temp_Name t)
           (Activity.temp_Type t) (Activity.temp_URL t)
           (Activity.temp_CreatedAt t) (Activity.temp_ApplicationID t)
           (Activity.temp_State t) (Activity.temp_Details t) x
           (Activity.temp_Emoji t) (Activity.temp_Party t)
           (Activity.temp_Assets t) (Activity.temp_Secrets t)
           (Activity.temp_Instance t) (Activity.temp_Flags t))
        TimeStamps_field;
      at_field "emoji" Activity.temp_Emoji
        (fun x t => Activity.Build_temp User (Activity.temp_Name t)
           (Activity.temp_Type t) (Activity.temp_URL t)
           (Activity.temp_CreatedAt t) (Activity.temp_ApplicationID t)
           (Activity.temp_State t) (Activity.temp_Details t)
           (Activity.temp_Timestamps t) x (Activity.temp_Party t)
           (Activity.temp_Assets t) (Activity.temp_Secrets t)
           (Activity.temp_Instance t) (Activity.temp_Flags t))
        Emoji;
      at_field "party" Activity.temp_Party
        (fun x t => Activity.Build_temp User (Activity.temp_Name t)
           (Activity.temp_Type t) (Activity.temp_URL t)
           (Activity.temp_CreatedAt t) (Activity.temp_ApplicationID t)
           (Activity.temp_State t) (Activity.temp_Details t)
           (Activity.temp_Timestamps t) (Activity.temp_Emoji t) x
           (Activity.temp_Assets t) (Activity.temp_Secrets t)
           (Activity.temp_Instance t) (Activity.temp_Flags t))
        Party;
      at_field "assets" Activity.temp_Assets
        (fun x t => Activity.Build_temp User (Activity.temp_Name t)
           (Activity.temp_Type t) (Activity.temp_URL t)
           (Activity.temp_CreatedAt t) (Activity.temp_ApplicationID t)
           (Activity.temp_State t) (Activity.temp_Details t)
           (Activity.temp_Timestamps t) (Activity.temp_Emoji t)
           (Activity.temp_Party t) x (Activity.temp_Secrets t)
           (Activity.temp_Instance t) (Activity.temp_Flags t))
        Assets;
      at_field "secrets" Activity.temp_Secrets
        (fun x t => Activity.Build_temp User (Activity.temp_Name t)
           (Activity.temp_Type t) (Activity.temp_URL t)
           (Activity.temp_CreatedAt t) (Activity.temp_ApplicationID t)
           (Activity.temp_State t) (Activity.temp_Details t)
           (Activity.temp_Timestamps t) (Activity.temp_Emoji t)
           (Activity.temp_Party t) (Activity.temp_Assets t) x
           (Activity.temp_Instance t) (Activity.temp_Flags t))
        Secrets;
      at_field "instance" Activity.temp_Instance
        (fun x t => Activity.Build_temp User (Activity.temp_Name t)
           (Activity.temp_Type t) (Activity.temp_URL t)
           (Activity.temp_CreatedAt t) (Activity.temp_ApplicationID t)
           (Activity.temp_State t) (Activity.temp_Details t)
           (Activity.temp_Timestamps t) (Activity.temp_Emoji t)
           (Activity.temp_Party t) (Activity.temp_Assets t)
           (Activity.temp_Secrets t) x (Activity.temp_Flags t))
        dec_bool;
      at_field "flags" Activity.temp_Flags
        (fun x t => Activity.Build_temp User (Activity.temp_Name t)
           (Activity.temp_Type t) (Activity.temp_URL t)
           (Activity.temp_CreatedAt t) (Activity.temp_ApplicationID t)
           (Activity.temp_State t) (Activity.temp_Details t)
           (Activity.temp_Timestamps t) (Activity.temp_Emoji t)
           (Activity.temp_Party t) (Activity.temp_Assets t)
           (Activity.temp_Secrets t) (Activity.temp_Instance t) x)
        dec_int64 ].

End ActivityDecoder.

(** A stand-in for [User]: its [ID]. *)
Record UserID : Type := { ID : string }.

Definition dec_UserID : decoder UserID :=
  dec_struct [ at_field "id" ID (fun x _ => {| ID := x |}) dec_string ].

(** The text [s] between quotes, and the bytes of a text. *)
Definition quoted (s : string) : string :=
  String quote (s ++ String quote EmptyString).

Definition bytes (s : string) : list byte := list_byte_of_string s.

End Json.

(** ** The inputs of the examples *)

Module Examples.

Import Json.
Local Open Scope string_scope.

Definition decode_temp := Unmarshal TimeStamps_temp.
Definition decode_u := Unmarshal TooManyRequests_u.
Definition decode_activity :=
  Unmarshal (Activity_temp UserID {| ID := "" |} dec_UserID).

(** [{"start":1609459200500.7,"end":1609459200000.0}] *)
Definition timestamps_payload : list byte :=
  bytes ("{" ++ quoted "start" ++ ":1609459200500.7,"
             ++ quoted "end" ++ ":1609459200000.0}").

(** [{"start":1609459200000,"end":-1}] *)
Definition whole_timestamps_payload : list byte :=
  bytes ("{" ++ quoted "start" ++ ":1609459200000,"
             ++ quoted "end" ++ ":-1}").

(** [{"message": "You are being rate limited.", "retry_after": 1.5,
      "global": false}] *)
Definition rate_limit_payload : list byte :=
  bytes ("{" ++ quoted "message" ++ ": "
             ++ quoted "You are being rate limited." ++ ", "
             ++ quoted "retry_after" ++ ": 1.5, "
             ++ quoted "global" ++ ": false}").

(** [{"retry_after": 0.0}] *)
Definition zero_retry_payload : list byte :=
  bytes ("{" ++ quoted "retry_after" ++ ": 0.0}").

(** [{"message": "slow down", "retry_after": 30}] *)
Definition whole_retry_payload : list byte :=
  bytes ("{" ++ quoted "message" ++ ": " ++ quoted "slow down" ++ ", "
             ++ quoted "retry_after" ++ ": 30}").

(** [{"retry_after": 2.9999}] *)
Definition fraction_payload : list byte :=
  bytes ("{" ++ quoted "retry_after" ++ ": 2.9999}").

(** [{"retry_after": 10000000000}] *)
Definition long_retry_payload : list byte :=
  bytes ("{" ++ quoted "retry_after" ++ ": 10000000000}").

(** [{"retry_after": 1.5], cut short, and [{"retry_after": "soon"}],
    a string where a number is expected. *)
Definition cut_short_payload : list byte :=
  bytes ("{" ++ quoted "retry_after" ++ ": 1.5").

Definition wrong_kind_payload : list byte :=
  bytes ("{" ++ quoted "retry_after" ++ ": " ++ quoted "soon" ++ "}").

Definition busy_limit : TooManyRequests.TooManyRequests :=
  {| TooManyRequests.Bucket := "b"; TooManyRequests.Message := "busy";
     TooManyRequests.RetryAfter := 7 |}.

(** [{"name":"Rocq","type":0,"created_at":1609459200000}] *)
Definition activity_payload : list byte :=
  bytes ("{" ++ quoted "name" ++ ":" ++ quoted "Rocq" ++ ","
             ++ quoted "type" ++ ":0,"
             ++ quoted "created_at" ++ ":1609459200000}").

(** [{"created_at":9223372036855}] *)
Definition late_activity_payload : list byte :=
  bytes ("{" ++ quoted "created_at" ++ ":9223372036855}").

Definition no_timestamps : TimeStamps.TimeStamps :=
  {| TimeStamps.EndTimestamp := 0; TimeStamps.StartTimestamp := 0 |}.

Definition no_limit : TooManyRequests.TooManyRequests :=
  {| TooManyRequests.Bucket := ""; TooManyRequests.Message := "";
     TooManyRequests.RetryAfter := 0 |}.

Definition no_activity : Activity.Activity UserID :=
  let z := Activity.temp_zero UserID in
  {| Activity.Name := "";
     Activity.Type_ := 0;
     Activity.URL := "";
     Activity.CreatedAt := GoTime.Unix 0 0;
     Activity.ApplicationID := "";
     Activity.State := "";
     Activity.Details := "";
     Activity.Timestamps := no_timestamps;
     Activity.Emoji_ := Activity.temp_Emoji z;
     Activity.Party_ := Activity.temp_Party z;
     Activity.Assets_ := Activity.temp_Assets z;
     Activity.Secrets_ := Activity.temp_Secrets z;
     Activity.Instance_ := false;
     Activity.Flags := 0 |}.

(** The entities of the specification's mention examples; the types that
    other files declare are [unit], and a user is its ID. *)
Definition channel_123 : Structs.Channel unit string unit :=
  {| Structs.Channel_ID := "123";
     Structs.Channel_GuildID := "";
     Structs.Channel_Name := "general";
     Structs.Channel_Topic := "";
     Structs.Channel_Type := 0;
     Structs.Channel_LastMessageID := "";
     Structs.Channel_LastPinTimestamp := tt;
     Structs.Channel_NSFW := false;
     Structs.Channel_Icon := "";
     Structs.Channel_Position := 0;
     Structs.Channel_Bitrate := 0;
     Structs.Channel_Recipients := [];
     Structs.Channel_Messages := [];
     Structs.Channel_PermissionOverwrites := [];
     Structs.Channel_UserLimit := 0;
     Structs.Channel_ParentID := "";
     Structs.Channel_RateLimitPerUser := 0;
     Structs.Channel_OwnerID := "";
     Structs.Channel_ApplicationID := "" |}.

Definition role_456 : Structs.Role :=
  {| Structs.Role_ID := "456";
     Structs.Role_Name := "moderator";
     Structs.Role_Managed := false;
     Structs.Role_Mentionable := true;
     Structs.Role_Hoist := false;
     Structs.Role_Color := 0;
     Structs.Role_Position := 1;
     Structs.Role_Permissions := Permission.PermissionAllText |}.

Definition member_of (user : option string) : Structs.Member unit string :=
  {| Structs.Member_GuildID := "";
     Structs.Member_JoinedAt := tt;
     Structs.Member_Nick := "";
     Structs.Member_Deaf := false;
     Structs.Member_Mute := false;
     Structs.Member_User := user;
     Structs.Member_Roles := [];
     Structs.Member_PremiumSince := tt;
     Structs.Member_Pending := false;
     Structs.Member_Permissions := 0 |}.

(** A custom emoji, still and animated. *)
Definition blob (animated : bool) : Activity.Emoji unit :=
  {| Activity.Emoji_ID := "123456789012345678"%string;
     Activity.Emoji_Name := "blob"%string;
     Activity.Emoji_Roles := nil;
     Activity.Emoji_User := None;
     Activity.Emoji_RequireColons := true;
     Activity.Emoji_Managed := false;
     Activity.Emoji_Animated := animated;
     Activity.Emoji_Available := true |}.

End Examples.

(** ** The names of an emoji *)

Module EmojiNames.

Local Open Scope string_scope.

Section Methods.

Variable User : Type.

(** Go's [s != ""]. *)
Definition nonempty (s : string) : bool := negb (String.eqb s "").

(** APIName returns an correctly formatted API name for use in the
    MessageReactions endpoints. *)
Definition APIName (e : option (Activity.Emoji User)) : outcome string :=
  bind (deref e) (fun v =>
  if nonempty (Activity.Emoji_ID v) && nonempty (Activity.Emoji_Name v)
  then Returns (Activity.Emoji_Name v ++ ":" ++ Activity.Emoji_ID v)
  else if nonempty (Activity.Emoji_Name v)
  then Returns (Activity.Emoji_Name v)
  else Returns (Activity.Emoji_ID v)).

(** MessageFormat returns a correctly formatted Emoji for use in Message
    content and embeds *)
Definition MessageFormat (e : option (Activity.Emoji User))
  : outcome string :=
  bind (deref e) (fun v =>
  if nonempty (Activity.Emoji_ID v) && nonempty (Activity.Emoji_Name v)
  then
    if Activity.Emoji_Animated v
    then bind (APIName e) (fun name => Returns ("<a:" ++ name ++ ">"))
    else bind (APIName e) (fun name => Returns ("<:" ++ name ++ ">"))
  else APIName e).

End Methods.

Arguments APIName {User} e.
Arguments MessageFormat {User} e.

(** The character [c] does not occur in [s]. *)
Fixpoint free_of (c : ascii) (s : string) : bool :=
  match s with
  | EmptyString => true
  | String x r => negb (Ascii.eqb x c) && free_of c r
  end.

End EmojiNames.

(** ** Decoding into a target *)

Module Decoding.

(** A decoder [run] forgets its target: whether it fails does not depend
    on the target, a success gives the same value whatever the target was,
    and decoding the same input again changes nothing. *)
Definition forgets {T error : Type}
  (run : T -> list byte -> T * option error) : Prop :=
  forall (t1 t2 : T) (b : list byte),
    snd (run t1 b) = snd (run t2 b) /\
    (snd (run t1 b) = None -> fst (run t1 b) = fst (run t2 b)) /\
    run (fst (run t1 b)) b = run t1 b.

End Decoding.

(** ** Roles as a sort.Interface *)

Module Roles.

Import Structs.
Local Open Scope Z_scope.

(** The two run-time panics of an indexing [r[i]] and of a field read
    through a pointer. *)
Inductive fault : Type :=
| IndexOutOfRange
| NilDereference.

Inductive result (A : Type) : Type :=
| Done (a : A)
| Fault (f : fault).

Arguments Done {A} a.
Arguments Fault {A} f.

Definition and_then {A B : Type} (x : result A) (k : A -> result B)
  : result B :=
  match x with
  | Done a => k a
  | Fault f => Fault f
  end.

(** Roles are a collection of Role *)
Definition Roles : Type := list (option Role).

Definition Len (r : Roles) : Z := Z.of_nat (List.length r).

(** [r[i]], read. *)
Definition index (r : Roles) (i : Z) : result (option Role) :=
  if (0 <=? i) && (i <? Len r)
  then match nth_error r (Z.to_nat i) with
       | Some p => Done p
       | None => Fault IndexOutOfRange
       end
  else Fault IndexOutOfRange.

(** [p.Position] *)
Definition Position (p : option Role) : result Z :=
  match p with
  | Some v => Done (Role_Position v)
  | None => Fault NilDereference
  end.

Fixpoint update (r : Roles) (n : nat) (p : option Role) : Roles :=
  match r, n with
  | [], _ => []
  | _ :: rest, O => p :: rest
  | x :: rest, S k => x :: update rest k p
  end.

(** [r[i] = p]: the elements of the slice after the assignment. *)
Definition store (r : Roles) (i : Z) (p : option Role) : result Roles :=
  if (0 <=? i) && (i <? Len r)
  then Done (update r (Z.to_nat i) p)
  else Fault IndexOutOfRange.

(** The operands are evaluated from left to right. *)
Definition Less (r : Roles) (i j : Z) : result bool :=
  and_then (index r i) (fun a =>
  and_then (Position a) (fun pi =>
  and_then (index r j) (fun b =>
  and_then (Position b) (fun pj =>
  Done (pi >? pj))))).

(** [r[i], r[j] = r[j], r[i]]: the right-hand side is evaluated first,
    then the two assignments are carried out in order.  The result is the
    elements of the slice after the call. *)
Definition Swap (r : Roles) (i j : Z) : result Roles :=
  and_then (index r j) (fun a =>
  and_then (index r i) (fun b =>
  and_then (store r i a) (fun r1 =>
  store r1 j b))).

Definition in_bounds (r : Roles) (i : Z) : Prop := 0 <= i < Len r.

(** The index that [k] had before [i] and [j] changed places. *)
Definition transpose (i j k : Z) : Z :=
  if k =? i then j else if k =? j then i else k.

(** A role at a position, and a slice of three: positions 1 and 3 around
    a nil element. *)
Definition role_at (position : Z) : Role :=
  {| Role_ID := "456"%string;
     Role_Name := "moderator"%string;
     Role_Managed := false;
     Role_Mentionable := true;
     Role_Hoist := false;
     Role_Color := 0;
     Role_Position := position;
     Role_Permissions := Permission.PermissionAllText |}.

Definition three_roles : Roles := [Some (role_at 1); None; Some (role_at 3)].

End Roles.

(** ** EmojiRegex *)

Module Regexp.

Local Open Scope string_scope.

(** The syntax of the regular expressions that [EmojiRegex] uses, with the
    names of Go's [regexp/syntax] operators.  A text is a string of bytes;
    every character that [EmojiRegex] names is an ASCII one, so a byte of a
    longer UTF-8 rune is in none of its classes. *)
Inductive regexp : Type :=
| NoMatch
| EmptyMatch
| CharClass (ranges : list (ascii * ascii))
| Concat (r1 r2 : regexp)
| Alternate (r1 r2 : regexp)
| Star (r : regexp).

Definition Literal (c : ascii) : regexp := CharClass [(c, c)].

Definition Plus (r : regexp) : regexp := Concat r (Star r).

(** [r{n}] *)
Fixpoint Repeat (n : nat) (r : regexp) : regexp :=
  match n with
  | O => EmptyMatch
  | S k => Concat r (Repeat k r)
  end.

Definition in_range (c : ascii) (range : ascii * ascii) : bool :=
  (nat_of_ascii (fst range) <=? nat_of_ascii c)%nat
  && (nat_of_ascii c <=? nat_of_ascii (snd range))%nat.

Definition in_class (ranges : list (ascii * ascii)) (c : ascii) : bool :=
  existsb (in_range c) ranges.

(** The texts that a regular expression matches from end to end. *)
Inductive matches : regexp -> string -> Prop :=
| matches_empty : matches EmptyMatch ""
| matches_class ranges c :
    in_class ranges c = true -> matches (CharClass ranges) (String c "")
| matches_concat r1 r2 s1 s2 :
    matches r1 s1 -> matches r2 s2 -> matches (Concat r1 r2) (s1 ++ s2)
| matches_left r1 r2 s : matches r1 s -> matches (Alternate r1 r2) s
| matches_right r1 r2 s : matches r2 s -> matches (Alternate r1 r2) s
| matches_none r : matches (Star r) ""
| matches_more r s1 s2 :
    matches r s1 -> matches (Star r) s2 -> matches (Star r) (s1 ++ s2).

(** The same, decided: by the derivatives of the expression. *)
Fixpoint nullable (r : regexp) : bool :=
  match r with
  | NoMatch => false
  | EmptyMatch => true
  | CharClass _ => false
  | Concat r1 r2 => nullable r1 && nullable r2
  | Alternate r1 r2 => nullable r1 || nullable r2
  | Star _ => true
  end.

Fixpoint derive (c : ascii) (r : regexp) : regexp :=
  match r with
  | NoMatch => NoMatch
  | EmptyMatch => NoMatch
  | CharClass ranges => if in_class ranges c then EmptyMatch else NoMatch
  | Concat r1 r2 =>
      if nullable r1
      then Alternate (Concat (derive c r1) r2) (derive c r2)
      else Concat (derive c r1) r2
  | Alternate r1 r2 => Alternate (derive c r1) (derive c r2)
  | Star r1 => Concat (derive c r1) (Star r1)
  end.

Fixpoint accepts (r : regexp) (s : string) : bool :=
  match s with
  | EmptyString => nullable r
  | String c rest => accepts (derive c r) rest
  end.

(** Every character of [s] is in the class. *)
Fixpoint all_in (ranges : list (ascii * ascii)) (s : string) : bool :=
  match s with
  | EmptyString => true
  | String c rest => in_class ranges c && all_in ranges rest
  end.

(** <<[A-z0-9_~]>> and <<[0-9]>> *)
Definition name_class : list (ascii * ascii) :=
  [("A", "z"); ("0", "9"); ("_", "_"); ("~", "~")]%char.

Definition digit_class : list (ascii * ascii) := [("0", "9")]%char.

(** EmojiRegex is the regex used to find and identify emojis in messages:
    <<<(a|):[A-z0-9_~]+:[0-9]{18}>>>.  The group only records what it
    matched. *)
Definition EmojiRegex : regexp :=
  Concat (Literal "<")
  (Concat (Alternate (Literal "a") EmptyMatch)
  (Concat (Literal ":")
  (Concat (Plus (CharClass name_class))
  (Concat (Literal ":")
  (Concat (Repeat 18 (CharClass digit_class))
          (Literal ">")))))).

End Regexp.

(** ** The tables as lists *)

Module Tables.

Import Permission Intents.

(** The permission bits [structs.go] declares, block by block, in the
    order of the source. *)
Definition text_permissions : list Z :=
  [ PermissionReadMessages; PermissionSendMessages;
    PermissionSendTTSMessages; PermissionManageMessages;
    PermissionEmbedLinks; PermissionAttachFiles;
    PermissionReadMessageHistory; PermissionMentionEveryone;
    PermissionUseExternalEmojis; PermissionUseSlashCommands ].

Definition voice_permissions : list Z :=
  [ PermissionVoicePrioritySpeaker; PermissionVoiceStreamVideo;
    PermissionVoiceConnect; PermissionVoiceSpeak;
    PermissionVoiceMuteMembers; PermissionVoiceDeafenMembers;
    PermissionVoiceMoveMembers; PermissionVoiceUseVAD;
    PermissionVoiceRequestToSpeak ].

Definition management_permissions : list Z :=
  [ PermissionChangeNickname; PermissionManageNicknames;
    PermissionManageRoles; PermissionManageWebhooks;
    PermissionManageEmojis ].

Definition general_permissions : list Z :=
  [ PermissionCreateInstantInvite; PermissionKickMembers;
    PermissionBanMembers; PermissionAdministrator;
    PermissionManageChannels; PermissionManageServer;
    PermissionAddReactions; PermissionViewAuditLogs;
    PermissionViewChannel; PermissionViewGuildInsights ].

Definition permissions : list Z :=
  text_permissions ++ voice_permissions ++ management_permissions
    ++ general_permissions.

(** The declared permissions that [PermissionAll] leaves out. *)
Definition not_in_PermissionAll : list Z :=
  [ PermissionUseExternalEmojis; PermissionUseSlashCommands;
    PermissionVoiceStreamVideo; PermissionVoiceRequestToSpeak;
    PermissionChangeNickname; PermissionManageNicknames;
    PermissionViewGuildInsights ].

(** The intents [structs.go] declares, in the order of the source. *)
Definition intents : list Intent :=
  [ IntentsGuilds; IntentsGuildMembers; IntentsGuildBans;
    IntentsGuildEmojis; IntentsGuildIntegrations; IntentsGuildWebhooks;
    IntentsGuildInvites; IntentsGuildVoiceStates; IntentsGuildPresences;
    IntentsGuildMessages; IntentsGuildMessageReactions;
    IntentsGuildMessageTyping; IntentsDirectMessages;
    IntentsDirectMessageReactions; IntentsDirectMessageTyping;
    IntentsGuildScheduledEvents ].

(** [z] is one bit: a power of two. *)
Definition single_bit (z : Z) : Prop := exists k : Z, 0 <= k /\ z = 2 ^ k.

Definition single_bitb (z : Z) : bool := (0 <? z) && (z =? 2 ^ Z.log2 z).

Fixpoint clashes_from (i j : nat) (x : Z) (l : list Z) : list (nat * nat) :=
  match l with
  | [] => []
  | y :: l' =>
      if x =? y then (i, j) :: clashes_from i (S j) x l'
      else clashes_from i (S j) x l'
  end.

(** The pairs of places [i < j] of [l] that hold the same value, the
    places counted from [i]. *)
Fixpoint clashes (i : nat) (l : list Z) : list (nat * nat) :=
  match l with
  | [] => []
  | x :: l' => (clashes_from i (S i) x l' ++ clashes (S i) l')%list
  end.

End Tables.

(* PROPERTIES *)

(** * Properties *)

(** ** The permission and intent tables *)

Module PermissionFacts.

Import Permission.

(** A mask below [2^n] has no bit at or above [n]. *)
Lemma testbit_above (z n i : Z) :
  0 <= z < 2 ^ n -> 0 <= n <= i -> Z.testbit z i = false.
Proof.
  intros Hz Hi.
  destruct (Z.eq_dec z 0) as [->|Hnz]; [apply Z.testbit_0_l|].
  apply Z.bits_above_log2; [lia|].
  apply Z.lt_le_trans with n; [|lia].
  apply Z.log2_lt_pow2; lia.
Qed.

Lemma existsb_eqb_out (i : Z) (ps : list Z) :
  (forall p, In p ps -> p <> i) -> existsb (Z.eqb i) ps = false.
Proof.
  intros H. induction ps as [|p ps IH]; [reflexivity|].
  cbn [existsb]. rewrite IH by (intros q Hq; apply H; now right).
  destruct (Z.eqb_spec i p) as [->|]; [|reflexivity].
  exfalso. apply (H p); [now left | reflexivity].
Qed.

Lemma bits_ofb_sound (n : nat) (z : Z) (ps : list Z) :
  bits_ofb n z ps = true -> bits_of z ps.
Proof.
  unfold bits_ofb. rewrite !andb_true_iff.
  intros [[[Hz0 Hzn] Hps] Htab] i.
  apply Z.leb_le in Hz0. apply Z.ltb_lt in Hzn.
  rewrite forallb_forall in Hps, Htab.
  assert (Hrange : forall p, In p ps -> 0 <= p < Z.of_nat n).
  { intros p Hp. specialize (Hps p Hp).
    apply andb_true_iff in Hps as [H1 H2].
    apply Z.leb_le in H1. apply Z.ltb_lt in H2. lia. }
  destruct (Z.ltb_spec i 0) as [Hneg|Hpos].
  - rewrite Z.testbit_neg_r by assumption. symmetry.
    apply existsb_eqb_out. intros p Hp. specialize (Hrange p Hp). lia.
  - destruct (Z.ltb_spec i (Z.of_nat n)) as [Hlt|Hge].
    + apply eqb_prop. apply Htab. unfold positions.
      apply in_map_iff. exists (Z.to_nat i). split; [lia|].
      apply in_seq. lia.
    + rewrite (testbit_above z (Z.of_nat n)) by lia. symmetry.
      apply existsb_eqb_out. intros p Hp. specialize (Hrange p Hp). lia.
Qed.


(** The union of a list of masks has exactly the bits its members have. *)
Lemma compose_bits (ms : list Z) (i : Z) :
  Z.testbit (compose ms) i = covered ms i.
Proof.
  induction ms as [|m ms IH]; cbn [compose covered fold_right existsb].
  - apply Z.testbit_0_l.
  - rewrite Z.lor_spec. f_equal. exact IH.
Qed.

(** C1: each composite permission constant is the bitwise OR of its
    documented members and of nothing else.  For [PermissionAllText],
    [PermissionAllVoice], [PermissionAllChannel] and [PermissionAll]: the
    constant equals the union of its member list; a bit is set in it exactly
    when it is set in one of the members; and the set bits are the listed
    positions (10 is [ViewChannel], 11 [SendMessages], ... 30
    [ManageEmojis]), so no other bit is set. *)
Theorem composite_permissions_are_member_unions :
  (PermissionAllText = compose AllText_members /\
   (forall i, Z.testbit PermissionAllText i = covered AllText_members i) /\
   bits_of PermissionAllText [10; 11; 12; 13; 14; 15; 16; 17]) /\
  (PermissionAllVoice = compose AllVoice_members /\
   (forall i, Z.testbit PermissionAllVoice i = covered AllVoice_members i) /\
   bits_of PermissionAllVoice [10; 20; 21; 22; 23; 24; 25; 8]) /\
  (PermissionAllChannel = compose AllChannel_members /\
   (forall i,
      Z.testbit PermissionAllChannel i = covered AllChannel_members i) /\
   bits_of PermissionAllChannel
     [10; 11; 12; 13; 14; 15; 16; 17; 20; 21; 22; 23; 24; 25; 8;
      0; 28; 4; 6; 7]) /\
  (PermissionAll = compose All_members /\
   (forall i, Z.testbit PermissionAll i = covered All_members i) /\
   bits_of PermissionAll
     [10; 11; 12; 13; 14; 15; 16; 17; 20; 21; 22; 23; 24; 25; 8;
      0; 28; 4; 6; 7; 1; 2; 5; 3; 29; 30]).
Proof.
  assert (Ht : PermissionAllText = compose AllText_members) by reflexivity.
  assert (Hv : PermissionAllVoice = compose AllVoice_members) by reflexivity.
  assert (Hc : PermissionAllChannel = compose AllChannel_members)
    by reflexivity.
  assert (Ha : PermissionAll = compose All_members) by reflexivity.
  repeat split; try assumption.
  - intros i. rewrite Ht at 1. apply compose_bits.
  - apply (bits_ofb_sound 18). vm_compute. reflexivity.
  - intros i. rewrite Hv at 1. apply compose_bits.
  - apply (bits_ofb_sound 26). vm_compute. reflexivity.
  - intros i. rewrite Hc at 1. apply compose_bits.
  - apply (bits_ofb_sound 29). vm_compute. reflexivity.
  - intros i. rewrite Ha at 1. apply compose_bits.
  - apply (bits_ofb_sound 31). vm_compute. reflexivity.
Qed.

End PermissionFacts.

Module IntentFacts.

Import Intents.

Lemma testbit_one (n : Z) : Z.testbit 1 n = (n =? 0).
Proof.
  destruct (Z.eqb_spec n 0) as [->|Hn]; [reflexivity|].
  destruct (Z.ltb_spec n 0) as [Hneg|Hpos].
  - apply Z.testbit_neg_r. assumption.
  - apply Z.bits_above_log2; [lia|]. change (Z.log2 1) with 0. lia.
Qed.

Lemma eqb_shift (i k : Z) : (i =? k) = (i - k =? 0).
Proof.
  destruct (Z.eqb_spec i k), (Z.eqb_spec (i - k) 0); lia || reflexivity.
Qed.

(** C2: the privileged intents are outside the non-privileged union and
    inside the full one.  [IntentsAllWithoutPrivileged] has neither the
    [IntentsGuildMembers] bit (bit 1) nor the [IntentsGuildPresences] bit
    (bit 8), and [IntentsAll] has both; [IntentsAll] is the non-privileged
    union with exactly these two bits added. *)
Theorem privileged_intents_only_in_IntentsAll :
  IntentsAllWithoutPrivileged .& IntentsGuildMembers = 0 /\
  IntentsAllWithoutPrivileged .& IntentsGuildPresences = 0 /\
  IntentsAll .& IntentsGuildMembers = IntentsGuildMembers /\
  IntentsAll .& IntentsGuildPresences = IntentsGuildPresences /\
  (forall i,
     Z.testbit IntentsAll i =
     Z.testbit IntentsAllWithoutPrivileged i || (i =? 1) || (i =? 8)) /\
  Z.testbit IntentsAllWithoutPrivileged 1 = false /\
  Z.testbit IntentsAllWithoutPrivileged 8 = false.
Proof.
  repeat split; try reflexivity.
  intros i. unfold IntentsAll. rewrite !Z.lor_spec.
  change IntentsGuildMembers with (1 << 1).
  change IntentsGuildPresences with (1 << 8).
  destruct (Z.ltb_spec i 0) as [Hneg|Hpos].
  - rewrite !Z.testbit_neg_r by assumption.
    destruct (Z.eqb_spec i 1), (Z.eqb_spec i 8); (lia || reflexivity).
  - rewrite !Z.shiftl_spec by assumption.
    rewrite !testbit_one.
    replace (i - 1 =? 0) with (i =? 1) by (apply eqb_shift).
    replace (i - 8 =? 0) with (i =? 8) by (apply eqb_shift).
    reflexivity.
Qed.

End IntentFacts.

(** ** Checking a permission *)

Module PermissionCheckFacts.

Import Permission PermissionCheck.

Lemma land_eq_iff_every_bit_set (mask bit : Z) :
  mask .& bit = bit <-> every_bit_set mask bit.
Proof.
  unfold every_bit_set. split.
  - intros H i Hi. rewrite <- H in Hi. rewrite Z.land_spec in Hi.
    apply andb_true_iff in Hi. tauto.
  - intros H. apply Z.bits_inj'. intros i _. rewrite Z.land_spec.
    specialize (H i). destruct (Z.testbit bit i).
    + rewrite H by reflexivity. reflexivity.
    + apply andb_false_r.
Qed.

(** C6: [hasPermission mask bit] is true exactly when [(mask & bit) == bit],
    that is exactly when every bit of [bit] is set in [mask]; it is false as
    soon as one bit of [bit] is missing from [mask], as for a mask holding
    only [PermissionSendMessages] asked for [PermissionSendMessages |
    PermissionManageMessages].  This holds for all integers, so for every
    64-bit mask, signed or not. *)
Theorem hasPermission_iff_every_bit_set (mask bit : Z) :
  (hasPermission mask bit = true <-> mask .& bit = bit) /\
  (hasPermission mask bit = true <-> every_bit_set mask bit) /\
  (forall i,
     Z.testbit bit i = true -> Z.testbit mask i = false ->
     hasPermission mask bit = false) /\
  hasPermission PermissionSendMessages
    (PermissionSendMessages .| PermissionManageMessages) = false /\
  hasPermission (PermissionSendMessages .| PermissionManageMessages)
    (PermissionSendMessages .| PermissionManageMessages) = true.
Proof.
  assert (Hiff : hasPermission mask bit = true <-> mask .& bit = bit)
    by apply Z.eqb_eq.
  repeat split; try apply Hiff; try reflexivity.
  - intros H. apply land_eq_iff_every_bit_set, Hiff, H.
  - intros H. apply Hiff, land_eq_iff_every_bit_set, H.
  - intros i Hb Hm.
    apply not_true_is_false. intros E.
    apply Hiff, land_eq_iff_every_bit_set in E.
    rewrite (E i Hb) in Hm. discriminate.
Qed.

End PermissionCheckFacts.

(** ** The mention formatters *)

Module MentionFacts.

Import Structs.
Local Open Scope string_scope.

Section Entities.

Variables Timestamp User Message : Type.
Variable User_ID : User -> string.

Let Channel : Type := Structs.Channel Timestamp User Message.
Let Member : Type := Structs.Member Timestamp User.

(** C7: the mention formatters write the identifier between the platform's
    markers and change nothing in it.  For every string [id]: a channel
    whose ID is [id] mentions as ["<#" ++ id ++ ">"], a role as
    ["<@&" ++ id ++ ">"], and a member whose user has ID [id] as
    ["<@!" ++ id ++ ">"]. *)
Theorem mention_formats (id : string) :
  (forall c : Channel,
     Channel_ID c = id ->
     Channel_Mention (Some c) = Returns ("<#" ++ id ++ ">")) /\
  (forall r : Role,
     Role_ID r = id -> Role_Mention (Some r) = Returns ("<@&" ++ id ++ ">")) /\
  (forall (m : Member) (u : User),
     Member_User m = Some u -> User_ID u = id ->
     Member_Mention User_ID (Some m) = Returns ("<@!" ++ id ++ ">")).
Proof.
  repeat split.
  - intros c <-. reflexivity.
  - intros r <-. reflexivity.
  - intros m u Hu <-. unfold Structs.Member_Mention. cbn [deref bind].
    rewrite Hu. reflexivity.
Qed.

(** C9, as amended: the receivers are pointers, and the three methods read
    a field through them.  [Channel.Mention] and [Role.Mention] return a
    string exactly for the receivers that are not nil, and panic with a nil
    pointer dereference for the nil receiver; [Member.Mention] also reads
    [m.User.ID] through the pointer [m.User]: it returns a string exactly
    for the receivers that are not nil and whose [User] is not nil, and
    panics with a nil pointer dereference for every other. *)
Theorem mention_defined_iff_user_not_nil :
  (forall c : option Channel,
     ((exists s, Channel_Mention c = Returns s) <-> c <> None) /\
     (c = None -> Channel_Mention c = Panics NilPointerDereference)) /\
  (forall r : option Role,
     ((exists s, Role_Mention r = Returns s) <-> r <> None) /\
     (r = None -> Role_Mention r = Panics NilPointerDereference)) /\
  (forall m : option Member,
     ((exists s, Member_Mention User_ID m = Returns s) <->
      exists (v : Member) (u : User), m = Some v /\ Member_User v = Some u) /\
     ((m = None \/ exists v : Member, m = Some v /\ Member_User v = None) ->
      Member_Mention User_ID m = Panics NilPointerDereference)) /\
  (forall m : Member,
     (exists s, Member_Mention User_ID (Some m) = Returns s) <->
     Member_User m <> None) /\
  (forall m : Member,
     Member_User m = None ->
     Member_Mention User_ID (Some m) = Panics NilPointerDereference).
Proof.
  split; [|split; [|split; [|split]]].
  - intros [c|]; split.
    + split; [discriminate | intros _; eexists; reflexivity].
    + discriminate.
    + split; [intros [s Hs]; discriminate Hs | congruence].
    + reflexivity.
  - intros [r|]; split.
    + split; [discriminate | intros _; eexists; reflexivity].
    + discriminate.
    + split; [intros [s Hs]; discriminate Hs | congruence].
    + reflexivity.
  - intros [m|]; unfold Structs.Member_Mention; cbn [deref bind]; split.
    + destruct (Member_User m) as [u|] eqn:Hu; cbn [deref bind]; split.
      * intros _. exists m, u. auto.
      * intros _. eexists. reflexivity.
      * intros [s Hs]. discriminate Hs.
      * intros (v & u & [= <-] & Hv). congruence.
    + intros [H|(v & [= <-] & Hv)]; [discriminate H|].
      rewrite Hv. reflexivity.
    + split; [intros [s Hs]; discriminate Hs|].
      intros (v & u & H & _). discriminate H.
    + reflexivity.
  - intros m. unfold Structs.Member_Mention. cbn [deref bind].
    destruct (Member_User m) as [u|]; cbn [deref bind]; split.
    + discriminate.
    + intros _. eexists. reflexivity.
    + intros [s Hs]. discriminate Hs.
    + congruence.
  - intros m Hnil. unfold Structs.Member_Mention. cbn [deref bind].
    rewrite Hnil. reflexivity.
Qed.

(** Through a nil receiver every one of the three panics. *)
Lemma mention_nil_receiver :
  @Channel_Mention Timestamp User Message None = Panics NilPointerDereference /\
  Role_Mention None = Panics NilPointerDereference /\
  @Member_Mention Timestamp User User_ID None = Panics NilPointerDereference.
Proof. repeat split. Qed.

End Entities.

(** The specification's examples: channel ["123"], role ["456"] and a
    member whose user is ["789"]. *)
Lemma mention_formats_examples :
  Channel_Mention (Some Examples.channel_123) = Returns "<#123>" /\
  Role_Mention (Some Examples.role_456) = Returns "<@&456>" /\
  Member_Mention (fun id : string => id)
    (Some (Examples.member_of (Some "789"))) = Returns "<@!789>".
Proof.
  split; [|split].
  - apply (proj1 (mention_formats unit string unit (fun id => id) "123")).
    reflexivity.
  - apply (proj1 (proj2
      (mention_formats unit string unit (fun id => id) "456"))).
    reflexivity.
  - apply (proj2 (proj2
      (mention_formats unit string unit (fun id => id) "789"))
      (Examples.member_of (Some "789")) "789"); reflexivity.
Defined.

(** [Mention] through a nil [*Channel] and a nil [*Role]: no string is
    returned, the call panics. *)
Lemma Mention_through_a_nil_receiver :
  @Channel_Mention unit string unit None = Panics NilPointerDereference /\
  Role_Mention None = Panics NilPointerDereference.
Proof. split; reflexivity. Qed.

(** A member without a user: [Mention] panics. *)
Lemma mention_nil_user_example :
  Member_Mention (fun id : string => id) (Some (Examples.member_of None))
  = Panics NilPointerDereference.
Proof. reflexivity. Qed.

End MentionFacts.

(** ** [int64] arithmetic and [time.Unix] *)

Module Int64Facts.

Import Int64.

Lemma in_rangeb_iff (z : Z) : in_rangeb z = true <-> in_range z.
Proof.
  unfold in_range, in_rangeb.
  rewrite andb_true_iff, !Z.leb_le. tauto.
Qed.

Lemma wrap_in_range (z : Z) : in_range (wrap z).
Proof.
  unfold wrap, in_range, min_int, max_int.
  pose proof (Z.mod_pos_bound (z + 2 ^ 63) (2 ^ 64) ltac:(lia)). lia.
Qed.

(** Arithmetic that stays in range does not wrap. *)
Lemma wrap_small (z : Z) : in_range z -> wrap z = z.
Proof.
  unfold wrap, in_range, min_int, max_int. intros H.
  rewrite Z.mod_small by lia. lia.
Qed.

(** Wrapping changes a value by a multiple of [2^64]. *)
Lemma wrap_congruent (z : Z) : exists k, wrap z = z + k * 2 ^ 64.
Proof.
  unfold wrap. exists (- ((z + 2 ^ 63) / 2 ^ 64)).
  pose proof (Z.div_mod (z + 2 ^ 63) (2 ^ 64) ltac:(lia)). lia.
Qed.

End Int64Facts.

Module GoTimeFacts.

Import Int64 Int64Facts GoTime.

(** [time.Unix(0, n)] is the instant [n] nanoseconds from the epoch, with
    its nanoseconds normalised into a second. *)
Lemma Unix_0_since_epoch (n : Z) :
  in_range n ->
  since_epoch (Unix 0 n) = n /\ 0 <= unix_nsec (Unix 0 n) < 1000000000.
Proof.
  intros Hn. unfold Unix, since_epoch.
  destruct ((n <? 0) || (1000000000 <=? n)) eqn:Hout.
  - pose proof (Z.quot_rem' n 1000000000) as Hqr.
    assert (Hr : - 1000000000 < Z.rem n 1000000000 < 1000000000)
      by (Z.quot_rem_to_equations; lia).
    assert (Hs : (0 <= n -> 0 <= Z.rem n 1000000000) /\
                 (n <= 0 -> Z.rem n 1000000000 <= 0))
      by (Z.quot_rem_to_equations; lia).
    assert (Hq : in_range (Z.quot n 1000000000))
      by (unfold in_range, min_int, max_int in *;
          Z.quot_rem_to_equations; lia).
    unfold quot, add, sub, mul.
    rewrite (wrap_small (Z.quot n 1000000000)) by assumption.
    rewrite (wrap_small (0 + _)) by (rewrite Z.add_0_l; assumption).
    rewrite (wrap_small (_ * 1000000000))
      by (unfold in_range, min_int, max_int in *; lia).
    replace (n - Z.quot n 1000000000 * 1000000000)
      with (Z.rem n 1000000000) by lia.
    rewrite (wrap_small (Z.rem n 1000000000))
      by (unfold in_range, min_int, max_int; lia).
    destruct (Z.ltb_spec (Z.rem n 1000000000) 0) as [Hneg|Hpos];
      cbn [unix_sec unix_nsec].
    + assert (Hq' : min_int < Z.quot n 1000000000).
      { unfold in_range, min_int, max_int in *. lia. }
      rewrite (wrap_small (0 + Z.quot n 1000000000 - 1))
        by (unfold in_range, min_int, max_int in *; lia).
      rewrite (wrap_small (Z.rem n 1000000000 + 1000000000))
        by (unfold in_range, min_int, max_int; lia).
      lia.
    + lia.
  - cbn [unix_sec unix_nsec].
    apply orb_false_iff in Hout as [H1 H2].
    apply Z.ltb_ge in H1. apply Z.leb_gt in H2. lia.
Qed.

End GoTimeFacts.

(** ** [float64]: rounding, [math.Modf] and the conversion to [int64] *)

Module Float64Facts.

Import Float64 GoTime.

Lemma digits2_pos_bounds (p : positive) :
  2 ^ (Zpos (digits2_pos p) - 1) <= Zpos p < 2 ^ Zpos (digits2_pos p).
Proof.
  induction p as [p IH|p IH|]; cbn [digits2_pos];
    rewrite ?Pos2Z.inj_succ.
  - replace (Z.succ (Zpos (digits2_pos p)) - 1) with (Z.succ (Zpos (digits2_pos p) - 1)) by lia.
    rewrite !Z.pow_succ_r by lia. lia.
  - replace (Z.succ (Zpos (digits2_pos p)) - 1) with (Z.succ (Zpos (digits2_pos p) - 1)) by lia.
    rewrite !Z.pow_succ_r by lia. lia.
  - cbn. lia.
Qed.

(** A positive number below [2^n] has at most [n] digits. *)
Lemma digits2_pos_le (p : positive) (n : Z) :
  Zpos p < 2 ^ n -> Zpos (digits2_pos p) <= n.
Proof.
  intros H. pose proof (digits2_pos_bounds p) as [Hlo _].
  destruct (Z.le_gt_cases (Zpos (digits2_pos p)) n) as [|Hgt]; [assumption|].
  exfalso.
  assert (0 <= n) by (destruct (Z.le_gt_cases 0 n); [assumption | rewrite Z.pow_neg_r in H by lia; lia]).
  assert (2 ^ n <= 2 ^ (Zpos (digits2_pos p) - 1)) by (apply Z.pow_le_mono_r; lia).
  lia.
Qed.

Section Iter.

Context {A : Type} (f : A -> A) (I : Z -> A -> Prop).
Hypothesis step : forall k x, I k x -> I (k + 1) (f x).

Lemma iter_pos_invariant (p : positive) :
  forall k x, I k x -> I (k + Zpos p) (iter_pos f p x).
Proof.
  induction p as [p IH|p IH|]; intros k x Hx; cbn [iter_pos].
  - replace (k + Zpos p~1) with (k + 1 + Zpos p + Zpos p) by lia.
    apply IH, IH, step, Hx.
  - replace (k + Zpos p~0) with (k + Zpos p + Zpos p) by lia.
    apply IH, IH, Hx.
  - apply step, Hx.
Qed.
End Iter.

Lemma shr_1_shifted (M k : Z) (mrs : shr_record) :
  0 <= M -> shifted M k mrs -> shifted M (k + 1) (shr_1 mrs).
Proof.
  intros HM (Hk & Hm & Hrs).
  assert (Hpow : 0 < 2 ^ k) by (apply Z.pow_pos_nonneg; lia).
  assert (Hsplit : M mod 2 ^ (k + 1) = M mod 2 ^ k + 2 ^ k * ((M / 2 ^ k) mod 2)).
  { rewrite Z.pow_add_r by lia. change (2 ^ 1) with 2.
    apply Z.rem_mul_r; lia. }
  assert (Hdiv : M / 2 ^ (k + 1) = (M / 2 ^ k) / 2).
  { rewrite Z.pow_add_r by lia. change (2 ^ 1) with 2.
    symmetry. apply Z.div_div; lia. }
  pose proof (Z.mod_pos_bound M (2 ^ k) Hpow) as Hmod.
  pose proof (Z.mod_pos_bound (M / 2 ^ k) 2 ltac:(lia)) as Hmod2.
  assert (Hq : 0 <= M / 2 ^ k) by (apply Z.div_pos; lia).
  destruct mrs as [m r s]. cbn [shr_m shr_r shr_s] in *.
  rewrite <- Hm in *.
  unfold shifted. split; [lia|]. rewrite Hdiv, Hsplit.
  destruct m as [|[p|p|]|p]; cbn [shr_1 shr_m shr_r shr_s]; try lia.
  - (* 0 *) split; [reflexivity|]. change (0 mod 2) with 0.
    rewrite Z.mul_0_r, Z.add_0_r. cbn [orb]. exact Hrs.
  - (* 2p+1 *)
    assert (E1 : Zpos p~1 / 2 = Zpos p)
      by (rewrite Pos2Z.inj_xI; Z.div_mod_to_equations; lia).
    assert (E2 : Zpos p~1 mod 2 = 1)
      by (rewrite Pos2Z.inj_xI; Z.div_mod_to_equations; lia).
    rewrite E1, E2. split; [reflexivity|].
    cbn [orb]. split; [discriminate | nia].
  - (* 2p *)
    assert (E1 : Zpos p~0 / 2 = Zpos p)
      by (rewrite Pos2Z.inj_xO; Z.div_mod_to_equations; lia).
    assert (E2 : Zpos p~0 mod 2 = 0)
      by (rewrite Pos2Z.inj_xO; Z.div_mod_to_equations; lia).
    rewrite E1, E2. split; [reflexivity|].
    rewrite Z.mul_0_r, Z.add_0_r. cbn [orb]. exact Hrs.
  - (* 1 *) split; [reflexivity|]. change (1 mod 2) with 1.
    cbn [orb]. split; [discriminate | nia].
Qed.

Lemma shifted_0 (M : Z) : shifted M 0 (Build_shr_record M false false).
Proof.
  unfold shifted. cbn [shr_m shr_r shr_s orb]. change (2 ^ 0) with 1.
  rewrite Z.div_1_r, Z.mod_1_r. split; [lia|]. split; [reflexivity|tauto].
Qed.

Lemma shr_shifted (M e n : Z) :
  0 <= M ->
  shifted M (Z.max 0 n) (fst (shr (Build_shr_record M false false) e n)) /\
  snd (shr (Build_shr_record M false false) e n) = e + Z.max 0 n.
Proof.
  intros HM. destruct n as [|p|p]; cbn [shr fst snd].
  - change (Z.max 0 0) with 0. split; [apply shifted_0 | lia].
  - replace (Z.max 0 (Zpos p)) with (0 + Zpos p) by lia. split; [|lia].
    apply iter_pos_invariant.
    + intros k x. apply shr_1_shifted. exact HM.
    + apply shifted_0.
  - replace (Z.max 0 (Zneg p)) with 0 by lia. split; [apply shifted_0 | lia].
Qed.

Lemma shr_fexp_shifted (m e : Z) :
  0 <= m ->
  shifted m (shift_of m e) (fst (shr_fexp prec emax m e loc_Exact)) /\
  snd (shr_fexp prec emax m e loc_Exact) = e + shift_of m e.
Proof.
  intros Hm. unfold shr_fexp, shift_of. cbn [shr_record_of_loc].
  apply shr_shifted. exact Hm.
Qed.

Lemma round_nearest_even_cases (mrs : shr_record) :
  round_nearest_even (shr_m mrs) (loc_of_shr_record mrs) = shr_m mrs \/
  (round_nearest_even (shr_m mrs) (loc_of_shr_record mrs) = shr_m mrs + 1 /\
   shr_r mrs || shr_s mrs = true).
Proof.
  destruct mrs as [m [|] [|]];
    cbn [round_nearest_even loc_of_shr_record shr_m shr_r shr_s orb].
  - right. split; reflexivity.
  - destruct (Z.even m); [left | right; split]; reflexivity.
  - left. reflexivity.
  - left. reflexivity.
Qed.

Lemma shiftl_nonpos (a e : Z) : e <= 0 -> Z.shiftl a e = a / 2 ^ (- e).
Proof.
  intros He. rewrite <- Z.shiftr_div_pow2 by lia.
  unfold Z.shiftr. rewrite Z.opp_involutive. reflexivity.
Qed.

Lemma div_pow2_div_pow2 (a i j : Z) :
  0 <= i -> 0 <= j -> a / 2 ^ i / 2 ^ j = a / 2 ^ (i + j).
Proof.
  intros Hi Hj. rewrite Z.pow_add_r by lia.
  assert (0 < 2 ^ i) by (apply Z.pow_pos_nonneg; lia).
  assert (0 < 2 ^ j) by (apply Z.pow_pos_nonneg; lia).
  apply Z.div_div; lia.
Qed.

Lemma Zdigits2_le (m n : Z) : 0 <= n -> 0 <= m < 2 ^ n -> Zdigits2 m <= n.
Proof.
  intros Hn Hm. destruct m as [|p|p]; cbn [Zdigits2]; try lia.
  apply digits2_pos_le. lia.
Qed.

Lemma fexp_le (x b : Z) :
  x <= b + 53 -> -1074 <= b -> fexp prec emax x <= b.
Proof. unfold fexp, emin, prec, emax. lia. Qed.

Lemma fexp_ge_emin (x : Z) : -1074 <= fexp prec emax x.
Proof. unfold fexp, emin, prec, emax. lia. Qed.

Lemma div_pow2_lt (a n k : Z) :
  0 <= k <= n -> 0 <= a < 2 ^ n -> a / 2 ^ k < 2 ^ (n - k).
Proof.
  intros Hk Ha.
  assert (0 < 2 ^ k) by (apply Z.pow_pos_nonneg; lia).
  apply Z.div_lt_upper_bound; [assumption|].
  rewrite <- Z.pow_add_r by lia. replace (k + (n - k)) with n by lia. lia.
Qed.

(** Rounding [M * 2^E], a number below [2^52] with [E <= 0], and then
    discarding the fraction gives the integer part of [M * 2^E] or the next
    integer, and the next integer only when [M * 2^E] is not an integer. *)
Lemma round_aux_trunc (s : bool) (M : positive) (E : Z) :
  E <= 0 -> Zpos (digits2_pos M) + E <= 52 ->
  exists t,
    trunc (binary_round_aux prec emax s (Zpos M) E loc_Exact)
      = Some (cond_Zopp s t) /\
    Zpos M / 2 ^ (- E) <= t <= Zpos M / 2 ^ (- E) + 1 /\
    (t = Zpos M / 2 ^ (- E) + 1 -> Zpos M mod 2 ^ (- E) <> 0).
Proof.
  intros HE Hd.
  pose proof (digits2_pos_bounds M) as [_ HM].
  unfold binary_round_aux.
  pose proof (shr_fexp_shifted (Zpos M) E ltac:(lia)) as [Hsh1 He1].
  destruct (shr_fexp prec emax (Zpos M) E loc_Exact) as [mrs1 e1].
  cbn [fst snd] in Hsh1, He1.
  assert (Hn1 : shift_of (Zpos M) E = Z.max 0 (fexp prec emax (Zpos (digits2_pos M) + E) - E))
    by reflexivity.
  pose proof (fexp_le (Zpos (digits2_pos M) + E) (-1) ltac:(lia) ltac:(lia)) as Hf1.
  pose proof (fexp_ge_emin (Zpos (digits2_pos M) + E)) as Hf1'.
  set (n1 := shift_of (Zpos M) E) in *.
  destruct Hsh1 as (Hn1pos & Hm1 & Hrs1).
  assert (He1le : e1 <= 0) by lia.
  assert (Hn1E : n1 <= - E) by lia.
  assert (Hpow1 : 0 < 2 ^ n1) by (apply Z.pow_pos_nonneg; lia).
  assert (Hm1pos : 0 <= shr_m mrs1) by (rewrite Hm1; apply Z.div_pos; lia).
  assert (Hm1lt : shr_m mrs1 < 2 ^ (52 - e1)).
  { rewrite Hm1. replace (52 - e1) with (52 - E - n1) by lia.
    apply div_pow2_lt; [lia|]. split; [lia|].
    apply Z.lt_le_trans with (2 ^ Zpos (digits2_pos M)); [assumption|].
    apply Z.pow_le_mono_r; lia. }
  pose proof (round_nearest_even_cases mrs1) as Hround.
  set (m2 := round_nearest_even (shr_m mrs1) (loc_of_shr_record mrs1)) in *.
  assert (Hm2 : shr_m mrs1 <= m2 <= shr_m mrs1 + 1) by lia.
  assert (Hm2lt : m2 < 2 ^ (53 - e1)).
  { replace (53 - e1) with (Z.succ (52 - e1)) by lia.
    rewrite Z.pow_succ_r by lia. lia. }
  pose proof (shr_fexp_shifted m2 e1 ltac:(lia)) as [Hsh2 He2].
  destruct (shr_fexp prec emax m2 e1 loc_Exact) as [mrs2 e2].
  cbn [fst snd] in Hsh2, He2.
  pose proof (Zdigits2_le m2 (53 - e1) ltac:(lia) ltac:(lia)) as Hdig2.
  pose proof (fexp_le (Zdigits2 m2 + e1) 0 ltac:(lia) ltac:(lia)) as Hf2.
  unfold shift_of in Hsh2, He2.
  set (n2 := Z.max 0 (fexp prec emax (Zdigits2 m2 + e1) - e1)) in *.
  destruct Hsh2 as (Hn2pos & Hm3 & _).
  assert (He2le : e2 <= 0) by lia.
  (* the integer part of the result *)
  exists (m2 / 2 ^ (- e1)).
  assert (Hm3pos : 0 <= shr_m mrs2)
    by (rewrite Hm3; apply Z.div_pos; [lia | apply Z.pow_pos_nonneg; lia]).
  assert (Ht : shr_m mrs2 / 2 ^ (- e2) = m2 / 2 ^ (- e1)).
  { rewrite Hm3, div_pow2_div_pow2 by lia. f_equal. f_equal. lia. }
  assert (HF : Zpos M / 2 ^ (- E) = shr_m mrs1 / 2 ^ (- e1)).
  { rewrite Hm1, div_pow2_div_pow2 by lia. f_equal. f_equal. lia. }
  assert (Hpow : 0 < 2 ^ (- e1)) by (apply Z.pow_pos_nonneg; lia).
  split; [|split].
  - destruct (shr_m mrs2) as [|m3|m3] eqn:E3; [| |lia].
    + cbn [trunc]. rewrite <- Ht, Zdiv_0_l. destruct s; reflexivity.
    + replace (e2 <=? emax - prec) with true
        by (symmetry; apply Z.leb_le; unfold emax, prec; lia).
      cbn [trunc]. rewrite shiftl_nonpos by lia. rewrite Ht. reflexivity.
  - rewrite HF. split.
    + apply Z.div_le_mono; lia.
    + apply Z.le_trans with ((shr_m mrs1 + 1 * 2 ^ (- e1)) / 2 ^ (- e1)).
      * apply Z.div_le_mono; lia.
      * rewrite Z.div_add by lia. lia.
  - intros Hnext Hexact.
    destruct Hround as [Hsame | [_ Hrs]].
    + rewrite Hsame, <- HF in Hnext. lia.
    + assert (Hz : Zpos M mod 2 ^ n1 = 0).
      { apply Z.mod_divide; [lia|].
        apply Z.divide_trans with (2 ^ (- E)).
        - exists (2 ^ (- E - n1)). rewrite <- Z.pow_add_r by lia. f_equal. lia.
        - apply Z.mod_divide; [|assumption].
          assert (0 < 2 ^ (- E)) by (apply Z.pow_pos_nonneg; lia). lia. }
      apply Hrs1 in Hz. congruence.
Qed.

Lemma iter_xO_value (m d : positive) :
  Zpos (Pos.iter xO m d) = Zpos m * 2 ^ Zpos d /\
  Zpos (digits2_pos (Pos.iter xO m d)) = Zpos (digits2_pos m) + Zpos d.
Proof.
  induction d as [|d [IHv IHd]] using Pos.peano_ind.
  - cbn [Pos.iter digits2_pos]. rewrite Pos2Z.inj_succ. split; lia.
  - rewrite Pos.iter_succ. cbn [digits2_pos].
    rewrite Pos2Z.inj_xO, !Pos2Z.inj_succ, IHv, IHd, Z.pow_succ_r by lia.
    split; lia.
Qed.

(** What [binary_round_aux] makes of a mantissa that needs no shift. *)
Lemma round_aux_canonical (s : bool) (m : positive) (e : Z) :
  fexp prec emax (Zpos (digits2_pos m) + e) = e -> e <= 971 ->
  binary_round_aux prec emax s (Zpos m) e loc_Exact = S754_finite s m e.
Proof.
  intros Hc He. unfold binary_round_aux, shr_fexp.
  cbn [Zdigits2 shr_record_of_loc]. rewrite Hc, Z.sub_diag.
  cbn [shr shr_m loc_of_shr_record round_nearest_even Zdigits2].
  rewrite Hc, Z.sub_diag. cbn [shr shr_m].
  replace (e <=? emax - prec) with true
    by (symmetry; apply Z.leb_le; unfold emax, prec; lia).
  reflexivity.
Qed.

(** A mantissa of at most 53 bits with an exponent of the format is
    represented exactly. *)
Lemma binary_round_exact (s : bool) (m : positive) (e : Z) :
  Zpos (digits2_pos m) <= 53 -> -1074 <= e <= 971 ->
  exists (m' : positive) (e' : Z),
    binary_round prec emax s m e = S754_finite s m' e' /\
    e' <= e /\ Zpos m' = Zpos m * 2 ^ (e - e') /\
    valid (S754_finite s m' e') = true.
Proof.
  intros Hd He. unfold binary_round.
  set (e' := fexp prec emax (Zpos (digits2_pos m) + e)).
  assert (He' : e' <= e) by (apply fexp_le; lia).
  assert (Hmin : -1074 <= e') by apply fexp_ge_emin.
  unfold shl_align. destruct (e' - e) as [|d|d] eqn:Ed; try lia.
  - assert (e' = e) by lia. subst e'.
    exists m, e. rewrite round_aux_canonical by lia.
    rewrite Z.sub_diag, Z.mul_1_r. repeat split; try lia.
    unfold valid, valid_binary, bounded, canonical_mantissa.
    rewrite H, Z.eqb_refl. apply Z.leb_le. unfold emax, prec. lia.
  - destruct (iter_xO_value m d) as [Hv Hdig].
    assert (Hc : fexp prec emax (Zpos (digits2_pos (Pos.iter xO m d)) + e') = e').
    { rewrite Hdig. replace (Zpos (digits2_pos m) + Zpos d + e')
        with (Zpos (digits2_pos m) + e) by lia. reflexivity. }
    exists (Pos.iter xO m d), e'.
    rewrite round_aux_canonical by lia.
    repeat split; try lia.
    + rewrite Hv. f_equal. f_equal. lia.
    + unfold valid, valid_binary, bounded, canonical_mantissa.
      rewrite Hc, Z.eqb_refl. apply Z.leb_le. unfold emax, prec. lia.
Qed.

Lemma valid_finite (s : bool) (m : positive) (e : Z) :
  valid (S754_finite s m e) = true ->
  Zpos (digits2_pos m) <= 53 /\ -1074 <= e <= 971.
Proof.
  unfold valid, valid_binary, bounded, canonical_mantissa.
  rewrite andb_true_iff, Z.eqb_eq, Z.leb_le.
  unfold fexp, emin, emax, prec. lia.
Qed.

(** [normalize] on a mantissa of at most 53 bits is exact. *)
Lemma normalize_exact (s : bool) (a e : Z) :
  0 <= a < 2 ^ 53 -> -1074 <= e <= 971 ->
  represents (normalize s a e) s a e.
Proof.
  intros Ha He. unfold normalize, represents.
  destruct a as [|p|p]; [left | right | lia].
  - split; [reflexivity|]. destruct s; reflexivity.
  - assert (Hd : Zpos (digits2_pos p) <= 53) by (apply digits2_pos_le; lia).
    destruct (binary_round_exact s p e Hd He) as (m' & e' & Hr & Hrest).
    exists m', e'.
    assert (E : binary_normalize prec emax (cond_Zopp s (Zpos p)) e s
                = S754_finite s m' e')
      by (destruct s; cbn [cond_Zopp Z.opp binary_normalize]; exact Hr).
    rewrite E. split; [reflexivity|]. exact Hrest.
Qed.

(** The integer part of a number that is represented exactly. *)
Lemma represents_trunc (y : float64) (s : bool) (a e : Z) :
  represents y s a e -> e <= 0 ->
  trunc y = Some (cond_Zopp s (a / 2 ^ (- e))).
Proof.
  intros [[-> ->] | (m' & e' & -> & He' & Hm & _)] He.
  - cbn [trunc]. rewrite Zdiv_0_l. destruct s; reflexivity.
  - cbn [trunc]. rewrite shiftl_nonpos by lia. rewrite Hm.
    replace (- e') with ((e - e') + (- e)) by lia.
    rewrite Z.pow_add_r by lia.
    assert (0 < 2 ^ (e - e')) by (apply Z.pow_pos_nonneg; lia).
    assert (0 < 2 ^ (- e)) by (apply Z.pow_pos_nonneg; lia).
    rewrite (Z.mul_comm a), Z.div_mul_cancel_l by lia. reflexivity.
Qed.

Lemma Qeq_fractions (a b : Z) (c d : positive) :
  a * Zpos d = b * Zpos c -> (a # c == b # d)%Q.
Proof. intros H. unfold Qeq. cbn [Qnum Qden]. exact H. Qed.

Lemma cond_Zopp_mul (s : bool) (a b : Z) :
  cond_Zopp s a * b = cond_Zopp s (a * b).
Proof. destruct s; cbn [cond_Zopp]; lia. Qed.

(** The value of a number that is represented exactly. *)
Lemma represents_to_Q (y : float64) (s : bool) (a e : Z) :
  represents y s a e -> (to_Q y == value s a e)%Q.
Proof.
  intros [[-> ->] | (m' & e' & -> & He' & Hm & _)].
  - cbn [to_Q]. unfold value.
    destruct (0 <=? e), s; cbn [cond_Zopp]; reflexivity.
  - cbn [to_Q]. unfold value. rewrite Hm.
    assert (Hp : 0 < 2 ^ (e - e')) by (apply Z.pow_pos_nonneg; lia).
    assert (Hsplit : forall x, 0 <= x -> 0 <= x + (e - e') ->
              2 ^ (x + (e - e')) = 2 ^ x * 2 ^ (e - e'))
      by (intros; apply Z.pow_add_r; lia).
    destruct (Z.leb_spec 0 e') as [H0e'|H0e'], (Z.leb_spec 0 e) as [H0e|H0e];
      try lia.
    + replace e with (e' + (e - e')) at 2 by lia.
      rewrite (Hsplit e') by lia.
      replace (a * 2 ^ (e - e') * 2 ^ e') with (a * (2 ^ e' * 2 ^ (e - e')))
        by ring. reflexivity.
    + assert (Hq : 0 < 2 ^ (- e')) by (apply Z.pow_pos_nonneg; lia).
      unfold inject_Z. apply Qeq_fractions.
      rewrite Z2Pos.id by assumption. rewrite !cond_Zopp_mul. f_equal.
      replace (e - e') with (e + - e') by lia.
      rewrite Z.pow_add_r by lia. ring.
    + assert (Hq : 0 < 2 ^ (- e')) by (apply Z.pow_pos_nonneg; lia).
      assert (Hq' : 0 < 2 ^ (- e)) by (apply Z.pow_pos_nonneg; lia).
      apply Qeq_fractions. rewrite !Z2Pos.id by assumption.
      rewrite !cond_Zopp_mul. f_equal.
      replace (- e') with ((e - e') + (- e)) by lia.
      rewrite Z.pow_add_r by lia. ring.
Qed.

(** [math.Modf] on a finite number [(-1)^s * m * 2^e] with a fraction:
    the integer part is [m / 2^-e] and the fraction [(m mod 2^-e) * 2^e],
    both with the sign of the number and both exact. *)
Lemma Modf_finite (s : bool) (m : positive) (e : Z) :
  valid (S754_finite s m e) = true -> e < 0 ->
  exists w f : float64,
    Modf (S754_finite s m e) = (w, f) /\
    represents w s (Zpos m / 2 ^ (- e)) 0 /\
    represents f s (Zpos m mod 2 ^ (- e)) e.
Proof.
  intros Hv He. apply valid_finite in Hv as [Hd Hrange].
  pose proof (digits2_pos_bounds m) as [_ Hm].
  assert (Hm53 : Zpos m < 2 ^ 53).
  { apply Z.lt_le_trans with (2 ^ Zpos (digits2_pos m)); [assumption|].
    apply Z.pow_le_mono_r; lia. }
  assert (Hpow : 0 < 2 ^ (- e)) by (apply Z.pow_pos_nonneg; lia).
  cbn [Modf]. replace (0 <=? e) with false by (symmetry; apply Z.leb_gt; lia).
  rewrite Z.shiftr_div_pow2, Z.land_ones by lia.
  eexists. eexists. split; [reflexivity|]. split.
  - apply normalize_exact; [|lia].
    split; [apply Z.div_pos; lia|].
    apply Z.le_lt_trans with (Zpos m); [|assumption].
    apply Z.div_le_upper_bound; [assumption|]. nia.
  - pose proof (Z.mod_pos_bound (Zpos m) (2 ^ (- e)) Hpow) as Hmod.
    apply normalize_exact; [|lia].
    split; [lia|]. apply Z.le_lt_trans with (Zpos m); [|assumption].
    apply Z.mod_le; lia.
Qed.

(** [math.Modf] as documented: the integer part of the number, and a
    fraction below one, that sum to the number. *)
Lemma Modf_sums (x : float64) :
  valid x = true -> is_finite x = true ->
  exists (w f : float64) (z : Z),
    Modf x = (w, f) /\ trunc x = Some z /\
    (to_Q w == inject_Z z)%Q /\
    (to_Q w + to_Q f == to_Q x)%Q /\
    (Qabs (to_Q f) < 1)%Q.
Proof.
  intros Hv Hfin. destruct x as [s|s| |s m e]; try discriminate Hfin.
  - exists (S754_zero s), (S754_zero s), 0. repeat split.
  - destruct (Z.leb_spec 0 e) as [He|He].
    + exists (S754_finite s m e), (S754_zero s), (cond_Zopp s (Zpos m * 2 ^ e)).
      cbn [Modf trunc to_Q]. unfold value.
      replace (0 <=? e) with true by (symmetry; apply Z.leb_le; lia).
      rewrite Z.shiftl_mul_pow2 by lia.
      split; [reflexivity|]. split; [reflexivity|]. split; [reflexivity|].
      split; [apply Qplus_0_r | reflexivity].
    + destruct (Modf_finite s m e Hv He) as (w & f & HModf & Hw & Hf).
      assert (Hpow : 0 < 2 ^ (- e)) by (apply Z.pow_pos_nonneg; lia).
      pose proof (Z.div_mod (Zpos m) (2 ^ (- e)) ltac:(lia)) as Hdiv.
      pose proof (Z.mod_pos_bound (Zpos m) (2 ^ (- e)) Hpow) as Hmod.
      exists w, f, (cond_Zopp s (Zpos m / 2 ^ (- e))).
      split; [exact HModf|]. split.
      { cbn [trunc]. rewrite shiftl_nonpos by lia. reflexivity. }
      apply represents_to_Q in Hw, Hf.
      rewrite Hw, Hf. cbn [to_Q]. unfold value.
      replace (0 <=? e) with false by (symmetry; apply Z.leb_gt; lia).
      change (0 <=? 0) with true. cbn iota. change (2 ^ 0) with 1.
      rewrite Z.mul_1_r.
      split; [reflexivity|]. split.
      * unfold Qeq, Qplus, inject_Z. cbn [Qnum Qden].
        rewrite ?Pos2Z.inj_mul, !Z2Pos.id by assumption.
        destruct s; cbn [cond_Zopp]; nia.
      * unfold Qlt, Qabs. cbn [Qnum Qden].
        rewrite Z2Pos.id by assumption.
        destruct s; cbn [cond_Zopp]; lia.
Qed.

Lemma of_Z_1000 : of_Z 1000 = S754_finite false 8796093022208000 (-43).
Proof. reflexivity. Qed.

(** The milliseconds [time.Duration(frac*1000)] of a fraction
    [frac = a * 2^e] below one: the integer part of [1000 * frac], or the
    next integer when the product is not an integer and was rounded up to
    it. *)
Lemma frac_milliseconds (s : bool) (mf : positive) (ef e a : Z) :
  e < 0 -> ef <= e -> 0 <= a < 2 ^ (- e) -> Zpos mf = a * 2 ^ (e - ef) ->
  exists t,
    trunc (mul (S754_finite s mf ef) (of_Z 1000)) = Some (cond_Zopp s t) /\
    1000 * a / 2 ^ (- e) <= t <= 1000 * a / 2 ^ (- e) + 1 /\
    (t = 1000 * a / 2 ^ (- e) + 1 -> (1000 * a) mod 2 ^ (- e) <> 0).
Proof.
  intros He Hef Ha Hmf. rewrite of_Z_1000. cbn [mul SFmul].
  rewrite xorb_false_r.
  assert (Hp1 : 0 < 2 ^ (e - ef)) by (apply Z.pow_pos_nonneg; lia).
  assert (Hp2 : 0 < 2 ^ (- e)) by (apply Z.pow_pos_nonneg; lia).
  assert (Hp3 : 2 ^ (- (ef + -43)) = 2 ^ (e - ef) * 2 ^ 43 * 2 ^ (- e)).
  { rewrite <- !Z.pow_add_r by lia. f_equal. lia. }
  assert (HM : Zpos (mf * 8796093022208000)
               = 2 ^ (e - ef) * 2 ^ 43 * (1000 * a)).
  { rewrite Pos2Z.inj_mul, Hmf.
    change (Zpos 8796093022208000) with (1000 * 2 ^ 43). ring. }
  assert (Hdig : Zpos (digits2_pos (mf * 8796093022208000)) + (ef + -43) <= 52).
  { assert (Zpos (digits2_pos (mf * 8796093022208000)) <= 53 - ef); [|lia].
    apply digits2_pos_le. rewrite HM.
    replace (53 - ef) with ((e - ef) + 43 + 10 + (- e)) by lia.
    rewrite !Z.pow_add_r by lia.
    change (2 ^ 10) with 1024.
    assert (0 < 2 ^ 43) by reflexivity. nia. }
  destruct (round_aux_trunc s (mf * 8796093022208000) (ef + -43)
              ltac:(lia) Hdig) as (t & Ht & Hbounds & Hnext).
  exists t. split; [exact Ht|].
  assert (Hq : Zpos (mf * 8796093022208000) / 2 ^ (- (ef + -43))
               = 1000 * a / 2 ^ (- e)).
  { rewrite HM, Hp3. apply Z.div_mul_cancel_l; [|lia].
    assert (0 < 2 ^ 43) by reflexivity. nia. }
  rewrite Hq in Hbounds, Hnext. split; [exact Hbounds|].
  intros Hn Hdiv. apply (Hnext Hn).
  rewrite HM, Hp3. apply Z.mod_divide; [nia|].
  apply Z.mul_divide_mono_l. apply Z.mod_divide; [lia | exact Hdiv].
Qed.


(** The error of splitting [N / D] into whole seconds and milliseconds. *)
Lemma split_error (N : Z) (D : positive) (t : Z) :
  0 <= N ->
  1000 * (N mod Zpos D) / Zpos D <= t <= 1000 * (N mod Zpos D) / Zpos D + 1 ->
  (t = 1000 * (N mod Zpos D) / Zpos D + 1 ->
   (1000 * (N mod Zpos D)) mod Zpos D <> 0) ->
  is_truncation (N # D) (N / Zpos D) /\
  0 <= t <= 1000 /\
  (Qabs (inject_Z t - 1000 * ((N # D) - inject_Z (N / Zpos D)%Z)) < 1)%Q /\
  (Qabs (seconds (N / Zpos D * 1000000000 + t * 1000000)%Z - (N # D))
   < 1 # 1000)%Q.
Proof.
  intros HN Ht Hnext.
  pose proof (Z.div_mod N (Zpos D) ltac:(lia)) as HNdiv.
  pose proof (Z.mod_pos_bound N (Zpos D) ltac:(lia)) as HA.
  pose proof (Z.div_mod (1000 * (N mod Zpos D)) (Zpos D) ltac:(lia)) as Hqdiv.
  pose proof (Z.mod_pos_bound (1000 * (N mod Zpos D)) (Zpos D) ltac:(lia)) as Hr.
  set (W := N / Zpos D) in *. set (A := N mod Zpos D) in *.
  set (q := 1000 * A / Zpos D) in *. set (r := (1000 * A) mod Zpos D) in *.
  assert (Hq : 0 <= q <= 999) by nia.
  assert (Hdiff : - Zpos D < t * Zpos D - 1000 * A < Zpos D).
  { destruct (Z.eq_dec t (q + 1)) as [E|E].
    - specialize (Hnext E). nia.
    - assert (t = q) by lia. nia. }
  assert (HD : N = W * Zpos D + A) by lia.
  assert (HW : 0 <= W) by (apply Z.div_pos; lia).
  split; [|split; [lia | split]].
  - unfold is_truncation, Qle, Qlt, Qminus, Qplus, Qopp, inject_Z.
    cbn [Qnum Qden]. rewrite ?Pos2Z.inj_mul. split; intros H; split; nia.
  - unfold Qlt, Qabs, Qminus, Qplus, Qmult, Qopp, inject_Z. cbn [Qnum Qden].
    rewrite ?Pos2Z.inj_mul. nia.
  - unfold Qlt, Qabs, Qminus, Qplus, Qopp, seconds. cbn [Qnum Qden].
    rewrite ?Pos2Z.inj_mul. nia.
Qed.

Lemma to_int64_in_range (unrepresentable : float64 -> Z) (x : float64) (z : Z) :
  trunc x = Some z -> Int64.in_range z -> to_int64 unrepresentable x = z.
Proof.
  intros Ht Hz. unfold to_int64. rewrite Ht.
  apply Int64Facts.in_rangeb_iff in Hz. rewrite Hz. reflexivity.
Qed.

Lemma duration_no_wrap (W t : Z) :
  0 <= W < 9223372036 -> 0 <= t <= 1000 ->
  Int64.add (Int64.mul W Second) (Int64.mul t Millisecond)
  = W * 1000000000 + t * 1000000.
Proof.
  intros HW Ht. change Second with 1000000000. change Millisecond with 1000000.
  unfold Int64.add, Int64.mul.
  rewrite (Int64Facts.wrap_small (W * _))
    by (unfold Int64.in_range, Int64.min_int, Int64.max_int; lia).
  rewrite (Int64Facts.wrap_small (t * _))
    by (unfold Int64.in_range, Int64.min_int, Int64.max_int; lia).
  apply Int64Facts.wrap_small.
  unfold Int64.in_range, Int64.min_int, Int64.max_int. lia.
Qed.

Section RetryAfter.

Variable unrepresentable : float64 -> Z.

Let duration := TooManyRequests.retry_after_duration unrepresentable.
Let splits := TooManyRequests.splits unrepresentable.

Lemma splits_integer (x : float64) (N : Z) :
  0 <= N < 9223372036 ->
  trunc x = Some N ->
  Modf x = (x, S754_zero false) \/ Modf x = (x, S754_zero true) ->
  splits x N 1.
Proof.
  intros HN Ht HModf. unfold splits, TooManyRequests.splits. exists 0.
  rewrite Z.mod_1_r, Z.div_1_r. change (1000 * 0 / 1) with 0.
  split; [|split; [lia | intros; lia]].
  unfold duration, TooManyRequests.retry_after_duration.
  assert (Hms : forall s, to_int64 unrepresentable (mul (S754_zero s) (of_Z 1000)) = 0).
  { intros s. rewrite of_Z_1000. reflexivity. }
  destruct HModf as [-> | ->]; rewrite Hms;
    rewrite (to_int64_in_range _ x N Ht)
      by (unfold Int64.in_range, Int64.min_int, Int64.max_int; lia);
    apply duration_no_wrap; lia.
Qed.

Lemma splits_finite (m : positive) (e : Z) :
  valid (S754_finite false m e) = true -> e < 0 ->
  Zpos m / 2 ^ (- e) < 9223372036 ->
  splits (S754_finite false m e) (Zpos m) (Z.to_pos (2 ^ (- e))).
Proof.
  intros Hv He Hlt.
  assert (Hpow : 0 < 2 ^ (- e)) by (apply Z.pow_pos_nonneg; lia).
  rewrite <- (Z2Pos.id (2 ^ (- e)) Hpow) in Hlt.
  unfold splits, TooManyRequests.splits. rewrite Z2Pos.id by assumption.
  rewrite Z2Pos.id in Hlt by assumption.
  destruct (Modf_finite false m e Hv He) as (w & f & HModf & Hw & Hf).
  apply represents_trunc in Hw; [|lia].
  change (2 ^ (- 0)) with 1 in Hw. rewrite Z.div_1_r in Hw.
  cbn [cond_Zopp] in Hw.
  pose proof (Z.mod_pos_bound (Zpos m) (2 ^ (- e)) Hpow) as HA.
  assert (HW : 0 <= Zpos m / 2 ^ (- e)) by (apply Z.div_pos; lia).
  unfold duration, TooManyRequests.retry_after_duration. rewrite HModf.
  rewrite (to_int64_in_range _ w _ Hw)
    by (unfold Int64.in_range, Int64.min_int, Int64.max_int; lia).
  destruct Hf as [[H0 ->] | (mf & ef & -> & Hef & Hmf & _)].
  - exists 0. rewrite H0. change (1000 * 0) with 0. rewrite Zdiv_0_l.
    split; [|split; [lia | intros; lia]].
    rewrite of_Z_1000.
    change (to_int64 unrepresentable
              (mul (S754_zero false) (S754_finite false 8796093022208000 (-43))))
      with 0.
    apply duration_no_wrap; lia.
  - destruct (frac_milliseconds false mf ef e _ He Hef HA Hmf)
      as (t & Ht & Hbounds & Hnext).
    cbn [cond_Zopp] in Ht.
    assert (Hq : 0 <= 1000 * (Zpos m mod 2 ^ (- e)) / 2 ^ (- e) <= 999).
    { split; [apply Z.div_pos; lia|].
      assert (1000 * (Zpos m mod 2 ^ (- e)) / 2 ^ (- e) < 1000); [|lia].
      apply Z.div_lt_upper_bound; lia. }
    exists t. split; [|split; assumption].
    rewrite (to_int64_in_range _ _ _ Ht)
      by (unfold Int64.in_range, Int64.min_int, Int64.max_int; lia).
    apply duration_no_wrap; lia.
Qed.

(** A number the wire can carry, not negative and below 9223372036
    seconds, is a fraction [N / D] whose integer part is [N / D] rounded
    down and whose decoded duration [splits]. *)
Lemma duration_splits (x : float64) :
  valid x = true -> is_finite x = true ->
  (0 <= to_Q x)%Q -> (to_Q x < 9223372036)%Q ->
  exists (N : Z) (D : positive),
    to_Q x = N # D /\ 0 <= N /\ trunc x = Some (N / Zpos D) /\
    splits x N D.
Proof.
  intros Hv Hfin Hpos Hlt.
  destruct x as [s|s| |[|] m e]; try discriminate Hfin.
  - exists 0, 1%positive. split; [reflexivity|]. split; [lia|].
    split; [reflexivity|].
    apply splits_integer; [lia | reflexivity |].
    destruct s; [right | left]; reflexivity.
  - exfalso. cbn [to_Q] in Hpos. unfold value in Hpos.
    cbn [cond_Zopp] in Hpos.
    destruct (Z.leb_spec 0 e) as [He|He];
      unfold Qle, inject_Z in Hpos; cbn [Qnum Qden] in Hpos.
    + assert (0 < 2 ^ e) by (apply Z.pow_pos_nonneg; lia). nia.
    + lia.
  - cbn [to_Q] in Hpos, Hlt |- *. unfold value in Hpos, Hlt |- *.
    cbn [cond_Zopp] in Hpos, Hlt |- *.
    destruct (Z.leb_spec 0 e) as [He|He].
    + exists (Zpos m * 2 ^ e), 1%positive.
      assert (0 < 2 ^ e) by (apply Z.pow_pos_nonneg; lia).
      unfold Qlt, inject_Z in Hlt. cbn [Qnum Qden] in Hlt.
      assert (Ht : trunc (S754_finite false m e) = Some (Zpos m * 2 ^ e)).
      { cbn [trunc cond_Zopp]. rewrite Z.shiftl_mul_pow2 by lia. reflexivity. }
      split; [reflexivity|]. split; [nia|].
      split; [rewrite Z.div_1_r; exact Ht|].
      apply splits_integer.
      * split; [nia | lia].
      * exact Ht.
      * left. cbn [Modf]. replace (0 <=? e) with true
          by (symmetry; apply Z.leb_le; lia). reflexivity.
    + exists (Zpos m), (Z.to_pos (2 ^ (- e))).
      assert (Hpow : 0 < 2 ^ (- e)) by (apply Z.pow_pos_nonneg; lia).
      split; [reflexivity|]. split; [lia|]. split.
      { cbn [trunc cond_Zopp]. rewrite shiftl_nonpos by lia.
        rewrite Z2Pos.id by assumption. reflexivity. }
      apply splits_finite; [assumption | assumption |].
      unfold Qlt in Hlt. cbn [Qnum Qden] in Hlt.
      rewrite Z2Pos.id in Hlt by assumption.
      apply Z.div_lt_upper_bound; lia.
Qed.

End RetryAfter.

(** An integer is its own truncation. *)
Lemma is_truncation_integer (z : Z) : is_truncation (inject_Z z) z.
Proof.
  unfold is_truncation, Qle, Qlt, Qminus, Qplus, Qopp, inject_Z.
  cbn [Qnum Qden]. split; intros _; split; lia.
Qed.

(** The conversion to an integer discards the fraction: the integer part
    [trunc] computes is the number with its fraction removed, toward
    zero, whatever the sign. *)
Lemma trunc_is_truncation (x : float64) (z : Z) :
  trunc x = Some z -> is_truncation (to_Q x) z.
Proof.
  destruct x as [s|s| |s m e]; cbn [trunc to_Q]; unfold value; intros H;
    try discriminate H; injection H as <-.
  - apply (is_truncation_integer 0).
  - destruct (Z.leb_spec 0 e) as [He|He].
    + rewrite Z.shiftl_mul_pow2 by lia.
      destruct s; cbn [cond_Zopp]; apply is_truncation_integer.
    + rewrite shiftl_nonpos by lia.
      assert (Hpow : 0 < 2 ^ (- e)) by (apply Z.pow_pos_nonneg; lia).
      pose proof (Z.div_mod (Zpos m) (2 ^ (- e)) ltac:(lia)) as Hdiv.
      pose proof (Z.mod_pos_bound (Zpos m) (2 ^ (- e)) Hpow) as Hmod.
      assert (Hq : 0 <= Zpos m / 2 ^ (- e)) by (apply Z.div_pos; lia).
      unfold is_truncation, Qle, Qlt, Qminus, Qplus, Qopp, inject_Z.
      cbn [Qnum Qden]. rewrite ?Pos2Z.inj_mul, Z2Pos.id by assumption.
      destruct s; cbn [cond_Zopp]; split; intros H; split; nia.
Qed.

End Float64Facts.

(** ** The decoders and [json.Unmarshal] *)

Module DecoderFacts.

Import Float64.

(** C8: [TimeStamps.UnmarshalJSON] and [TooManyRequests.UnmarshalJSON]
    return the error of [json.Unmarshal] on the shadow structure, whatever
    the input: a non-nil error exactly when that decoding fails, and then
    the same error, the target being left as it was; a nil error when it
    succeeds. *)
Theorem UnmarshalJSON_returns_the_decoding_error :
  forall (error : Type)
         (decode_temp :
            list byte -> TimeStamps.temp -> TimeStamps.temp * option error)
         (decode_u :
            list byte -> TooManyRequests.u -> TooManyRequests.u * option error)
         (unrepresentable : float64 -> Z) (b : list byte),
    (forall t : TimeStamps.TimeStamps,
       let r := TimeStamps.UnmarshalJSON decode_temp unrepresentable t b in
       let err := snd (decode_temp b TimeStamps.temp_zero) in
       snd r = err /\ (err <> None -> fst r = t)) /\
    (forall t : TooManyRequests.TooManyRequests,
       let r := TooManyRequests.UnmarshalJSON decode_u unrepresentable t b in
       let err := snd (decode_u b TooManyRequests.u_zero) in
       snd r = err /\ (err <> None -> fst r = t)).
Proof.
  intros error decode_temp decode_u unrepresentable b. split.
  - intros t. unfold TimeStamps.UnmarshalJSON.
    destruct (decode_temp b TimeStamps.temp_zero) as [temp [e|]];
      cbn [fst snd]; split; congruence.
  - intros t. unfold TooManyRequests.UnmarshalJSON.
    destruct (decode_u b TooManyRequests.u_zero) as [u [e|]];
      cbn [fst snd]; split; congruence.
Qed.

(** C10, as amended: when [json.Unmarshal] succeeds with a [created_at]
    of at most 9223372036854 milliseconds in absolute value (so that the
    count of nanoseconds is an [int64]), [Activity.UnmarshalJSON] succeeds,
    [CreatedAt] is the instant [created_at * 1000000] nanoseconds after the
    epoch, and every other field is the wire's, unchanged. *)
Theorem Activity_UnmarshalJSON_created_at_in_milliseconds :
  forall (User error : Type)
         (json_Unmarshal :
            list byte -> Activity.temp User ->
            Activity.temp User * option error)
         (activity : Activity.Activity User) (b : list byte)
         (temp : Activity.temp User),
    json_Unmarshal b (Activity.temp_zero User) = (temp, None) ->
    - 9223372036854 <= Activity.temp_CreatedAt temp <= 9223372036854 ->
    exists a : Activity.Activity User,
      Activity.UnmarshalJSON json_Unmarshal activity b = (a, None) /\
      GoTime.since_epoch (Activity.CreatedAt a) =
        Activity.temp_CreatedAt temp * 1000000 /\
      0 <= GoTime.unix_nsec (Activity.CreatedAt a) < 1000000000 /\
      Activity.Name a = Activity.temp_Name temp /\
      Activity.Type_ a = Activity.temp_Type temp /\
      Activity.URL a = Activity.temp_URL temp /\
      Activity.ApplicationID a = Activity.temp_ApplicationID temp /\
      Activity.State a = Activity.temp_State temp /\
      Activity.Details a = Activity.temp_Details temp /\
      Activity.Timestamps a = Activity.temp_Timestamps temp /\
      Activity.Emoji_ a = Activity.temp_Emoji temp /\
      Activity.Party_ a = Activity.temp_Party temp /\
      Activity.Assets_ a = Activity.temp_Assets temp /\
      Activity.Secrets_ a = Activity.temp_Secrets temp /\
      Activity.Instance_ a = Activity.temp_Instance temp /\
      Activity.Flags a = Activity.temp_Flags temp.
Proof.
  intros User error json_Unmarshal activity b temp Hdec Hrange.
  unfold Activity.UnmarshalJSON. rewrite Hdec.
  eexists. split; [reflexivity|].
  cbn [Activity.CreatedAt Activity.Name Activity.Type_ Activity.URL
       Activity.ApplicationID Activity.State Activity.Details
       Activity.Timestamps Activity.Emoji_ Activity.Party_ Activity.Assets_
       Activity.Secrets_ Activity.Instance_ Activity.Flags].
  assert (Hns : Int64.in_range (Activity.temp_CreatedAt temp * 1000000))
    by (unfold Int64.in_range, Int64.min_int, Int64.max_int; lia).
  unfold Int64.mul. rewrite (Int64Facts.wrap_small _ Hns).
  destruct (GoTimeFacts.Unix_0_since_epoch _ Hns) as [Hepoch Hnsec].
  repeat split; try reflexivity; try assumption; apply Hnsec.
Qed.

(** Malformed inputs run through the decoder: a syntax error and a type
    error are returned as they are, and the target keeps its fields. *)
Lemma UnmarshalJSON_errors_examples :
  TooManyRequests.UnmarshalJSON Examples.decode_u amd64_unrepresentable
    Examples.busy_limit Examples.cut_short_payload
    = (Examples.busy_limit, Some Json.SyntaxError) /\
  TooManyRequests.UnmarshalJSON Examples.decode_u amd64_unrepresentable
    Examples.busy_limit Examples.wrong_kind_payload
    = (Examples.busy_limit, Some Json.UnmarshalTypeError) /\
  TimeStamps.UnmarshalJSON Examples.decode_temp amd64_unrepresentable
    Examples.no_timestamps Examples.cut_short_payload
    = (Examples.no_timestamps, Some Json.SyntaxError).
Proof. repeat split; vm_compute; reflexivity. Qed.

(** C5: [TimeStamps.UnmarshalJSON] discards the fraction of the wire's
    milliseconds and never rounds.  When [json.Unmarshal] succeeds, so does
    the method, and each field whose integer part fits an [int64] holds
    that integer part: the number with its fraction removed.  A field
    decoded from [1609459200000.0] holds 1609459200000, and one decoded from
    [1609459200500.7] holds 1609459200500 (rounding would give
    1609459200501). *)
Theorem TimeStamps_UnmarshalJSON_truncates :
  forall (error : Type)
         (json_Unmarshal :
            list byte -> TimeStamps.temp -> TimeStamps.temp * option error)
         (unrepresentable : float64 -> Z)
         (t : TimeStamps.TimeStamps) (b : list byte) (temp : TimeStamps.temp),
    json_Unmarshal b TimeStamps.temp_zero = (temp, None) ->
    exists t' : TimeStamps.TimeStamps,
      TimeStamps.UnmarshalJSON json_Unmarshal unrepresentable t b
        = (t', None) /\
      (forall z, trunc (TimeStamps.temp_End temp) = Some z ->
         Int64.in_range z ->
         TimeStamps.EndTimestamp t' = z /\
         is_truncation (to_Q (TimeStamps.temp_End temp)) z) /\
      (forall z, trunc (TimeStamps.temp_Start temp) = Some z ->
         Int64.in_range z ->
         TimeStamps.StartTimestamp t' = z /\
         is_truncation (to_Q (TimeStamps.temp_Start temp)) z) /\
      (TimeStamps.temp_End temp = of_decimal false 16094592000000 (-1) ->
       TimeStamps.EndTimestamp t' = 1609459200000) /\
      (TimeStamps.temp_End temp = of_decimal false 16094592005007 (-1) ->
       TimeStamps.EndTimestamp t' = 1609459200500) /\
      (TimeStamps.temp_Start temp = of_decimal false 16094592000000 (-1) ->
       TimeStamps.StartTimestamp t' = 1609459200000) /\
      (TimeStamps.temp_Start temp = of_decimal false 16094592005007 (-1) ->
       TimeStamps.StartTimestamp t' = 1609459200500).
Proof.
  intros error json_Unmarshal unrepresentable t b temp Hdec.
  unfold TimeStamps.UnmarshalJSON. rewrite Hdec.
  eexists. split; [reflexivity|].
  cbn [TimeStamps.EndTimestamp TimeStamps.StartTimestamp].
  split; [|split; [|repeat split; intros ->; reflexivity]].
  - intros z Hz Hr. split.
    + apply Float64Facts.to_int64_in_range; assumption.
    + apply Float64Facts.trunc_is_truncation; assumption.
  - intros z Hz Hr. split.
    + apply Float64Facts.to_int64_in_range; assumption.
    + apply Float64Facts.trunc_is_truncation; assumption.
Qed.

(** The theorem on the input
    [{"start":1609459200500.7,"end":1609459200000.0}]. *)
Lemma TimeStamps_UnmarshalJSON_truncates_example :
  exists t' : TimeStamps.TimeStamps,
    TimeStamps.UnmarshalJSON Examples.decode_temp amd64_unrepresentable
      Examples.no_timestamps Examples.timestamps_payload = (t', None) /\
    TimeStamps.EndTimestamp t' = 1609459200000 /\
    TimeStamps.StartTimestamp t' = 1609459200500.
Proof.
  destruct (TimeStamps_UnmarshalJSON_truncates
              Json.error Examples.decode_temp amd64_unrepresentable
              Examples.no_timestamps Examples.timestamps_payload
              {| TimeStamps.temp_End := of_decimal false 16094592000000 (-1);
                 TimeStamps.temp_Start :=
                   of_decimal false 16094592005007 (-1) |})
    as (t' & Hrun & _ & _ & Hend & _ & _ & Hstart).
  - vm_compute. reflexivity.
  - exists t'. split; [exact Hrun|]. split.
    + apply Hend. reflexivity.
    + apply Hstart. reflexivity.
Defined.

(** C4: [TooManyRequests.UnmarshalJSON] on a payload whose [retry_after]
    is the number 1.5 succeeds and sets [RetryAfter] to one second and 500
    milliseconds exactly; on a payload whose [retry_after] is 0.0 it
    succeeds and sets [RetryAfter] to the zero duration. *)
Theorem TooManyRequests_UnmarshalJSON_examples :
  forall (error : Type)
         (json_Unmarshal :
            list byte -> TooManyRequests.u -> TooManyRequests.u * option error)
         (unrepresentable : float64 -> Z)
         (t : TooManyRequests.TooManyRequests) (b : list byte)
         (u : TooManyRequests.u),
    json_Unmarshal b TooManyRequests.u_zero = (u, None) ->
    exists t' : TooManyRequests.TooManyRequests,
      TooManyRequests.UnmarshalJSON json_Unmarshal unrepresentable t b
        = (t', None) /\
      (TooManyRequests.u_RetryAfter u = of_decimal false 15 (-1) ->
       TooManyRequests.RetryAfter t'
         = GoTime.Second + 500 * GoTime.Millisecond) /\
      (TooManyRequests.u_RetryAfter u = of_decimal false 0 (-1) ->
       TooManyRequests.RetryAfter t' = 0).
Proof.
  intros error json_Unmarshal unrepresentable t b u Hdec.
  unfold TooManyRequests.UnmarshalJSON. rewrite Hdec.
  eexists. split; [reflexivity|].
  cbn [TooManyRequests.RetryAfter].
  split; intros ->; vm_compute; reflexivity.
Qed.

(** The theorem on the inputs
    [{"message": "You are being rate limited.", "retry_after": 1.5,
      "global": false}] and [{"retry_after": 0.0}]. *)
Lemma TooManyRequests_UnmarshalJSON_examples_run :
  (exists t' : TooManyRequests.TooManyRequests,
     TooManyRequests.UnmarshalJSON Examples.decode_u amd64_unrepresentable
       Examples.no_limit Examples.rate_limit_payload = (t', None) /\
     TooManyRequests.RetryAfter t' = 1500000000) /\
  (exists t' : TooManyRequests.TooManyRequests,
     TooManyRequests.UnmarshalJSON Examples.decode_u amd64_unrepresentable
       Examples.no_limit Examples.zero_retry_payload = (t', None) /\
     TooManyRequests.RetryAfter t' = 0).
Proof.
  split.
  - destruct (TooManyRequests_UnmarshalJSON_examples
                Json.error Examples.decode_u amd64_unrepresentable
                Examples.no_limit Examples.rate_limit_payload
                {| TooManyRequests.u_Bucket := EmptyString;
                   TooManyRequests.u_Message :=
                     "You are being rate limited."%string;
                   TooManyRequests.u_RetryAfter := of_decimal false 15 (-1) |})
      as (t' & Hrun & Hhalf & _).
    + vm_compute. reflexivity.
    + exists t'. split; [exact Hrun|]. apply Hhalf. reflexivity.
  - destruct (TooManyRequests_UnmarshalJSON_examples
                Json.error Examples.decode_u amd64_unrepresentable
                Examples.no_limit Examples.zero_retry_payload
                {| TooManyRequests.u_Bucket := EmptyString;
                   TooManyRequests.u_Message := EmptyString;
                   TooManyRequests.u_RetryAfter := of_decimal false 0 (-1) |})
      as (t' & Hrun & _ & Hzero).
    + vm_compute. reflexivity.
    + exists t'. split; [exact Hrun|]. apply Hzero. reflexivity.
Defined.

(** C3, as amended: for every [retry_after] that is not negative and is
    below 9223372036 seconds (the durations a [time.Duration] can hold),
    [TooManyRequests.UnmarshalJSON] splits the number with [math.Modf]
    into its integer part and a fraction that sum to it, and sets
    [RetryAfter] to the whole seconds of the number plus a count of
    milliseconds that is within one of the thousandths of its fraction;
    the decoded duration, in seconds, is within one millisecond of the
    number.  The seconds are not rounded, and the fraction is not
    dropped. *)
Theorem TooManyRequests_UnmarshalJSON_within_a_millisecond :
  forall (error : Type)
         (json_Unmarshal :
            list byte -> TooManyRequests.u -> TooManyRequests.u * option error)
         (unrepresentable : float64 -> Z)
         (t : TooManyRequests.TooManyRequests) (b : list byte)
         (u : TooManyRequests.u),
    json_Unmarshal b TooManyRequests.u_zero = (u, None) ->
    valid (TooManyRequests.u_RetryAfter u) = true ->
    is_finite (TooManyRequests.u_RetryAfter u) = true ->
    (0 <= to_Q (TooManyRequests.u_RetryAfter u))%Q ->
    (to_Q (TooManyRequests.u_RetryAfter u) < 9223372036)%Q ->
    exists (t' : TooManyRequests.TooManyRequests) (whole ms : Z)
           (w f : float64),
      TooManyRequests.UnmarshalJSON json_Unmarshal unrepresentable t b
        = (t', None) /\
      Modf (TooManyRequests.u_RetryAfter u) = (w, f) /\
      (to_Q w == inject_Z whole)%Q /\
      (to_Q w + to_Q f == to_Q (TooManyRequests.u_RetryAfter u))%Q /\
      TooManyRequests.RetryAfter t'
        = whole * GoTime.Second + ms * GoTime.Millisecond /\
      is_truncation (to_Q (TooManyRequests.u_RetryAfter u)) whole /\
      0 <= ms <= 1000 /\
      (Qabs (inject_Z ms
             - 1000 * (to_Q (TooManyRequests.u_RetryAfter u) - inject_Z whole))
       < 1)%Q /\
      (Qabs (GoTime.seconds (TooManyRequests.RetryAfter t')
             - to_Q (TooManyRequests.u_RetryAfter u))
       < 1 # 1000)%Q.
Proof.
  intros error json_Unmarshal unrepresentable t b u Hdec Hv Hfin Hpos Hlt.
  destruct (Float64Facts.duration_splits unrepresentable _ Hv Hfin Hpos Hlt)
    as (N & D & HQ & HN & Htr & ms & Hdur & Hms & Hnext).
  destruct (Float64Facts.split_error N D ms HN Hms Hnext)
    as (Htrunc & Hrange & Hfrac & Herr).
  destruct (Float64Facts.Modf_sums _ Hv Hfin)
    as (w & f & z & HModf & Hz & Hw & Hsum & _).
  rewrite Htr in Hz. injection Hz as <-.
  unfold TooManyRequests.UnmarshalJSON. rewrite Hdec.
  eexists. exists (N / Zpos D), ms, w, f. split; [reflexivity|].
  split; [exact HModf|]. split; [exact Hw|]. split; [exact Hsum|].
  cbn [TooManyRequests.RetryAfter]. rewrite HQ, Hdur.
  change GoTime.Second with 1000000000.
  change GoTime.Millisecond with 1000000.
  split; [reflexivity|]. repeat (split; [assumption|]). assumption.
Qed.

(** The theorem on the input [{"retry_after": 2.9999}]: two seconds and
    999 milliseconds. *)
Lemma TooManyRequests_UnmarshalJSON_within_a_millisecond_example :
  exists t' : TooManyRequests.TooManyRequests,
    TooManyRequests.UnmarshalJSON Examples.decode_u amd64_unrepresentable
      Examples.no_limit Examples.fraction_payload = (t', None) /\
    TooManyRequests.RetryAfter t' = 2999000000 /\
    (Qabs (GoTime.seconds (TooManyRequests.RetryAfter t')
           - to_Q (of_decimal false 29999 (-4)))
     < 1 # 1000)%Q.
Proof.
  destruct (TooManyRequests_UnmarshalJSON_within_a_millisecond
              Json.error Examples.decode_u amd64_unrepresentable
              Examples.no_limit Examples.fraction_payload
              {| TooManyRequests.u_Bucket := EmptyString;
                 TooManyRequests.u_Message := EmptyString;
                 TooManyRequests.u_RetryAfter :=
                   of_decimal false 29999 (-4) |})
    as (t' & whole & ms & w & f & Hrun & _ & _ & _ & _ & _ & _ & _ & Herr).
  - vm_compute. reflexivity.
  - reflexivity.
  - reflexivity.
  - vm_compute. discriminate.
  - vm_compute. reflexivity.
  - exists t'. split; [exact Hrun|]. split; [|exact Herr].
    vm_compute in Hrun. injection Hrun as <-. reflexivity.
Defined.

(** C3 fails beyond the range of [time.Duration]: a [retry_after] of
    10000000000 seconds is decoded without error, the multiplication by
    [time.Second] wraps around, and [RetryAfter] is the negative duration
    -8446744073709551616 ns, far from the number decoded (whatever the
    implementation makes of unrepresentable conversions, none being
    involved). *)
Lemma retry_after_beyond_the_range_of_Duration :
  Examples.decode_u Examples.long_retry_payload TooManyRequests.u_zero
    = ({| TooManyRequests.u_Bucket := EmptyString;
          TooManyRequests.u_Message := EmptyString;
          TooManyRequests.u_RetryAfter := of_decimal false 10000000000 0 |},
       None) /\
  valid (of_decimal false 10000000000 0) = true /\
  is_finite (of_decimal false 10000000000 0) = true /\
  (to_Q (of_decimal false 10000000000 0) == inject_Z 10000000000)%Q /\
  (forall unrepresentable : float64 -> Z,
     TooManyRequests.retry_after_duration unrepresentable
       (of_decimal false 10000000000 0) = -8446744073709551616) /\
  TooManyRequests.UnmarshalJSON Examples.decode_u amd64_unrepresentable
    Examples.no_limit Examples.long_retry_payload
    = ({| TooManyRequests.Bucket := EmptyString;
          TooManyRequests.Message := EmptyString;
          TooManyRequests.RetryAfter := -8446744073709551616 |}, None) /\
  (1 # 1000
   < Qabs (GoTime.seconds (-8446744073709551616)
           - to_Q (of_decimal false 10000000000 0)))%Q.
Proof.
  repeat split; intros; vm_compute; reflexivity.
Qed.

(** The amended C10 on the input
    [{"name":"Rocq","type":0,"created_at":1609459200000}]:
    January 1, 2021, 1609459200 seconds after the epoch. *)
Lemma Activity_UnmarshalJSON_created_at_example :
  exists a : Activity.Activity Json.UserID,
    Activity.UnmarshalJSON Examples.decode_activity Examples.no_activity
      Examples.activity_payload = (a, None) /\
    GoTime.since_epoch (Activity.CreatedAt a) = 1609459200000 * 1000000 /\
    Activity.Name a = "Rocq"%string.
Proof.
  destruct (Activity_UnmarshalJSON_created_at_in_milliseconds
              Json.UserID Json.error Examples.decode_activity
              Examples.no_activity Examples.activity_payload
              (fst (Examples.decode_activity Examples.activity_payload
                      (Activity.temp_zero Json.UserID))))
    as (a & Hrun & Hepoch & _ & Hname & _).
  - vm_compute. reflexivity.
  - vm_compute. split; discriminate.
  - exists a. split; [exact Hrun|]. split.
    + rewrite Hepoch. vm_compute. reflexivity.
    + rewrite Hname. vm_compute. reflexivity.
Defined.

(** C10 fails for the instants whose nanoseconds an [int64] cannot count:
    a [created_at] of 9223372036855 ms (in April 2262) is decoded without
    error, the multiplication by 1000000 wraps around, and [CreatedAt] is
    the instant -9223372036854551616 ns from the epoch (in 1677), not
    9223372036855000000 ns after it. *)
Lemma created_at_beyond_the_range_of_int64 :
  snd (Examples.decode_activity Examples.late_activity_payload
         (Activity.temp_zero Json.UserID)) = None /\
  Activity.temp_CreatedAt
    (fst (Examples.decode_activity Examples.late_activity_payload
            (Activity.temp_zero Json.UserID))) = 9223372036855 /\
  snd (Activity.UnmarshalJSON Examples.decode_activity Examples.no_activity
         Examples.late_activity_payload) = None /\
  GoTime.since_epoch
    (Activity.CreatedAt
       (fst (Activity.UnmarshalJSON Examples.decode_activity
               Examples.no_activity Examples.late_activity_payload)))
    = -9223372036854551616 /\
  -9223372036854551616 < 9223372036855 * 1000000.
Proof.
  repeat split; vm_compute; reflexivity.
Qed.

End DecoderFacts.

(** ** The tables: what the constants are together *)

Module TableFacts.

Import Permission Intents Tables.

Lemma single_bitb_sound (z : Z) : single_bitb z = true -> single_bit z.
Proof.
  unfold single_bitb, single_bit. rewrite andb_true_iff, Z.ltb_lt, Z.eqb_eq.
  intros [Hpos Hz]. exists (Z.log2 z). split; [apply Z.log2_nonneg | exact Hz].
Qed.

Lemma Forall_of_forallb {A : Type} (P : A -> Prop) (f : A -> bool)
  (l : list A) :
  (forall x, f x = true -> P x) -> forallb f l = true -> Forall P l.
Proof.
  intros Hf H. apply Forall_forall. intros x Hx.
  apply Hf. rewrite forallb_forall in H. exact (H x Hx).
Qed.

Lemma clashes_from_nil (i j : nat) (x : Z) (l : list Z) :
  clashes_from i j x l = [] -> ~ In x l.
Proof.
  revert j. induction l as [|y l IH]; intros j H; cbn [clashes_from] in H.
  - intros [].
  - destruct (Z.eqb_spec x y) as [->|Hne]; [discriminate H|].
    intros [E|Hin]; [congruence | exact (IH _ H Hin)].
Qed.

(** A list without clashes has no value twice. *)
Lemma clashes_nil (i : nat) (l : list Z) : clashes i l = [] -> NoDup l.
Proof.
  revert i. induction l as [|x l IH]; intros i H; [constructor|].
  cbn [clashes] in H. apply app_eq_nil in H as [Hx Hl].
  constructor; [exact (clashes_from_nil _ _ _ _ Hx) | exact (IH _ Hl)].
Qed.

(** The 34 declared permissions are single bits, and all different but for
    the deprecated [PermissionReadMessages], the first of the table, which
    is [PermissionViewChannel] under its old name: no two permissions
    share a bit by accident. *)
Theorem permissions_are_distinct_bits :
  List.length permissions = 34%nat /\
  Forall single_bit permissions /\
  PermissionReadMessages = PermissionViewChannel /\
  NoDup (tl permissions) /\
  clashes 0 permissions = [(0%nat, 32%nat)].
Proof.
  split; [reflexivity|]. split.
  - apply (Forall_of_forallb _ single_bitb); [exact single_bitb_sound|].
    vm_compute. reflexivity.
  - split; [reflexivity|]. split; [|vm_compute; reflexivity].
    apply (clashes_nil 0). vm_compute. reflexivity.
Qed.

(** [PermissionAll] is not every permission: it has none of the seven
    declared permissions of [not_in_PermissionAll] (stream video, request
    to speak, external emojis, slash commands, the two nickname permissions
    and guild insights), and it has every other declared permission.  The
    composites nest: restricting a mask to [PermissionAll] and then to
    [PermissionAllChannel] is restricting it to [PermissionAllChannel], and
    likewise for the text and voice permissions within the channel ones;
    text and voice have only [PermissionViewChannel] in common. *)
Theorem PermissionAll_leaves_out_seven :
  incl not_in_PermissionAll permissions /\
  Forall (fun p => PermissionAll .& p = 0) not_in_PermissionAll /\
  Forall (fun p => In p not_in_PermissionAll \/ PermissionAll .& p = p)
    permissions /\
  (forall mask,
     mask .& PermissionAll .& PermissionAllChannel
       = mask .& PermissionAllChannel /\
     mask .& PermissionAllChannel .& PermissionAllText
       = mask .& PermissionAllText /\
     mask .& PermissionAllChannel .& PermissionAllVoice
       = mask .& PermissionAllVoice) /\
  PermissionAllText .& PermissionAllVoice = PermissionViewChannel.
Proof.
  split; [|split; [|split; [|split; [|reflexivity]]]].
  - intros p Hp. cbn [not_in_PermissionAll In] in Hp.
    unfold permissions. cbn.
    repeat (destruct Hp as [<-|Hp]; [tauto|]). destruct Hp.
  - apply (Forall_of_forallb _ (fun p => PermissionAll .& p =? 0)).
    + intros p. apply Z.eqb_eq.
    + vm_compute. reflexivity.
  - apply (Forall_of_forallb _
             (fun p => existsb (Z.eqb p) not_in_PermissionAll
                       || (PermissionAll .& p =? p))).
    + intros p Hp. apply orb_true_iff in Hp as [Hp|Hp].
      * left. apply existsb_exists in Hp as (q & Hq & E).
        apply Z.eqb_eq in E. subst q. exact Hq.
      * right. apply Z.eqb_eq. exact Hp.
    + vm_compute. reflexivity.
  - intros mask. rewrite <- !Z.land_assoc.
    change (PermissionAll .& PermissionAllChannel) with PermissionAllChannel.
    change (PermissionAllChannel .& PermissionAllText) with PermissionAllText.
    change (PermissionAllChannel .& PermissionAllVoice)
      with PermissionAllVoice.
    repeat split.
Qed.

(** The sixteen declared intents are single bits, all different, and
    [IntentsAll] is their union: every declared intent is in it, and
    nothing else.  [IntentsAllWithoutPrivileged] is the union of the
    fourteen that are neither [IntentsGuildMembers] nor
    [IntentsGuildPresences]. *)
Theorem IntentsAll_is_every_intent :
  List.length intents = 16%nat /\
  Forall single_bit intents /\
  NoDup intents /\
  IntentsAll = compose intents /\
  (forall i, Z.testbit IntentsAll i = covered intents i) /\
  IntentsAllWithoutPrivileged
    = compose (filter (fun x => negb (x =? IntentsGuildMembers)
                                && negb (x =? IntentsGuildPresences))
                 intents).
Proof.
  split; [reflexivity|]. split.
  - apply (Forall_of_forallb _ single_bitb); [exact single_bitb_sound|].
    vm_compute. reflexivity.
  - split; [apply (clashes_nil 0); vm_compute; reflexivity|].
    assert (H : IntentsAll = compose intents) by reflexivity.
    split; [exact H|]. split; [|reflexivity].
    intros i. rewrite H. apply PermissionFacts.compose_bits.
Qed.

End TableFacts.

(** ** Strings *)

Module StringFacts.

Local Open Scope string_scope.

Lemma append_assoc (a b c : string) : (a ++ b) ++ c = a ++ (b ++ c).
Proof. induction a as [|x a IH]; cbn; [reflexivity | now rewrite IH]. Qed.

Lemma append_empty_r (a : string) : a ++ "" = a.
Proof. induction a as [|x a IH]; cbn; [reflexivity | now rewrite IH]. Qed.

Lemma length_append (a b : string) :
  String.length (a ++ b) = (String.length a + String.length b)%nat.
Proof. induction a as [|x a IH]; cbn; [reflexivity | now rewrite IH]. Qed.

(** Equal strings with equal ends have equal beginnings. *)
Lemma append_inv_tail (a b t : string) : a ++ t = b ++ t -> a = b.
Proof.
  revert b. induction a as [|x a IH]; intros [|y b] H; cbn in H.
  - reflexivity.
  - exfalso. apply (f_equal String.length) in H. cbn in H.
    rewrite length_append in H. lia.
  - exfalso. apply (f_equal String.length) in H. cbn in H.
    rewrite length_append in H. lia.
  - injection H as -> H. f_equal. exact (IH _ H).
Qed.

Lemma append_inv_head (h a b : string) : h ++ a = h ++ b -> a = b.
Proof.
  induction h as [|x h IH]; cbn; intros H; [exact H|].
  injection H as H. exact (IH H).
Qed.

Lemma free_of_append (c : ascii) (a b : string) :
  EmojiNames.free_of c (a ++ b)
  = EmojiNames.free_of c a && EmojiNames.free_of c b.
Proof.
  induction a as [|x a IH]; cbn; [reflexivity|].
  rewrite IH. apply andb_assoc.
Qed.

(** Two strings cut at the first [c] are cut at the same place. *)
Lemma first_occurrence (c : ascii) (a b x y : string) :
  EmojiNames.free_of c a = true -> EmojiNames.free_of c b = true ->
  a ++ String c x = b ++ String c y -> a = b /\ x = y.
Proof.
  revert b. induction a as [|p a IH]; intros [|q b] Ha Hb H; cbn in *.
  - injection H as ->. split; reflexivity.
  - injection H as <- _. rewrite Ascii.eqb_refl in Hb. discriminate.
  - injection H as -> _. rewrite Ascii.eqb_refl in Ha. discriminate.
  - injection H as -> H.
    apply andb_true_iff in Ha as [_ Ha], Hb as [_ Hb].
    destruct (IH b Ha Hb H) as [-> ->]. split; reflexivity.
Qed.

Lemma nonempty_iff (s : string) : EmojiNames.nonempty s = true <-> s <> "".
Proof.
  unfold EmojiNames.nonempty. destruct (String.eqb_spec s "") as [->|H];
    cbn; split; congruence.
Qed.

Lemma nonempty_false_iff (s : string) :
  EmojiNames.nonempty s = false <-> s = "".
Proof.
  unfold EmojiNames.nonempty. destruct (String.eqb_spec s "") as [->|H];
    cbn; split; congruence.
Qed.

End StringFacts.

(** ** The language of EmojiRegex *)

Module RegexpFacts.

Import Regexp StringFacts.
Local Open Scope string_scope.

Lemma append_nil (a b : string) : a ++ b = "" -> a = "" /\ b = "".
Proof. destruct a; cbn; [auto | discriminate]. Qed.

Lemma concat_iff (r1 r2 : regexp) (s : string) :
  matches (Concat r1 r2) s <->
  exists s1 s2, s = s1 ++ s2 /\ matches r1 s1 /\ matches r2 s2.
Proof.
  split.
  - intros H. inversion H; subst. eauto.
  - intros (s1 & s2 & -> & H1 & H2). constructor; assumption.
Qed.

Lemma alternate_iff (r1 r2 : regexp) (s : string) :
  matches (Alternate r1 r2) s <-> matches r1 s \/ matches r2 s.
Proof.
  split.
  - intros H. inversion H; subst; auto.
  - intros [H|H]; [apply matches_left | apply matches_right]; exact H.
Qed.

Lemma nullable_iff (r : regexp) : nullable r = true <-> matches r "".
Proof.
  induction r as [| |rs|r1 IH1 r2 IH2|r1 IH1 r2 IH2|r IH]; cbn.
  - split; [discriminate | intros H; inversion H].
  - split; [intros _; constructor | reflexivity].
  - split; [discriminate | intros H; inversion H].
  - rewrite andb_true_iff, IH1, IH2. split.
    + intros [H1 H2]. exact (matches_concat _ _ "" "" H1 H2).
    + intros H. apply concat_iff in H as (s1 & s2 & E & H1 & H2).
      symmetry in E. apply append_nil in E as [-> ->]. auto.
  - rewrite orb_true_iff, IH1, IH2. symmetry. apply alternate_iff.
  - split; [intros _; constructor | reflexivity].
Qed.

(** A non-empty match of [r*] starts with a non-empty match of [r]. *)
Lemma star_cons (r : regexp) (c : ascii) (s : string) :
  matches (Star r) (String c s) ->
  exists s1 s2, s = s1 ++ s2 /\ matches r (String c s1) /\ matches (Star r) s2.
Proof.
  intros H. remember (Star r) as q eqn:Eq. remember (String c s) as t eqn:Et.
  revert Eq s Et.
  induction H as [| | | | | |r' s1 s2 H1 _ H2 IH2]; try discriminate.
  intros Eq s Et. injection Eq as ->.
  destruct s1 as [|x s1]; cbn in Et.
  - exact (IH2 eq_refl _ Et).
  - injection Et as -> <-. exists s1, s2. auto.
Qed.

Lemma derive_iff (r : regexp) (c : ascii) (s : string) :
  matches (derive c r) s <-> matches r (String c s).
Proof.
  revert s.
  induction r as [| |rs|r1 IH1 r2 IH2|r1 IH1 r2 IH2|r IH]; intros s; cbn.
  - split; intros H; inversion H.
  - split; intros H; inversion H.
  - destruct (in_class rs c) eqn:E; split; intros H; inversion H; subst.
    + constructor. exact E.
    + constructor.
    + congruence.
  - assert (step : matches (Concat (derive c r1) r2) s ->
                   matches (Concat r1 r2) (String c s)).
    { intros H. apply concat_iff in H as (s1 & s2 & -> & H1 & H2).
      apply IH1 in H1.
      exact (matches_concat _ _ (String c s1) s2 H1 H2). }
    assert (back : matches (Concat r1 r2) (String c s) ->
                   matches (Concat (derive c r1) r2) s \/
                   (matches r1 "" /\ matches (derive c r2) s)).
    { intros H. apply concat_iff in H as (s1 & s2 & E & H1 & H2).
      destruct s1 as [|x s1]; cbn in E.
      - subst s2. right. split; [exact H1 | apply IH2; exact H2].
      - injection E as <- ->. left.
        apply matches_concat; [apply IH1; exact H1 | exact H2]. }
    destruct (nullable r1) eqn:N.
    + split.
      * intros H. apply alternate_iff in H as [H|H]; [auto|].
        apply nullable_iff in N. apply IH2 in H.
        exact (matches_concat _ _ "" _ N H).
      * intros H. destruct (back H) as [K|[_ K]];
          [apply matches_left | apply matches_right]; exact K.
    + split; [exact step|].
      intros H. destruct (back H) as [K|[K _]]; [exact K|].
      apply nullable_iff in K. congruence.
  - rewrite !alternate_iff, IH1, IH2. reflexivity.
  - split.
    + intros H. apply concat_iff in H as (s1 & s2 & -> & H1 & H2).
      apply IH in H1.
      exact (matches_more _ (String c s1) s2 H1 H2).
    + intros H. apply star_cons in H as (s1 & s2 & -> & H1 & H2).
      apply matches_concat; [apply IH; exact H1 | exact H2].
Qed.

(** The derivatives decide the language. *)
Lemma accepts_iff (r : regexp) (s : string) :
  accepts r s = true <-> matches r s.
Proof.
  revert r. induction s as [|c s IH]; intros r; cbn.
  - apply nullable_iff.
  - rewrite IH. apply derive_iff.
Qed.

Lemma class_iff (rs : list (ascii * ascii)) (s : string) :
  matches (CharClass rs) s <->
  exists c, s = String c "" /\ in_class rs c = true.
Proof.
  split.
  - intros H. inversion H; subst. eauto.
  - intros (c & -> & H). constructor. exact H.
Qed.

Lemma in_class_single (c x : ascii) : in_class [(c, c)] x = true <-> x = c.
Proof.
  unfold in_class, in_range. cbn. rewrite orb_false_r, andb_true_iff.
  rewrite !Nat.leb_le. split.
  - intros [H1 H2]. rewrite <- (ascii_nat_embedding x), <- (ascii_nat_embedding c).
    f_equal. lia.
  - intros ->. lia.
Qed.

Lemma literal_iff (c : ascii) (s : string) :
  matches (Literal c) s <-> s = String c "".
Proof.
  unfold Literal. rewrite class_iff. split.
  - intros (x & -> & H). apply in_class_single in H. now subst.
  - intros ->. exists c. split; [reflexivity | now apply in_class_single].
Qed.

Lemma all_in_append (rs : list (ascii * ascii)) (a b : string) :
  all_in rs (a ++ b) = all_in rs a && all_in rs b.
Proof.
  induction a as [|x a IH]; cbn; [reflexivity|].
  rewrite IH. apply andb_assoc.
Qed.

Lemma star_class_iff (rs : list (ascii * ascii)) (s : string) :
  matches (Star (CharClass rs)) s <-> all_in rs s = true.
Proof.
  split.
  - intros H. remember (Star (CharClass rs)) as q eqn:Eq. revert Eq.
    induction H as [| | | | | |r s1 s2 H1 _ H2 IH2]; try discriminate.
    + reflexivity.
    + intros Eq. injection Eq as ->. apply class_iff in H1 as (c & -> & H1).
      cbn. rewrite H1, (IH2 eq_refl). reflexivity.
  - induction s as [|c s IH]; cbn; intros H.
    + constructor.
    + apply andb_true_iff in H as [H1 H2].
      apply (matches_more _ (String c "") s); [now constructor | auto].
Qed.

Lemma plus_class_iff (rs : list (ascii * ascii)) (s : string) :
  matches (Plus (CharClass rs)) s <->
  EmojiNames.nonempty s = true /\ all_in rs s = true.
Proof.
  unfold Plus. rewrite concat_iff. split.
  - intros (s1 & s2 & -> & H1 & H2).
    apply class_iff in H1 as (c & -> & H1). apply star_class_iff in H2.
    cbn. rewrite H1, H2. auto.
  - intros [Hn H]. destruct s as [|c s]; [discriminate Hn|].
    cbn in H. apply andb_true_iff in H as [H1 H2].
    exists (String c ""), s. split; [reflexivity|].
    split; [now constructor | now apply star_class_iff].
Qed.

Lemma repeat_class_iff (n : nat) (rs : list (ascii * ascii)) (s : string) :
  matches (Repeat n (CharClass rs)) s <->
  String.length s = n /\ all_in rs s = true.
Proof.
  revert s. induction n as [|n IH]; intros s; cbn [Repeat].
  - split.
    + intros H. inversion H. auto.
    + intros [H _]. destruct s; [constructor | discriminate H].
  - rewrite concat_iff. split.
    + intros (s1 & s2 & -> & H1 & H2).
      apply class_iff in H1 as (c & -> & H1). apply IH in H2 as [H2 H3].
      cbn. rewrite H1, H2, H3. auto.
    + intros [Hn H]. destruct s as [|c s]; [discriminate Hn|].
      cbn in Hn, H. apply andb_true_iff in H as [H1 H2].
      exists (String c ""), s. split; [reflexivity|].
      split; [now constructor | apply IH; split; [lia | exact H2]].
Qed.

(** What [EmojiRegex] matches from end to end: [<:name:id>] or
    [<a:name:id>], for a non-empty name over [A-z0-9_~] and an ID of
    eighteen digits. *)
Lemma EmojiRegex_language (s : string) :
  matches EmojiRegex s <->
  exists (animated : bool) (name id : string),
    s = "<" ++ (if animated then "a" else "") ++ ":" ++ name ++ ":" ++ id
        ++ ">" /\
    EmojiNames.nonempty name = true /\ all_in name_class name = true /\
    String.length id = 18%nat /\ all_in digit_class id = true.
Proof.
  unfold EmojiRegex. split.
  - intros H.
    apply concat_iff in H as (s1 & t1 & -> & H1 & H).
    apply concat_iff in H as (s2 & t2 & -> & H2 & H).
    apply concat_iff in H as (s3 & t3 & -> & H3 & H).
    apply concat_iff in H as (s4 & t4 & -> & H4 & H).
    apply concat_iff in H as (s5 & t5 & -> & H5 & H).
    apply concat_iff in H as (s6 & s7 & -> & H6 & H7).
    apply literal_iff in H1, H3, H5, H7. subst s1 s3 s5 s7.
    apply plus_class_iff in H4 as [Hn Hc].
    apply repeat_class_iff in H6 as [Hl Hd].
    apply alternate_iff in H2 as [H2|H2].
    + apply literal_iff in H2. subst s2.
      exists true, s4, s6. auto.
    + inversion H2; subst. exists false, s4, s6. auto.
  - intros (animated & name & id & -> & Hn & Hc & Hl & Hd).
    apply matches_concat; [now apply literal_iff|].
    apply matches_concat.
    { destruct animated;
        [apply matches_left; now apply literal_iff
        | apply matches_right; constructor]. }
    apply (matches_concat _ _ ":"); [now apply literal_iff|].
    apply matches_concat; [apply plus_class_iff; auto|].
    apply (matches_concat _ _ ":"); [now apply literal_iff|].
    apply matches_concat; [apply repeat_class_iff; auto|].
    now apply literal_iff.
Qed.

Lemma all_in_free_of (rs : list (ascii * ascii)) (c : ascii) (s : string) :
  in_class rs c = false -> all_in rs s = true -> EmojiNames.free_of c s = true.
Proof.
  intros Hc. induction s as [|x s IH]; cbn; [reflexivity|].
  intros H. apply andb_true_iff in H as [H1 H2]. rewrite (IH H2), andb_true_r.
  destruct (Ascii.eqb_spec x c) as [->|_]; [congruence | reflexivity].
Qed.

(** A text with one [c] in it is cut there. *)
Lemma single_separator (c : ascii) (a b x y : string) :
  EmojiNames.free_of c a = true -> EmojiNames.free_of c x = true ->
  b ++ String c y = a ++ String c x -> b = a /\ y = x.
Proof.
  intros Ha Hx. revert b.
  induction a as [|p a IH]; intros [|q b] H; cbn in *.
  - injection H as ->. auto.
  - injection H as -> H. exfalso. rewrite <- H, free_of_append in Hx.
    cbn in Hx. rewrite Ascii.eqb_refl, andb_false_r in Hx. discriminate.
  - injection H as <- _. rewrite Ascii.eqb_refl in Ha. discriminate.
  - injection H as -> H. apply andb_true_iff in Ha as [_ Ha].
    destruct (IH Ha b H) as [-> ->]. auto.
Qed.

(** Of the texts that [MessageFormat] builds for a custom emoji,
    [EmojiRegex] matches those with a non-empty name over [A-z0-9_~] and an
    ID of eighteen digits, and no other. *)
Lemma format_matches (animated : bool) (name id : string) :
  accepts EmojiRegex
    ((if animated then "<a:" else "<:") ++ (name ++ ":" ++ id) ++ ">") = true
  <->
  EmojiNames.nonempty name = true /\ all_in name_class name = true /\
  String.length id = 18%nat /\ all_in digit_class id = true.
Proof.
  rewrite accepts_iff, EmojiRegex_language. split.
  - intros (a & n & i & E & Hn & Hc & Hl & Hd).
    assert (F : (name ++ ":" ++ id) ++ ">" = (n ++ ":" ++ i) ++ ">").
    { rewrite !append_assoc. cbn.
      destruct animated, a; cbn in E; try discriminate E;
        injection E as E; rewrite append_assoc in E; exact E. }
    apply append_inv_tail in F.
    apply single_separator in F as [-> ->]; [auto | |].
    + apply (all_in_free_of name_class); [reflexivity | exact Hc].
    + apply (all_in_free_of digit_class); [reflexivity | exact Hd].
  - intros (Hn & Hc & Hl & Hd). exists animated, name, id.
    split; [|auto]. rewrite !append_assoc. destruct animated; reflexivity.
Qed.

End RegexpFacts.

(** ** The names of an emoji *)

Module EmojiFacts.

Import EmojiNames StringFacts.
Local Open Scope string_scope.

Section Names.

Variable User : Type.

Let Emoji : Type := Activity.Emoji User.

(** The API name, case by case. *)
Lemma APIName_cases (e : Emoji) :
  APIName (Some e) =
  Returns
    (if nonempty (Activity.Emoji_ID e) && nonempty (Activity.Emoji_Name e)
     then Activity.Emoji_Name e ++ ":" ++ Activity.Emoji_ID e
     else if nonempty (Activity.Emoji_Name e) then Activity.Emoji_Name e
     else Activity.Emoji_ID e).
Proof.
  unfold APIName. cbn [deref bind].
  destruct (nonempty (Activity.Emoji_ID e) && nonempty (Activity.Emoji_Name e));
    [reflexivity|].
  destruct (nonempty (Activity.Emoji_Name e)); reflexivity.
Qed.

(** [APIName] returns a name for every emoji, and the empty name only for
    the emoji that has neither an ID nor a name: an emoji that can be told
    apart at all has an API name to tell it by. *)
Theorem APIName_empty_iff_nothing_set (e : Emoji) :
  exists s : string,
    APIName (Some e) = Returns s /\
    (s = "" <-> Activity.Emoji_ID e = "" /\ Activity.Emoji_Name e = "").
Proof.
  rewrite APIName_cases. eexists. split; [reflexivity|].
  destruct (nonempty (Activity.Emoji_ID e)) eqn:Hid,
           (nonempty (Activity.Emoji_Name e)) eqn:Hname; cbn [andb].
  - apply nonempty_iff in Hid, Hname. split.
    + intros H. destruct (Activity.Emoji_Name e); [congruence | discriminate H].
    + intros [H _]. congruence.
  - apply nonempty_iff in Hid. apply nonempty_false_iff in Hname. tauto.
  - apply nonempty_iff in Hname. apply nonempty_false_iff in Hid. tauto.
  - apply nonempty_false_iff in Hid, Hname. tauto.
Qed.

(** Among the custom emojis (ID and name set) whose names hold no colon,
    the API name tells the emoji: two of them with the same API name have
    the same name and the same ID. *)
Theorem APIName_tells_custom_emojis_apart (e1 e2 : Emoji) :
  nonempty (Activity.Emoji_ID e1) = true ->
  nonempty (Activity.Emoji_Name e1) = true ->
  nonempty (Activity.Emoji_ID e2) = true ->
  nonempty (Activity.Emoji_Name e2) = true ->
  free_of ":" (Activity.Emoji_Name e1) = true ->
  free_of ":" (Activity.Emoji_Name e2) = true ->
  APIName (Some e1) = APIName (Some e2) ->
  Activity.Emoji_Name e1 = Activity.Emoji_Name e2 /\
  Activity.Emoji_ID e1 = Activity.Emoji_ID e2.
Proof.
  intros Hi1 Hn1 Hi2 Hn2 Hf1 Hf2. rewrite !APIName_cases.
  rewrite Hi1, Hn1, Hi2, Hn2. cbn [andb]. intros H. injection H as H.
  exact (first_occurrence ":" _ _ _ _ Hf1 Hf2 H).
Qed.

(** For a custom emoji (ID and name set) [MessageFormat] returns a text
    that [EmojiRegex] matches from end to end exactly when the name is made
    of the characters [A-z0-9_~] and the ID of eighteen digits: the text of
    an emoji with a shorter or longer ID, or with another character in its
    name, is not recognised. *)
Theorem MessageFormat_matches_EmojiRegex (e : Emoji) :
  nonempty (Activity.Emoji_ID e) = true ->
  nonempty (Activity.Emoji_Name e) = true ->
  exists s : string,
    MessageFormat (Some e) = Returns s /\
    (Regexp.accepts Regexp.EmojiRegex s = true <->
     Regexp.all_in Regexp.name_class (Activity.Emoji_Name e) = true /\
     String.length (Activity.Emoji_ID e) = 18%nat /\
     Regexp.all_in Regexp.digit_class (Activity.Emoji_ID e) = true).
Proof.
  intros Hi Hn. unfold MessageFormat. cbn [deref bind].
  rewrite APIName_cases, Hi, Hn. cbn [andb bind].
  destruct (Activity.Emoji_Animated e); eexists; (split; [reflexivity|]).
  - rewrite (RegexpFacts.format_matches true), Hn. tauto.
  - rewrite (RegexpFacts.format_matches false), Hn. tauto.
Qed.

(** [MessageFormat] wraps the API name of the custom emojis and of no
    other.  For every emoji both methods return; for a custom emoji (ID and
    name set) the text of [MessageFormat] is the API name between [<:]
    (between [<a:] when the emoji is animated) and [>], three or four
    characters longer than the API name; for every other emoji it is the
    API name itself.  So the two texts are the same exactly for the emojis
    that lack an ID or a name.  Through a nil receiver both methods
    panic. *)
Theorem MessageFormat_is_APIName_iff_not_custom :
  @MessageFormat User None = Panics NilPointerDereference /\
  @APIName User None = Panics NilPointerDereference /\
  forall e : Emoji,
    let custom :=
      nonempty (Activity.Emoji_ID e) && nonempty (Activity.Emoji_Name e) in
    exists name text : string,
      APIName (Some e) = Returns name /\
      MessageFormat (Some e) = Returns text /\
      (custom = true ->
       text = (if Activity.Emoji_Animated e then "<a:" else "<:")
              ++ name ++ ">" /\
       name = Activity.Emoji_Name e ++ ":" ++ Activity.Emoji_ID e /\
       String.length text
       = (String.length name
          + (if Activity.Emoji_Animated e then 4 else 3))%nat) /\
      (custom = false -> text = name) /\
      (text = name <-> custom = false) /\
      (MessageFormat (Some e) = APIName (Some e) <-> custom = false).
Proof.
  split; [reflexivity|]. split; [reflexivity|].
  intros e custom. unfold MessageFormat. cbn [deref bind].
  rewrite APIName_cases. fold custom.
  destruct custom eqn:C.
  - assert (L : forall name : string,
              String.length
                ((if Activity.Emoji_Animated e then "<a:" else "<:")
                 ++ name ++ ">")
              = (String.length name
                 + (if Activity.Emoji_Animated e then 4 else 3))%nat).
    { intros name. destruct (Activity.Emoji_Animated e);
        cbn [String.length append]; rewrite length_append;
        cbn [String.length]; lia. }
    exists (Activity.Emoji_Name e ++ ":" ++ Activity.Emoji_ID e),
           ((if Activity.Emoji_Animated e then "<a:" else "<:")
            ++ (Activity.Emoji_Name e ++ ":" ++ Activity.Emoji_ID e) ++ ">").
    split; [reflexivity|].
    split; [destruct (Activity.Emoji_Animated e); reflexivity|].
    split; [intros _; split; [reflexivity | split; [reflexivity | apply L]]|].
    split; [discriminate|].
    assert (N : forall name : string,
              (if Activity.Emoji_Animated e then "<a:" else "<:")
              ++ name ++ ">" <> name).
    { intros name H. apply (f_equal String.length) in H.
      rewrite L in H. destruct (Activity.Emoji_Animated e); lia. }
    split; (split; [|discriminate]).
    + intros H. exfalso. exact (N _ H).
    + intros H. exfalso.
      destruct (Activity.Emoji_Animated e); cbn [bind] in H;
        injection H as H; exact (N _ H).
  - eexists. eexists. split; [reflexivity|]. split; [reflexivity|].
    split; [discriminate|]. repeat split; reflexivity.
Qed.

End Names.

Lemma APIName_tells_custom_emojis_apart_example :
  APIName (Some (Examples.blob false)) = APIName (Some (Examples.blob true)) /\
  Activity.Emoji_Name (Examples.blob false) = Activity.Emoji_Name (Examples.blob true) /\
  Activity.Emoji_ID (Examples.blob false) = Activity.Emoji_ID (Examples.blob true).
Proof.
  split; [reflexivity|].
  apply (APIName_tells_custom_emojis_apart unit (Examples.blob false) (Examples.blob true));
    reflexivity.
Defined.

Lemma MessageFormat_matches_EmojiRegex_example :
  exists s : string,
    MessageFormat (Some (Examples.blob true)) = Returns s /\
    (Regexp.accepts Regexp.EmojiRegex s = true <->
     Regexp.all_in Regexp.name_class
       (Activity.Emoji_Name (Examples.blob true)) = true /\
     String.length (Activity.Emoji_ID (Examples.blob true)) = 18%nat /\
     Regexp.all_in Regexp.digit_class
       (Activity.Emoji_ID (Examples.blob true)) = true).
Proof.
  apply (MessageFormat_matches_EmojiRegex unit (Examples.blob true));
    reflexivity.
Defined.

(** A colon in a name does make the API name ambiguous: the emojis named
    [a:b] with ID [c] and named [a] with ID [b:c] share theirs. *)
Lemma APIName_ambiguous_with_colons :
  exists e1 e2 : Activity.Emoji unit,
    nonempty (Activity.Emoji_ID e1) = true /\
    nonempty (Activity.Emoji_Name e1) = true /\
    nonempty (Activity.Emoji_ID e2) = true /\
    nonempty (Activity.Emoji_Name e2) = true /\
    APIName (Some e1) = APIName (Some e2) /\
    Activity.Emoji_Name e1 <> Activity.Emoji_Name e2.
Proof.
  exists {| Activity.Emoji_ID := "c"; Activity.Emoji_Name := "a:b";
            Activity.Emoji_Roles := nil; Activity.Emoji_User := None;
            Activity.Emoji_RequireColons := false;
            Activity.Emoji_Managed := false;
            Activity.Emoji_Animated := false;
            Activity.Emoji_Available := false |},
         {| Activity.Emoji_ID := "b:c"; Activity.Emoji_Name := "a";
            Activity.Emoji_Roles := nil; Activity.Emoji_User := None;
            Activity.Emoji_RequireColons := false;
            Activity.Emoji_Managed := false;
            Activity.Emoji_Animated := false;
            Activity.Emoji_Available := false |}.
  repeat split; discriminate.
Qed.

End EmojiFacts.

(** ** What a mention tells *)

Module MentionKinds.

Import Structs StringFacts.
Local Open Scope string_scope.

Section Entities.

Variables Timestamp User Message : Type.
Variable User_ID : User -> string.

Let Channel : Type := Structs.Channel Timestamp User Message.
Let Member : Type := Structs.Member Timestamp User.

Lemma wrapped_inj (before a b : string) :
  before ++ a ++ ">" = before ++ b ++ ">" <-> a = b.
Proof.
  split; [|now intros ->].
  intros H. apply append_inv_head in H. exact (append_inv_tail _ _ _ H).
Qed.

(** A mention tells what it mentions.  Two channels have the same mention
    exactly when they have the same ID, and so for two roles; two members
    have the same outcome of [Mention] exactly when their users have the
    same ID or are both nil.  And the mentions of a channel, of a role and
    of a member are never the same text, whatever the IDs are. *)
Theorem mentions_tell_kind_and_ID :
  (forall c1 c2 : Channel,
     Channel_Mention (Some c1) = Channel_Mention (Some c2) <->
     Channel_ID c1 = Channel_ID c2) /\
  (forall r1 r2 : Role,
     Role_Mention (Some r1) = Role_Mention (Some r2) <->
     Role_ID r1 = Role_ID r2) /\
  (forall m1 m2 : Member,
     Member_Mention User_ID (Some m1) = Member_Mention User_ID (Some m2) <->
     option_map User_ID (Member_User m1)
     = option_map User_ID (Member_User m2)) /\
  (forall (c : Channel) (r : Role) (m : Member),
     Channel_Mention (Some c) <> Role_Mention (Some r) /\
     Channel_Mention (Some c) <> Member_Mention User_ID (Some m) /\
     Role_Mention (Some r) <> Member_Mention User_ID (Some m)).
Proof.
  split; [|split; [|split]].
  - intros c1 c2. change (Channel_Mention (Some c1))
      with (Returns ("<#" ++ Channel_ID c1 ++ ">")).
    change (Channel_Mention (Some c2))
      with (Returns ("<#" ++ Channel_ID c2 ++ ">")).
    rewrite <- (wrapped_inj "<#"). split; [now intros [= ->] | now intros ->].
  - intros r1 r2. change (Role_Mention (Some r1))
      with (Returns ("<@&" ++ Role_ID r1 ++ ">")).
    change (Role_Mention (Some r2))
      with (Returns ("<@&" ++ Role_ID r2 ++ ">")).
    rewrite <- (wrapped_inj "<@&"). split; [now intros [= ->] | now intros ->].
  - intros m1 m2. unfold Member_Mention. cbn [deref bind].
    destruct (Member_User m1) as [u1|], (Member_User m2) as [u2|];
      cbn [deref bind option_map].
    + split.
      * intros [= H]. f_equal. exact (append_inv_tail _ _ _ H).
      * now intros [= ->].
    + split; discriminate.
    + split; discriminate.
    + split; reflexivity.
  - intros c r m. unfold Member_Mention. cbn [deref bind].
    split; [discriminate|].
    destruct (Member_User m) as [u|]; cbn [deref bind]; split; discriminate.
Qed.

End Entities.

End MentionKinds.

(** ** Roles as a sort.Interface *)

Module RolesFacts.

Import Structs Roles.
Local Open Scope Z_scope.

Lemma length_update (r : Roles) (n : nat) (p : option Role) :
  List.length (update r n p) = List.length r.
Proof.
  revert n. induction r as [|x r IH]; intros [|n]; cbn; auto.
Qed.

Lemma nth_error_update_eq (r : Roles) (n : nat) (p : option Role) :
  (n < List.length r)%nat -> nth_error (update r n p) n = Some p.
Proof.
  revert n. induction r as [|x r IH]; intros [|n]; cbn; intros H;
    try lia; [reflexivity | apply IH; lia].
Qed.

Lemma nth_error_update_neq (r : Roles) (n k : nat) (p : option Role) :
  k <> n -> nth_error (update r n p) k = nth_error r k.
Proof.
  revert n k. induction r as [|x r IH]; intros [|n] [|k] H; cbn;
    try reflexivity; try congruence.
  apply IH. congruence.
Qed.

Lemma update_same (r : Roles) (n : nat) (p : option Role) :
  nth_error r n = Some p -> update r n p = r.
Proof.
  revert n. induction r as [|x r IH]; intros [|n]; cbn; intros H;
    try reflexivity.
  - congruence.
  - now rewrite IH.
Qed.

Lemma update_update (r : Roles) (n : nat) (p q : option Role) :
  update (update r n p) n q = update r n q.
Proof.
  revert n. induction r as [|x r IH]; intros [|n]; cbn;
    try reflexivity. now rewrite IH.
Qed.

Lemma update_comm (r : Roles) (n k : nat) (p q : option Role) :
  n <> k -> update (update r n p) k q = update (update r k q) n p.
Proof.
  revert n k. induction r as [|x r IH]; intros [|n] [|k] H; cbn;
    try reflexivity; try congruence.
  rewrite IH; [reflexivity | congruence].
Qed.

Lemma Len_update (r : Roles) (n : nat) (p : option Role) :
  Len (update r n p) = Len r.
Proof. unfold Len. now rewrite length_update. Qed.

(** Reading [r[i]]: an element within the bounds, a panic outside. *)
Lemma index_in_bounds (r : Roles) (i : Z) :
  in_bounds r i -> exists p, index r i = Done p /\
                             nth_error r (Z.to_nat i) = Some p.
Proof.
  unfold in_bounds, index, Len. intros H.
  destruct (nth_error r (Z.to_nat i)) as [p|] eqn:E.
  - exists p. split; [|reflexivity].
    replace ((0 <=? i) && (i <? Z.of_nat (List.length r))) with true;
      [reflexivity|].
    symmetry. apply andb_true_iff. split; [apply Z.leb_le | apply Z.ltb_lt];
      lia.
  - apply nth_error_None in E. lia.
Qed.

Lemma index_out_of_bounds (r : Roles) (i : Z) :
  ~ in_bounds r i -> index r i = Fault IndexOutOfRange.
Proof.
  unfold in_bounds, index. intros H.
  destruct ((0 <=? i) && (i <? Len r)) eqn:E; [|reflexivity].
  apply andb_true_iff in E as [E1 E2].
  apply Z.leb_le in E1. apply Z.ltb_lt in E2. lia.
Qed.

Lemma in_bounds_dec (r : Roles) (i : Z) : in_bounds r i \/ ~ in_bounds r i.
Proof. unfold in_bounds. lia. Qed.

Lemma store_in_bounds (r : Roles) (i : Z) (p : option Role) :
  in_bounds r i -> store r i p = Done (update r (Z.to_nat i) p).
Proof.
  unfold in_bounds, store. intros H.
  replace ((0 <=? i) && (i <? Len r)) with true; [reflexivity|].
  symmetry. apply andb_true_iff. split; [apply Z.leb_le | apply Z.ltb_lt];
    lia.
Qed.

Lemma in_bounds_nat (r : Roles) (i : Z) :
  in_bounds r i -> (Z.to_nat i < List.length r)%nat.
Proof. unfold in_bounds, Len. lia. Qed.

(** What [Swap] leaves within the bounds. *)
Lemma Swap_in_bounds (r : Roles) (i j : Z) (a b : option Role) :
  in_bounds r i -> in_bounds r j ->
  nth_error r (Z.to_nat i) = Some b -> nth_error r (Z.to_nat j) = Some a ->
  Swap r i j = Done (update (update r (Z.to_nat i) a) (Z.to_nat j) b).
Proof.
  intros Hi Hj Ei Ej. unfold Swap.
  destruct (index_in_bounds r i Hi) as (b' & -> & Eb).
  destruct (index_in_bounds r j Hj) as (a' & -> & Ea).
  assert (a' = a) as -> by congruence. assert (b' = b) as -> by congruence.
  cbn [and_then]. rewrite (store_in_bounds r i a Hi). cbn [and_then].
  apply store_in_bounds. unfold in_bounds in *. now rewrite Len_update.
Qed.

Lemma swap_head (x y : option Role) (t : Roles) (n : nat) :
  nth_error t n = Some y -> Permutation (x :: t) (y :: update t n x).
Proof.
  revert n. induction t as [|z t IH]; intros [|n]; cbn; intros H;
    try discriminate.
  - injection H as ->. apply perm_swap.
  - apply perm_trans with (z :: x :: t); [apply perm_swap|].
    apply perm_trans with (z :: y :: update t n x);
      [apply perm_skip, IH, H | apply perm_swap].
Qed.

Lemma swap_Permutation (r : Roles) (n k : nat) (x y : option Role) :
  nth_error r n = Some x -> nth_error r k = Some y ->
  Permutation r (update (update r n y) k x).
Proof.
  revert n k. induction r as [|h t IH]; intros [|n] [|k]; cbn;
    intros Hn Hk; try discriminate.
  - injection Hn as ->. injection Hk as ->. apply Permutation_refl.
  - injection Hn as ->. apply swap_head, Hk.
  - injection Hk as ->. apply swap_head, Hn.
  - apply perm_skip, IH; assumption.
Qed.

Lemma swap_back (r : Roles) (n m : nat) (a b : option Role) :
  nth_error r n = Some b -> nth_error r m = Some a ->
  update (update (update (update r n a) m b) n b) m a = r.
Proof.
  intros Eb Ea. destruct (Nat.eq_dec n m) as [->|N].
  - assert (a = b) as -> by congruence.
    now rewrite !update_update, update_same.
  - rewrite (update_comm r n m a b N), update_update.
    rewrite (update_comm r m n b b) by congruence.
    rewrite update_update, (update_same r n b Eb).
    now apply update_same.
Qed.

Lemma index_nth (r : Roles) (i : Z) (p : option Role) :
  in_bounds r i -> nth_error r (Z.to_nat i) = Some p -> index r i = Done p.
Proof.
  intros H E. destruct (index_in_bounds r i H) as (q & -> & Eq). congruence.
Qed.

Lemma Swap_done_in_bounds (r r' : Roles) (i j : Z) :
  Swap r i j = Done r' -> in_bounds r i /\ in_bounds r j.
Proof.
  unfold Swap. intros H.
  destruct (in_bounds_dec r j) as [Hj|Hj];
    [|rewrite (index_out_of_bounds r j Hj) in H; discriminate].
  destruct (index_in_bounds r j Hj) as (a & Ea & _). rewrite Ea in H.
  cbn [and_then] in H.
  destruct (in_bounds_dec r i) as [Hi|Hi];
    [|rewrite (index_out_of_bounds r i Hi) in H; discriminate].
  auto.
Qed.

(** After [Swap], every index reads what its transposed index read. *)
Lemma Swap_reads (r : Roles) (i j : Z) :
  in_bounds r i -> in_bounds r j ->
  exists r', Swap r i j = Done r' /\ Len r' = Len r /\
             forall k, index r' k = index r (transpose i j k).
Proof.
  intros Hi Hj.
  destruct (index_in_bounds r i Hi) as (b & Ib & Eb).
  destruct (index_in_bounds r j Hj) as (a & Ia & Ea).
  rewrite (Swap_in_bounds r i j a b Hi Hj Eb Ea).
  eexists. split; [reflexivity|].
  assert (L : Len (update (update r (Z.to_nat i) a) (Z.to_nat j) b) = Len r)
    by now rewrite !Len_update.
  split; [exact L|].
  intros k. unfold transpose.
  destruct (in_bounds_dec r k) as [Hk|Hk].
  - assert (Hk' : in_bounds (update (update r (Z.to_nat i) a) (Z.to_nat j) b) k)
      by (unfold in_bounds in *; now rewrite L).
    pose proof (in_bounds_nat r i Hi) as Ni.
    pose proof (in_bounds_nat r j Hj) as Nj.
    destruct (Z.eqb_spec k i) as [->|Nki].
    + rewrite Ia. apply index_nth; [exact Hk'|].
      destruct (Z.eqb_spec i j) as [->|Nij].
      * rewrite nth_error_update_eq by (now rewrite length_update).
        congruence.
      * rewrite nth_error_update_neq
          by (unfold in_bounds in *; lia).
        now apply nth_error_update_eq.
    + destruct (Z.eqb_spec k j) as [->|Nkj].
      * rewrite Ib. apply index_nth; [exact Hk'|].
        apply nth_error_update_eq. now rewrite length_update.
      * destruct (index_in_bounds r k Hk) as (p & -> & Ep).
        apply index_nth; [exact Hk'|].
        rewrite !nth_error_update_neq by (unfold in_bounds in *; lia).
        exact Ep.
  - assert (Ni : k <> i) by (intros ->; auto).
    assert (Nj : k <> j) by (intros ->; auto).
    apply Z.eqb_neq in Ni, Nj. rewrite Ni, Nj.
    rewrite (index_out_of_bounds r k Hk). apply index_out_of_bounds.
    unfold in_bounds in *. now rewrite L.
Qed.

(** [Swap] exchanges two elements and nothing else.  For two indices within
    the bounds it returns; the slice keeps its length, index [i] then reads
    what [j] read and [j] what [i] read, every other index reads what it
    did, the elements are the same as before up to their order, and a
    second [Swap] of the same indices restores the slice. *)
Theorem Swap_exchanges_two_elements (r : Roles) (i j : Z) :
  in_bounds r i -> in_bounds r j ->
  exists r' : Roles,
    Swap r i j = Done r' /\
    Len r' = Len r /\
    index r' i = index r j /\
    index r' j = index r i /\
    (forall k, k <> i -> k <> j -> index r' k = index r k) /\
    Permutation r r' /\
    Swap r' i j = Done r.
Proof.
  intros Hi Hj.
  destruct (Swap_reads r i j Hi Hj) as (r' & S & L & R).
  exists r'. split; [exact S|]. split; [exact L|].
  assert (Ti : transpose i j i = j) by (unfold transpose; now rewrite Z.eqb_refl).
  assert (Tj : transpose i j j = i).
  { unfold transpose. rewrite Z.eqb_refl.
    destruct (Z.eqb_spec j i); congruence. }
  split; [now rewrite R, Ti|]. split; [now rewrite R, Tj|].
  split.
  { intros k Ni Nj. rewrite R. unfold transpose.
    apply Z.eqb_neq in Ni, Nj. now rewrite Ni, Nj. }
  destruct (index_in_bounds r i Hi) as (b & Ib & Eb).
  destruct (index_in_bounds r j Hj) as (a & Ia & Ea).
  split.
  { rewrite (Swap_in_bounds r i j a b Hi Hj Eb Ea) in S. injection S as <-.
    exact (swap_Permutation r _ _ b a Eb Ea). }
  assert (Hi' : in_bounds r' i) by (unfold in_bounds in *; now rewrite L).
  assert (Hj' : in_bounds r' j) by (unfold in_bounds in *; now rewrite L).
  destruct (index_in_bounds r' i Hi') as (a' & Ia' & Ea').
  destruct (index_in_bounds r' j Hj') as (b' & Ib' & Eb').
  rewrite R, Ti, Ia in Ia'. rewrite R, Tj, Ib in Ib'.
  injection Ia' as <-. injection Ib' as <-.
  rewrite (Swap_in_bounds r' i j b a Hi' Hj' Ea' Eb').
  rewrite (Swap_in_bounds r i j a b Hi Hj Eb Ea) in S. injection S as <-.
  f_equal. exact (swap_back r _ _ a b Eb Ea).
Qed.

Lemma Swap_out_of_bounds (r : Roles) (i j : Z) :
  ~ (in_bounds r i /\ in_bounds r j) -> Swap r i j = Fault IndexOutOfRange.
Proof.
  intros H. unfold Swap.
  destruct (in_bounds_dec r j) as [Hj|Hj];
    [|now rewrite (index_out_of_bounds r j Hj)].
  destruct (index_in_bounds r j Hj) as (a & -> & _). cbn [and_then].
  destruct (in_bounds_dec r i) as [Hi|Hi]; [tauto|].
  now rewrite (index_out_of_bounds r i Hi).
Qed.

Lemma Swap_exchanges_two_elements_example :
  in_bounds three_roles 0 /\ in_bounds three_roles 2 /\
  exists r' : Roles,
    Swap three_roles 0 2 = Done r' /\
    Len r' = Len three_roles /\
    index r' 0 = index three_roles 2 /\
    index r' 2 = index three_roles 0 /\
    (forall k, k <> 0 -> k <> 2 -> index r' k = index three_roles k) /\
    Permutation three_roles r' /\
    Swap r' 0 2 = Done three_roles.
Proof.
  assert (H0 : in_bounds three_roles 0) by (unfold in_bounds; cbn; lia).
  assert (H2 : in_bounds three_roles 2) by (unfold in_bounds; cbn; lia).
  split; [exact H0|]. split; [exact H2|].
  exact (Swap_exchanges_two_elements three_roles 0 2 H0 H2).
Defined.

(** [Swap] panics exactly when one of the two indices is out of the bounds
    of the slice, with an index out of range and before it has written
    anything; it never reads through an element, so that nil elements are
    exchanged like the others. *)
Theorem Swap_panics_iff_out_of_bounds (r : Roles) (i j : Z) :
  (Swap r i j = Fault IndexOutOfRange <->
   ~ (in_bounds r i /\ in_bounds r j)) /\
  ((exists r', Swap r i j = Done r') <-> in_bounds r i /\ in_bounds r j) /\
  Swap r i j <> Fault NilDereference.
Proof.
  destruct (in_bounds_dec r i) as [Hi|Hi], (in_bounds_dec r j) as [Hj|Hj];
    try (rewrite Swap_out_of_bounds by tauto;
         split; [tauto|]; split; [|discriminate];
         split; [intros [r' H]; discriminate H | tauto]).
  destruct (Swap_reads r i j Hi Hj) as (r' & -> & _).
  split; [split; [discriminate | tauto]|].
  split; [|discriminate]. split; [tauto | eauto].
Qed.

Lemma Less_done (r : Roles) (i j : Z) (b : bool) :
  Less r i j = Done b <->
  exists vi vj : Role,
    index r i = Done (Some vi) /\ index r j = Done (Some vj) /\
    b = (Role_Position vi >? Role_Position vj).
Proof.
  unfold Less. split.
  - destruct (index r i) as [[vi|]|]; cbn [and_then Position];
      try discriminate.
    destruct (index r j) as [[vj|]|]; cbn [and_then Position];
      try discriminate.
    intros [= <-]. eauto.
  - intros (vi & vj & -> & -> & ->). reflexivity.
Qed.

(** [Less] returns exactly when both indices are within the bounds and
    neither element is nil, and then it is a strict weak order, as sorting
    asks of it: nothing is less than itself, [Less i j] and [Less j i]
    never both hold, and both [Less] and its negation are transitive. *)
Theorem Less_is_a_strict_weak_order (r : Roles) :
  (forall i j,
     (exists b, Less r i j = Done b) <->
     exists vi vj, index r i = Done (Some vi) /\ index r j = Done (Some vj)) /\
  (forall i, Less r i i <> Done true) /\
  (forall i j, Less r i j = Done true -> Less r j i = Done false) /\
  (forall i j k,
     Less r i j = Done true -> Less r j k = Done true ->
     Less r i k = Done true) /\
  (forall i j k,
     Less r i j = Done false -> Less r j k = Done false ->
     Less r i k = Done false).
Proof.
  split; [|split; [|split; [|split]]].
  - intros i j. split.
    + intros [b H]. apply Less_done in H as (vi & vj & Hi & Hj & _). eauto.
    + intros (vi & vj & Hi & Hj). eexists. apply Less_done. eauto.
  - intros i H. apply Less_done in H as (vi & vj & Hi & Hj & H).
    assert (vi = vj) as -> by congruence. symmetry in H.
    apply Z.gtb_gt in H. lia.
  - intros i j H. apply Less_done in H as (vi & vj & Hi & Hj & H).
    apply Less_done. exists vj, vi. repeat split; try assumption.
    symmetry in H. apply Z.gtb_gt in H. symmetry.
    destruct (Z.gtb_spec (Role_Position vj) (Role_Position vi)); [lia|easy].
  - intros i j k H1 H2.
    apply Less_done in H1 as (vi & vj & Hi & Hj & H1).
    apply Less_done in H2 as (vj' & vk & Hj' & Hk & H2).
    assert (vj' = vj) as -> by congruence.
    apply Less_done. exists vi, vk. repeat split; try assumption.
    symmetry in H1, H2. apply Z.gtb_gt in H1, H2. symmetry.
    apply Z.gtb_gt. lia.
  - intros i j k H1 H2.
    apply Less_done in H1 as (vi & vj & Hi & Hj & H1).
    apply Less_done in H2 as (vj' & vk & Hj' & Hk & H2).
    assert (vj' = vj) as -> by congruence.
    apply Less_done. exists vi, vk. repeat split; try assumption.
    destruct (Z.gtb_spec (Role_Position vi) (Role_Position vj));
      [discriminate|].
    destruct (Z.gtb_spec (Role_Position vj) (Role_Position vk));
      [discriminate|].
    destruct (Z.gtb_spec (Role_Position vi) (Role_Position vk)); [lia|easy].
Qed.

(** After a [Swap] of [i] and [j], [Less] compares as it did before at the
    transposed indices, panics included: [Less i j] has become what
    [Less j i] was. *)
Theorem Swap_transposes_Less (r r' : Roles) (i j : Z) :
  Swap r i j = Done r' ->
  forall k l, Less r' k l = Less r (transpose i j k) (transpose i j l).
Proof.
  intros H k l. destruct (Swap_done_in_bounds r r' i j H) as [Hi Hj].
  destruct (Swap_reads r i j Hi Hj) as (r'' & S & _ & R).
  assert (r'' = r') as -> by congruence.
  unfold Less. now rewrite !R.
Qed.

Lemma Swap_transposes_Less_example :
  Swap three_roles 0 2 = Done (rev three_roles) /\
  Less (rev three_roles) 0 2 = Less three_roles 2 0 /\
  Less (rev three_roles) 0 1 = Less three_roles 2 1.
Proof.
  split; [reflexivity|].
  split;
    [exact (Swap_transposes_Less three_roles (rev three_roles) 0 2
              eq_refl 0 2)
    |exact (Swap_transposes_Less three_roles (rev three_roles) 0 2
              eq_refl 0 1)].
Defined.

End RolesFacts.

(** ** More on the decoders *)

Module DecoderLaws.

Import Float64.

(** The [float64] of a whole number below [2^53] is that number. *)
Lemma of_decimal_whole (neg : bool) (n : Z) :
  0 <= n < 2 ^ 53 -> trunc (of_decimal neg n 0) = Some (cond_Zopp neg n).
Proof.
  intros H. unfold of_decimal.
  destruct (Z.leb_spec n 0) as [H0|H0].
  - assert (n = 0) as -> by lia. destruct neg; reflexivity.
  - cbn [Z.leb Z.compare]. rewrite Z.pow_0_r, Z.mul_1_r.
    assert (R : represents (normalize neg n 0) neg n 0)
      by (apply Float64Facts.normalize_exact; lia).
    rewrite (Float64Facts.represents_trunc _ _ _ _ R) by lia.
    cbn [Z.opp]. now rewrite Z.pow_0_r, Z.div_1_r.
Qed.

(** Above, the numbers are rounded: [2^53 + 1] becomes [2^53]. *)
Lemma of_decimal_rounds_from_2_53 :
  trunc (of_decimal false (2 ^ 53 + 1) 0) = Some (2 ^ 53).
Proof. vm_compute. reflexivity. Qed.

Section Decoders.

Variables User error : Type.
Variable decode_temp :
  list byte -> TimeStamps.temp -> TimeStamps.temp * option error.
Variable decode_u :
  list byte -> TooManyRequests.u -> TooManyRequests.u * option error.
Variable decode_activity :
  list byte -> Activity.temp User -> Activity.temp User * option error.
Variable unrepresentable : float64 -> Z.

Let decodeT := TimeStamps.UnmarshalJSON decode_temp unrepresentable.
Let decodeR := TooManyRequests.UnmarshalJSON decode_u unrepresentable.
Let decodeA := Activity.UnmarshalJSON decode_activity.

(** A [float64] that is a whole number [n] of seconds, [n] not negative
    and below 9223372036, makes the duration of [n] seconds. *)
Lemma whole_seconds (x : float64) (n : Z) :
  0 <= n < 9223372036 -> represents x false n 0 ->
  TooManyRequests.retry_after_duration unrepresentable x = n * GoTime.Second.
Proof.
  intros Hn R.
  pose proof (Float64Facts.represents_to_Q _ _ _ _ R) as HQ.
  pose proof (Float64Facts.represents_trunc _ _ _ _ R ltac:(lia)) as HT.
  cbn [cond_Zopp Z.opp] in HT. rewrite Z.pow_0_r, Z.div_1_r in HT.
  unfold value in HQ. cbn [Z.leb Z.compare cond_Zopp] in HQ.
  rewrite Z.pow_0_r, Z.mul_1_r in HQ.
  assert (Hv : valid x = true /\ is_finite x = true).
  { destruct R as [[_ ->]|(m' & e' & -> & _ & _ & Hv)];
      split; try reflexivity; exact Hv. }
  destruct Hv as [Hv Hfin].
  destruct (Float64Facts.duration_splits unrepresentable x Hv Hfin)
    as (N & D & EQ & HN & Htr & ms & Hdur & Hms & Hnext).
  - rewrite HQ. unfold Qle. cbn. lia.
  - rewrite HQ. unfold Qlt. cbn. lia.
  - rewrite EQ in HQ. unfold Qeq in HQ. cbn in HQ.
    rewrite Z.mul_1_r in HQ.
    assert (Hmod : N mod Zpos D = 0) by (subst N; apply Z.mod_mul; lia).
    assert (Hdiv : N / Zpos D = n) by (subst N; apply Z.div_mul; lia).
    rewrite Hmod, Z.mul_0_r, Zdiv_0_l in Hms, Hnext.
    rewrite Zmod_0_l in Hnext.
    assert (ms = 0) as -> by (destruct (Z.eq_dec ms 1) as [E|E];
                              [exfalso; apply (Hnext E); reflexivity | lia]).
    rewrite Hdur, Hdiv. change GoTime.Second with 1000000000. lia.
Qed.

Lemma of_decimal_whole_represents (n : Z) :
  0 <= n < 2 ^ 53 -> represents (of_decimal false n 0) false n 0.
Proof.
  intros H. unfold of_decimal.
  destruct (Z.leb_spec n 0) as [H0|H0].
  - left. split; [lia | reflexivity].
  - cbn [Z.leb Z.compare]. rewrite Z.pow_0_r, Z.mul_1_r.
    apply Float64Facts.normalize_exact; lia.
Qed.

(** The three decoders write every field of their target when they
    succeed: nothing of the target's earlier value is left, nothing is
    merged, and decoding twice is decoding once. *)
Theorem UnmarshalJSON_overwrites_every_field :
  Decoding.forgets decodeT /\ Decoding.forgets decodeR /\
  Decoding.forgets decodeA.
Proof.
  split; [|split]; intros t1 t2 b.
  - unfold decodeT, TimeStamps.UnmarshalJSON.
    destruct (decode_temp b TimeStamps.temp_zero) as [temp [e|]] eqn:E;
      cbn [fst snd]; rewrite ?E; repeat split; try reflexivity.
    discriminate.
  - unfold decodeR, TooManyRequests.UnmarshalJSON.
    destruct (decode_u b TooManyRequests.u_zero) as [u [e|]] eqn:E;
      cbn [fst snd]; rewrite ?E; repeat split; try reflexivity.
    discriminate.
  - unfold decodeA, Activity.UnmarshalJSON.
    destruct (decode_activity b (Activity.temp_zero User)) as [temp [e|]] eqn:E;
      cbn [fst snd]; rewrite ?E; repeat split; try reflexivity.
    discriminate.
Qed.

(** [Activity.UnmarshalJSON] returns the error of [json.Unmarshal] on the
    shadow structure, whatever the input: a non-nil error exactly when that
    decoding fails, and then the same error, the activity being left as it
    was; a nil error when it succeeds, whatever [created_at] is. *)
Theorem Activity_UnmarshalJSON_returns_the_decoding_error
  (activity : Activity.Activity User) (b : list byte) :
  let r := decodeA activity b in
  let err := snd (decode_activity b (Activity.temp_zero User)) in
  snd r = err /\ (err <> None -> fst r = activity).
Proof.
  unfold decodeA, Activity.UnmarshalJSON.
  destruct (decode_activity b (Activity.temp_zero User)) as [temp [e|]];
    cbn [fst snd]; split; congruence.
Qed.

(** Whatever [created_at] the wire holds, when [json.Unmarshal] succeeds
    [CreatedAt] is the instant whose nanoseconds since the epoch are the
    [int64] that [created_at * 1000000] wraps to: they differ from the
    product by a multiple of [2^64], and are the product exactly when the
    product is an [int64]. *)
Theorem Activity_UnmarshalJSON_created_at_wraps
  (activity : Activity.Activity User) (b : list byte)
  (temp : Activity.temp User) :
  decode_activity b (Activity.temp_zero User) = (temp, None) ->
  exists a : Activity.Activity User,
    decodeA activity b = (a, None) /\
    GoTime.since_epoch (Activity.CreatedAt a)
      = Int64.wrap (Activity.temp_CreatedAt temp * 1000000) /\
    Int64.in_range (GoTime.since_epoch (Activity.CreatedAt a)) /\
    0 <= GoTime.unix_nsec (Activity.CreatedAt a) < 1000000000 /\
    (exists k : Z,
       GoTime.since_epoch (Activity.CreatedAt a)
       = Activity.temp_CreatedAt temp * 1000000 + k * 2 ^ 64) /\
    (GoTime.since_epoch (Activity.CreatedAt a)
     = Activity.temp_CreatedAt temp * 1000000 <->
     Int64.in_range (Activity.temp_CreatedAt temp * 1000000)).
Proof.
  intros Hdec. unfold decodeA, Activity.UnmarshalJSON. rewrite Hdec.
  eexists. split; [reflexivity|]. cbn [Activity.CreatedAt].
  unfold Int64.mul.
  set (n := Activity.temp_CreatedAt temp * 1000000).
  pose proof (Int64Facts.wrap_in_range n) as Hr.
  destruct (GoTimeFacts.Unix_0_since_epoch _ Hr) as [-> Hnsec].
  split; [reflexivity|]. split; [exact Hr|]. split; [exact Hnsec|].
  split; [apply Int64Facts.wrap_congruent|]. split.
  - intros <-. exact Hr.
  - apply Int64Facts.wrap_small.
Qed.

(** A whole number of milliseconds below [2^53] in absolute value goes
    through the [float64] of the shadow structure unchanged: when
    [json.Unmarshal] succeeds and the two numbers on the wire are such
    integers, the fields hold exactly these integers. *)
Theorem TimeStamps_UnmarshalJSON_whole_numbers_exact
  (t : TimeStamps.TimeStamps) (b : list byte) (temp : TimeStamps.temp)
  (neg_end neg_start : bool) (n_end n_start : Z) :
  decode_temp b TimeStamps.temp_zero = (temp, None) ->
  0 <= n_end < 2 ^ 53 -> 0 <= n_start < 2 ^ 53 ->
  TimeStamps.temp_End temp = of_decimal neg_end n_end 0 ->
  TimeStamps.temp_Start temp = of_decimal neg_start n_start 0 ->
  decodeT t b =
  ({| TimeStamps.EndTimestamp := cond_Zopp neg_end n_end;
      TimeStamps.StartTimestamp := cond_Zopp neg_start n_start |}, None).
Proof.
  intros Hdec He Hs Eend Estart.
  unfold decodeT, TimeStamps.UnmarshalJSON. rewrite Hdec.
  cbn [TimeStamps.EndTimestamp TimeStamps.StartTimestamp].
  rewrite Eend, Estart.
  rewrite (Float64Facts.to_int64_in_range unrepresentable _ _
             (of_decimal_whole neg_end n_end He)).
  - rewrite (Float64Facts.to_int64_in_range unrepresentable _ _
               (of_decimal_whole neg_start n_start Hs)); [reflexivity|].
    unfold Int64.in_range, Int64.min_int, Int64.max_int.
    destruct neg_start; cbn [cond_Zopp]; lia.
  - unfold Int64.in_range, Int64.min_int, Int64.max_int.
    destruct neg_end; cbn [cond_Zopp]; lia.
Qed.

(** A whole number of seconds, not negative and below 9223372036, is
    decoded exactly: [RetryAfter] is that many seconds, with no millisecond
    from the fraction, and [Bucket] and [Message] are the wire's. *)
Theorem TooManyRequests_UnmarshalJSON_whole_seconds_exact
  (t : TooManyRequests.TooManyRequests) (b : list byte)
  (u : TooManyRequests.u) (n : Z) :
  decode_u b TooManyRequests.u_zero = (u, None) ->
  0 <= n < 9223372036 ->
  TooManyRequests.u_RetryAfter u = of_decimal false n 0 ->
  decodeR t b =
  ({| TooManyRequests.Bucket := TooManyRequests.u_Bucket u;
      TooManyRequests.Message := TooManyRequests.u_Message u;
      TooManyRequests.RetryAfter := n * GoTime.Second |}, None).
Proof.
  intros Hdec Hn Ex.
  unfold decodeR, TooManyRequests.UnmarshalJSON. rewrite Hdec.
  cbn [TooManyRequests.Bucket TooManyRequests.Message
       TooManyRequests.RetryAfter].
  do 2 f_equal. rewrite Ex.
  exact (whole_seconds (of_decimal false n 0) n Hn
           (of_decimal_whole_represents n ltac:(lia))).
Qed.

End Decoders.

Lemma TooManyRequests_UnmarshalJSON_whole_seconds_exact_example :
  TooManyRequests.UnmarshalJSON Examples.decode_u amd64_unrepresentable
    Examples.busy_limit Examples.whole_retry_payload =
  ({| TooManyRequests.Bucket := "";
      TooManyRequests.Message := "slow down";
      TooManyRequests.RetryAfter := 30 * GoTime.Second |}, None).
Proof.
  apply (TooManyRequests_UnmarshalJSON_whole_seconds_exact
           Json.error Examples.decode_u amd64_unrepresentable
           Examples.busy_limit Examples.whole_retry_payload
           (fst (Examples.decode_u Examples.whole_retry_payload
                   TooManyRequests.u_zero)) 30).
  - vm_compute. reflexivity.
  - lia.
  - vm_compute. reflexivity.
Defined.

(** The theorem on the input [{"start":1609459200000,"end":-1}]. *)
Lemma TimeStamps_UnmarshalJSON_whole_numbers_exact_example :
  TimeStamps.UnmarshalJSON Examples.decode_temp amd64_unrepresentable
    Examples.no_timestamps Examples.whole_timestamps_payload =
  ({| TimeStamps.EndTimestamp := -1;
      TimeStamps.StartTimestamp := 1609459200000 |}, None).
Proof.
  apply (TimeStamps_UnmarshalJSON_whole_numbers_exact
           Json.error Examples.decode_temp amd64_unrepresentable
           Examples.no_timestamps Examples.whole_timestamps_payload
           (fst (Examples.decode_temp Examples.whole_timestamps_payload
                   TimeStamps.temp_zero))
           true false 1 1609459200000).
  - vm_compute. reflexivity.
  - lia.
  - lia.
  - vm_compute. reflexivity.
  - vm_compute. reflexivity.
Defined.

(** The theorem on the input [{"created_at":9223372036855}], one
    millisecond beyond the last whose nanoseconds are an [int64]. *)
Lemma Activity_UnmarshalJSON_created_at_wraps_example :
  exists a : Activity.Activity Json.UserID,
    Activity.UnmarshalJSON Examples.decode_activity Examples.no_activity
      Examples.late_activity_payload = (a, None) /\
    GoTime.since_epoch (Activity.CreatedAt a) = - 9223372036854551616 /\
    GoTime.since_epoch (Activity.CreatedAt a)
    = 9223372036855 * 1000000 - 2 ^ 64.
Proof.
  destruct (Activity_UnmarshalJSON_created_at_wraps
              Json.UserID Json.error Examples.decode_activity
              Examples.no_activity Examples.late_activity_payload
              (fst (Examples.decode_activity Examples.late_activity_payload
                      (Activity.temp_zero Json.UserID))))
    as (a & Hrun & Hwrap & _).
  - vm_compute. reflexivity.
  - exists a. split; [exact Hrun|]. rewrite Hwrap.
    split; vm_compute; reflexivity.
Defined.

End DecoderLaws.
